(** * Fedorable: the task/option configuration model and the process runner

    A shallow embedding of [fedorable/core.py], of the configuration step of
    [fedorable/cli.py] ([setup_fedorable_core]) and of the two methods of the
    GTK front end ([main.py]: [build_command], [on_run_clicked] with its
    completion callback) that drive the same core object.

    Python strings are modelled as [string] (their UTF-8 bytes), dictionaries
    as association lists in insertion order, and the objects the dictionaries
    refer to live in a store indexed by location, so that two dictionaries can
    share (or not share) an object the way two Python dictionaries do. *)

From Stdlib Require Import ZArith Ascii.
From stdpp Require Import base list strings.

(** ** Strings *)

(** [s.replace(old, new)] for one-character [old] and [new]. The character
    ['_'] is ASCII, so replacing it bytewise agrees with replacing it in the
    decoded text. *)
Fixpoint str_replace_char (old new : ascii) (s : string) : string :=
  match s with
  | EmptyString => EmptyString
  | String c s' =>
      String (if Ascii.eqb c old then new else c) (str_replace_char old new s')
  end.

(** Python's [x or d] on an optional string: [None] and [""] are falsy. *)
Definition str_or (x : option string) (d : string) : string :=
  match x with
  | Some s => if String.eqb s "" then d else s
  | None => d
  end.

(** ** Tasks and options *)

Record FedorableTask := mkTask {
  task_name : string;
  task_description : string;
  task_enabled : bool;
  task_flag : string
}.

Record FedorableOption := mkOption {
  option_name : string;
  option_description : string;
  option_enabled : bool;
  option_flag : string
}.

(** [FedorableTask.__init__(name, description, enabled, flag=None)] *)
Definition FedorableTask_init (name description : string) (enabled : bool)
    (flag : option string) : FedorableTask :=
  {| task_name := name;
     task_description := description;
     task_enabled := enabled;
     task_flag := str_or flag ("--no-" +:+ str_replace_char "_"%char "-"%char name) |}.

(** [FedorableOption.__init__(name, description, enabled, flag=None)] *)
Definition FedorableOption_init (name description : string) (enabled : bool)
    (flag : option string) : FedorableOption :=
  {| option_name := name;
     option_description := description;
     option_enabled := enabled;
     option_flag := str_or flag ("--" +:+ str_replace_char "_"%char "-"%char name) |}.

(** [obj.enabled = v] *)
Definition task_set_enabled (v : bool) (t : FedorableTask) : FedorableTask :=
  {| task_name := task_name t;
     task_description := task_description t;
     task_enabled := v;
     task_flag := task_flag t |}.

Definition option_set_enabled (v : bool) (o : FedorableOption) : FedorableOption :=
  {| option_name := option_name o;
     option_description := option_description o;
     option_enabled := v;
     option_flag := option_flag o |}.

(** ** The object store *)

(** A location in the store. *)
Abbreviation loc := nat.

(** Every [FedorableTask] and [FedorableOption] object ever constructed, by
    location. Constructing an object appends it; assigning to an attribute
    replaces the object at its location. *)
Record store := mkStore {
  task_objs : list FedorableTask;
  option_objs : list FedorableOption
}.

Definition alloc_task (t : FedorableTask) (st : store) : loc * store :=
  (length (task_objs st),
   {| task_objs := task_objs st ++ [t]; option_objs := option_objs st |}).

Definition alloc_option (o : FedorableOption) (st : store) : loc * store :=
  (length (option_objs st),
   {| task_objs := task_objs st; option_objs := option_objs st ++ [o] |}).

(** A Python dictionary with string keys: the items in insertion order. *)
Definition dict (V : Type) := list (string * V).

(** [d.get(k)]: [None] when [k] is not a key. *)
Fixpoint dict_get {V : Type} (d : dict V) (k : string) : option V :=
  match d with
  | [] => None
  | (k', v) :: d' => if String.eqb k' k then Some v else dict_get d' k
  end.

(** [k in d] *)
Definition dict_mem {V : Type} (d : dict V) (k : string) : bool :=
  match dict_get d k with Some _ => true | None => false end.

(** [list(d)], the keys in insertion order *)
Definition dict_keys {V : Type} (d : dict V) : list string := map fst d.

(** [list(d.values())] *)
Definition dict_values {V : Type} (d : dict V) : list V := map snd d.

(** The objects a dictionary refers to, in the dictionary's order; [None] if
    a location is not in the store. *)
Definition deref {A : Type} (xs : list A) (d : dict loc) : option (list A) :=
  mapM (λ kl, xs !! kl.2) d.

Definition deref_tasks (st : store) (d : dict loc) : option (list FedorableTask) :=
  deref (task_objs st) d.

Definition deref_options (st : store) (d : dict loc) : option (list FedorableOption) :=
  deref (option_objs st) d.

(** ** The core *)

(** The class attributes [FedorableCore.TASKS] and [FedorableCore.OPTIONS]. *)
Record registry := mkRegistry {
  TASKS : dict loc;
  OPTIONS : dict loc
}.

(** An instance of [FedorableCore]. *)
Record FedorableCore := mkCore {
  script_path : string;
  tasks : dict loc;
  options : dict loc
}.

(** [{name: FedorableTask(task.name, task.description, task.enabled)
      for name, task in self.TASKS.items()}] *)
Fixpoint copy_tasks (items : dict loc) (st : store) : option (dict loc * store) :=
  match items with
  | [] => Some ([], st)
  | (name, l) :: rest =>
      task ← task_objs st !! l;
      let '(l', st1) :=
        alloc_task (FedorableTask_init (task_name task) (task_description task)
                      (task_enabled task) None) st in
      '(d, st2) ← copy_tasks rest st1;
      Some ((name, l') :: d, st2)
  end.

(** [{name: FedorableOption(option.name, option.description, option.enabled)
      for name, option in self.OPTIONS.items()}] *)
Fixpoint copy_options (items : dict loc) (st : store) : option (dict loc * store) :=
  match items with
  | [] => Some ([], st)
  | (name, l) :: rest =>
      option ← option_objs st !! l;
      let '(l', st1) :=
        alloc_option (FedorableOption_init (option_name option)
                        (option_description option) (option_enabled option) None) st in
      '(d, st2) ← copy_options rest st1;
      Some ((name, l') :: d, st2)
  end.

(** [FedorableCore.__init__(script_path=None)]; [default_script_path] is the
    module constant [DEFAULT_SCRIPT_PATH], which depends on where the package
    is installed. *)
Definition FedorableCore_init (default_script_path : string) (reg : registry)
    (path : option string) (st : store) : option (FedorableCore * store) :=
  '(ts, st1) ← copy_tasks (TASKS reg) st;
  '(os, st2) ← copy_options (OPTIONS reg) st1;
  Some ({| script_path := str_or path default_script_path;
           tasks := ts;
           options := os |}, st2).

(** The loop [for name, task in self.tasks.items(): if not task.enabled:
    command.append(task.flag)]. *)
Fixpoint append_disabled_tasks (st : store) (items : dict loc) (command : list string)
    : option (list string) :=
  match items with
  | [] => Some command
  | (name, l) :: rest =>
      task ← task_objs st !! l;
      append_disabled_tasks st rest
        (if negb (task_enabled task) then command ++ [task_flag task] else command)
  end.

(** The loop [for name, option in self.options.items(): if option.enabled:
    command.append(option.flag)]. *)
Fixpoint append_enabled_options (st : store) (items : dict loc) (command : list string)
    : option (list string) :=
  match items with
  | [] => Some command
  | (name, l) :: rest =>
      option ← option_objs st !! l;
      append_enabled_options st rest
        (if option_enabled option then command ++ [option_flag option] else command)
  end.

(** [FedorableCore.build_command(use_pkexec)] *)
Definition build_command (st : store) (self : FedorableCore) (use_pkexec : bool)
    : option (list string) :=
  let command :=
    if use_pkexec then ["pkexec"; script_path self] else [script_path self] in
  command ← append_disabled_tasks st (tasks self) command;
  append_enabled_options st (options self) command.

(** ** The shipped registries *)

Definition shipped_tasks : list (string * FedorableTask) :=
  [ ("update", FedorableTask_init "update" "Update System Packages" true None);
    ("autoremove", FedorableTask_init "autoremove" "Autoremove Unused Packages" true None);
    ("clean_dnf", FedorableTask_init "clean_dnf" "Clean DNF Cache" true None);
    ("clean_kernels", FedorableTask_init "clean_kernels" "Remove Old Kernels" true None);
    ("clean_journal", FedorableTask_init "clean_journal" "Clean System Journal" true None);
    ("clean_temp", FedorableTask_init "clean_temp" "Clean Temporary Files" true None);
    ("update_grub", FedorableTask_init "update_grub" "Update GRUB/Bootloader" true None);
    ("clean_flatpak", FedorableTask_init "clean_flatpak" "Clean/Update Flatpak" true None);
    ("optimize_rpmdb", FedorableTask_init "optimize_rpmdb" "Optimize RPM Database" true None);
    ("reset_failed_units", FedorableTask_init "reset_failed_units" "Reset Failed Systemd Units" true None);
    ("trim", FedorableTask_init "trim" "Run SSD TRIM" true None) ].

Definition shipped_options : list (string * FedorableOption) :=
  [ ("yes", FedorableOption_init "yes" "Assume 'Yes' to prompts" false None);
    ("dry_run", FedorableOption_init "dry_run" "Dry Run (No changes made)" false None);
    ("check_only", FedorableOption_init "check_only" "Check for Updates Only" false None);
    ("quiet", FedorableOption_init "quiet" "Quiet Mode (Less output)" false None) ].

(** Evaluating a dictionary display [{k: obj, ...}]: each object is
    constructed, then the key is bound to it. *)
Fixpoint dict_of_tasks (items : list (string * FedorableTask)) (st : store)
    : dict loc * store :=
  match items with
  | [] => ([], st)
  | (k, t) :: rest =>
      let '(l, st1) := alloc_task t st in
      let '(d, st2) := dict_of_tasks rest st1 in
      ((k, l) :: d, st2)
  end.

Fixpoint dict_of_options (items : list (string * FedorableOption)) (st : store)
    : dict loc * store :=
  match items with
  | [] => ([], st)
  | (k, o) :: rest =>
      let '(l, st1) := alloc_option o st in
      let '(d, st2) := dict_of_options rest st1 in
      ((k, l) :: d, st2)
  end.

Definition empty_store : store := {| task_objs := []; option_objs := [] |}.

(** The state after the class body of [FedorableCore] has run. *)
Definition class_state : registry * store :=
  let '(ts, st1) := dict_of_tasks shipped_tasks empty_store in
  let '(os, st2) := dict_of_options shipped_options st1 in
  ({| TASKS := ts; OPTIONS := os |}, st2).

Definition shipped_registry : registry := class_state.1.
Definition class_store : store := class_state.2.

(** ** Mutating a configuration *)

Inductive exn :=
  | KeyError (key : string)
  | FileNotFoundError (msg : string)
  | OSError.

Inductive outcome (A : Type) :=
  | Normal (a : A)
  | Raised (e : exn).
Arguments Normal {A} a.
Arguments Raised {A} e.

(** Statements that may assign to objects and may raise: the store is
    threaded through, and an exception leaves the store as it was when the
    exception was raised. *)
Definition M (A : Type) : Type := store → outcome A * store.

Definition ret {A : Type} (a : A) : M A := λ st, (Normal a, st).

Definition raise {A : Type} (e : exn) : M A := λ st, (Raised e, st).

Definition bind {A B : Type} (c : M A) (k : A → M B) : M B :=
  λ st, match c st with
        | (Normal a, st') => k a st'
        | (Raised e, st') => (Raised e, st')
        end.

Declare Scope py_scope.
Delimit Scope py_scope with py.
Notation "c1 ;; c2" := (bind c1 (λ _, c2))
  (at level 100, c2 at level 200, right associativity) : py_scope.

(** [for x in xs: body(x)] *)
Fixpoint for_each {A : Type} (xs : list A) (body : A → M unit) : M unit :=
  match xs with
  | [] => ret ()
  | x :: xs' => (body x ;; for_each xs' body)%py
  end.

(** [self.tasks[name].enabled = v]: the subscript raises [KeyError] when
    [name] is not a key; otherwise the object the key refers to is updated. *)
Definition set_task_enabled (self : FedorableCore) (name : string) (v : bool)
    : M unit :=
  λ st, match dict_get (tasks self) name with
        | None => (Raised (KeyError name), st)
        | Some l =>
            (Normal (),
             {| task_objs := alter (task_set_enabled v) l (task_objs st);
                option_objs := option_objs st |})
        end.

(** [self.options[name].enabled = v] *)
Definition set_option_enabled (self : FedorableCore) (name : string) (v : bool)
    : M unit :=
  λ st, match dict_get (options self) name with
        | None => (Raised (KeyError name), st)
        | Some l =>
            (Normal (),
             {| task_objs := task_objs st;
                option_objs := alter (option_set_enabled v) l (option_objs st) |})
        end.

(** *** The command-line front end ([fedorable/cli.py]) *)

Module Cli.

(** The [argparse.Namespace] that [parse_arguments] returns. The attributes
    [task_<name>] and [option_<name>] are stored by destination name; a task
    attribute is [None] unless one of its two switches was given. *)
Record Namespace := mkNamespace {
  ns_script_path : string;
  ns_no_pkexec : bool;
  ns_all : bool;
  ns_none : bool;
  ns_attrs : dict (option bool)
}.

(** [setup_fedorable_core(args)], after the core object has been created *)
Definition configure (args : Namespace) (fedorable : FedorableCore) : M unit :=
  ((if ns_all args then
      for_each (dict_keys (tasks fedorable))
        (λ name, set_task_enabled fedorable name true)
    else if ns_none args then
      for_each (dict_keys (tasks fedorable))
        (λ name, set_task_enabled fedorable name false)
    else ret ()) ;;
   for_each (dict_keys (tasks fedorable))
     (λ name,
        match dict_get (ns_attrs args) ("task_" +:+ name) with
        | Some (Some v) => set_task_enabled fedorable name v
        | _ => ret ()
        end) ;;
   for_each (dict_keys (options fedorable))
     (λ name,
        match dict_get (ns_attrs args) ("option_" +:+ name) with
        | Some (Some true) => set_option_enabled fedorable name true
        | _ => ret ()
        end))%py.

(** [setup_fedorable_core(args)] *)
Definition setup_fedorable_core (default_script_path : string) (reg : registry)
    (args : Namespace) (st : store) : option (outcome FedorableCore * store) :=
  '(fedorable, st1) ← FedorableCore_init default_script_path reg
                        (Some (ns_script_path args)) st;
  Some (bind (configure args fedorable) (λ _, ret fedorable) st1).

End Cli.

(** *** The GTK front end ([main.py]) *)

Module Gui.

(** The fields of [FedorableMainWindow] that the run path reads: whether a
    process is active ([self.process]), the core, and for every check box and
    switch what [get_active()] returns. *)
Record MainWindow := mkMainWindow {
  process : bool;
  fedorable : FedorableCore;
  task_checkboxes : dict bool;
  option_switches : dict bool
}.

(** The two update loops of [FedorableMainWindow.build_command] *)
Definition update_core (w : MainWindow) : M unit :=
  (for_each (task_checkboxes w)
     (λ item, if dict_mem (tasks (fedorable w)) item.1
              then set_task_enabled (fedorable w) item.1 item.2
              else ret ()) ;;
   for_each (option_switches w)
     (λ item, if dict_mem (options (fedorable w)) item.1
              then set_option_enabled (fedorable w) item.1 item.2
              else ret ()))%py.

(** [FedorableMainWindow.build_command()] *)
Definition build_command (w : MainWindow) : M (option (list string)) :=
  bind (update_core w)
       (λ _ st, (Normal (build_command st (fedorable w) true), st)).

End Gui.

(** ** The process runner *)

(** What a launched script does, as far as the runner can see: the bytes it
    writes to each stream before it ends, and the status reported for it once
    it has ended. To [run] that status is [Popen.returncode]: the exit status
    of a script that exited, and [-N] for a script that signal [N] killed. A
    script that never ends is not described by a [Child]. *)
Record Child := mkChild {
  child_stdout : string;
  child_stderr : string;
  child_returncode : Z
}.

(** The operating system under the runner: [os.path.exists], [os.access(_,
    os.X_OK)], and what launching a command gives ([None]: the launch fails
    with an [OSError]). *)
Record OS := mkOS {
  path_exists : string → bool;
  access_X_OK : string → bool;
  spawn : list string → option Child
}.

(** [FedorableCore.is_script_executable()] *)
Definition is_script_executable (os : OS) (self : FedorableCore) : bool :=
  path_exists os (script_path self) && access_X_OK os (script_path self).

Definition LF : ascii := "010"%char.
Definition CR : ascii := "013"%char.
Definition NUL : ascii := "000"%char.

(** *** Reading a pipe as text

    The pipes are opened with [text=True]: the bytes are decoded, strictly,
    in the encoding of the locale, taken here to be UTF-8, and read with
    universal newlines. *)

Definition byte_in (lo hi : N) (c : ascii) : bool :=
  ((lo <=? N_of_ascii c) && (N_of_ascii c <=? hi))%N.

(** A continuation byte. *)
Definition continuation (c : ascii) : bool := byte_in 128 191 c.

(** The second byte of a sequence of three that starts with [c0]: no overlong
    form, no surrogate. *)
Definition second_of_three (c0 c1 : ascii) : bool :=
  if byte_in 224 224 c0 then byte_in 160 191 c1
  else if byte_in 237 237 c0 then byte_in 128 159 c1
  else continuation c1.

(** The second byte of a sequence of four that starts with [c0]: no overlong
    form, nothing above U+10FFFF. *)
Definition second_of_four (c0 c1 : ascii) : bool :=
  if byte_in 240 240 c0 then byte_in 144 191 c1
  else if byte_in 244 244 c0 then byte_in 128 143 c1
  else continuation c1.

(** The longest prefix of [s] made of whole UTF-8 sequences: what a strict
    decoder can decode before it raises [UnicodeDecodeError], or all of [s]. *)
Fixpoint decodable_prefix (s : string) : string :=
  match s with
  | EmptyString => EmptyString
  | String c0 s0 =>
      if byte_in 0 127 c0 then String c0 (decodable_prefix s0)
      else
        match s0 with
        | EmptyString => EmptyString
        | String c1 s1 =>
            if byte_in 194 223 c0 then
              if continuation c1
              then String c0 (String c1 (decodable_prefix s1))
              else EmptyString
            else
              match s1 with
              | EmptyString => EmptyString
              | String c2 s2 =>
                  if byte_in 224 239 c0 then
                    if second_of_three c0 c1 && continuation c2
                    then String c0 (String c1 (String c2 (decodable_prefix s2)))
                    else EmptyString
                  else
                    match s2 with
                    | EmptyString => EmptyString
                    | String c3 s3 =>
                        if byte_in 240 244 c0 && second_of_four c0 c1
                           && continuation c2 && continuation c3
                        then String c0 (String c1 (String c2 (String c3
                               (decodable_prefix s3))))
                        else EmptyString
                    end
              end
        end
  end.

(** Whether the bytes [s] are valid UTF-8. *)
Definition utf8_valid (s : string) : bool := String.eqb (decodable_prefix s) s.

(** Universal newlines: ["\r\n"] and a lone ["\r"] are read as ["\n"]. *)
Fixpoint universal_newlines (s : string) : string :=
  match s with
  | EmptyString => EmptyString
  | String c s' =>
      if Ascii.eqb c CR then
        match s' with
        | EmptyString => String LF EmptyString
        | String c' s'' =>
            if Ascii.eqb c' LF then String LF (universal_newlines s'')
            else String LF (universal_newlines s')
        end
      else String c (universal_newlines s')
  end.

(** Iterating over a text file gives its lines, each with its ["\n"]; the last
    line has none when the text does not end in one. *)
Fixpoint split_lines (s : string) : list string :=
  match s with
  | EmptyString => []
  | String c s' =>
      if Ascii.eqb c LF then String c EmptyString :: split_lines s'
      else match split_lines s' with
           | [] => [String c EmptyString]
           | line :: rest => String c line :: rest
           end
  end.

(** The lines that [for line in pipe] can yield for a stream of these bytes:
    all the lines of a stream that is valid UTF-8; for another stream, the
    lines before the first byte that does not decode, of which the loop
    yields some before it raises [UnicodeDecodeError]. *)
Definition pipe_lines (raw : string) : list string :=
  split_lines (universal_newlines (decodable_prefix raw)).

(** A callback as [run] sees it: whether the call [callback(line, is_stderr)]
    returns ([true]) or raises ([false]). *)
Definition callback_fn : Type := string → bool → bool.

(** *** [_run_with_callback]: the main thread, two readers and the child *)

(** A reader thread: not started, in its loop, at the end of
    [_read_output], or ended by an exception that nothing catches. *)
Inductive thread_state := NotStarted | Reading | Finished | Died.

(** Whether [join] on the thread returns. *)
Definition ended (t : thread_state) : bool :=
  match t with Finished | Died => true | NotStarted | Reading => false end.

(** Where the main thread is in [_run_with_callback]: about to start the
    reader of stdout, of stderr, in [process.wait()], in the [join] of the
    first and of the second thread (with [return_code]), or returned. *)
Inductive main_pc :=
  | StartStdout
  | StartStderr
  | Wait
  | JoinStdout (return_code : Z)
  | JoinStderr (return_code : Z)
  | Returned (return_code : Z).

Record run_state := mkRun {
  exited : bool;
  stdout_pipe : list string;
  stderr_pipe : list string;
  stdout_thread : thread_state;
  stderr_thread : thread_state;
  pc : main_pc;
  calls : list (string * bool)
}.

(** Just after [subprocess.Popen] returned. The pipes hold the lines that the
    readers have not consumed yet; the child may write them at any time before
    it ends, so a reader is allowed to find any of them. The model so has
    every run of the program and more (a child that writes late, or more
    than a pipe holds, has fewer): what holds of all its runs holds of all
    runs of the program. *)
Definition init_run (ch : Child) : run_state :=
  {| exited := false;
     stdout_pipe := pipe_lines (child_stdout ch);
     stderr_pipe := pipe_lines (child_stderr ch);
     stdout_thread := NotStarted;
     stderr_thread := NotStarted;
     pc := StartStdout;
     calls := [] |}.

(** One turn of [_read_output(pipe, is_stderr, callback)]. With a line in the
    pipe, [callback(line, is_stderr)] is called, and when the call raises
    the thread ends there. With no line left: bytes that do not decode come
    next when the stream is not [decodable], and the thread ends with
    [UnicodeDecodeError]; otherwise, at end of file (the child has closed the
    pipe by ending) the loop ends, and before that the reader is blocked. *)
Definition _read_output (callback : callback_fn) (is_stderr : bool)
    (pipe : list string) (decodable closed : bool)
    (calls : list (string * bool))
    : option (thread_state * list string * list (string * bool)) :=
  match pipe with
  | line :: rest =>
      Some (if callback line is_stderr then Reading else Died, rest,
            calls ++ [(line, is_stderr)])
  | [] =>
      if negb decodable then Some (Died, [], calls)
      else if closed then Some (Finished, [], calls)
      else None
  end.

(** Who moves: the main thread, a reader taking its next turn, the child
    ending, or a reader that reads on into bytes that do not decode while
    lines before them are still waiting (the lines of one read are decoded
    together, so those lines are lost). *)
Inductive agent :=
  | MainThread
  | StdoutReader
  | StderrReader
  | ChildProcess
  | StdoutDecodeError
  | StderrDecodeError.

(** One step of one agent; [None] when that agent cannot move. *)
Definition step (callback : callback_fn) (ch : Child) (a : agent)
    (s : run_state) : option run_state :=
  match a with
  | ChildProcess =>
      if exited s then None
      else Some (mkRun true (stdout_pipe s) (stderr_pipe s) (stdout_thread s)
                   (stderr_thread s) (pc s) (calls s))
  | StdoutReader =>
      match stdout_thread s with
      | Reading =>
          '(t, pipe, calls') ← _read_output callback false (stdout_pipe s)
                                 (utf8_valid (child_stdout ch)) (exited s)
                                 (calls s);
          Some (mkRun (exited s) pipe (stderr_pipe s) t (stderr_thread s) (pc s) calls')
      | _ => None
      end
  | StderrReader =>
      match stderr_thread s with
      | Reading =>
          '(t, pipe, calls') ← _read_output callback true (stderr_pipe s)
                                 (utf8_valid (child_stderr ch)) (exited s)
                                 (calls s);
          Some (mkRun (exited s) (stdout_pipe s) pipe (stdout_thread s) t (pc s) calls')
      | _ => None
      end
  | StdoutDecodeError =>
      match stdout_thread s with
      | Reading =>
          if utf8_valid (child_stdout ch) then None
          else Some (mkRun (exited s) (stdout_pipe s) (stderr_pipe s) Died
                       (stderr_thread s) (pc s) (calls s))
      | _ => None
      end
  | StderrDecodeError =>
      match stderr_thread s with
      | Reading =>
          if utf8_valid (child_stderr ch) then None
          else Some (mkRun (exited s) (stdout_pipe s) (stderr_pipe s)
                       (stdout_thread s) Died (pc s) (calls s))
      | _ => None
      end
  | MainThread =>
      match pc s with
      | StartStdout =>
          Some (mkRun (exited s) (stdout_pipe s) (stderr_pipe s) Reading
                  (stderr_thread s) StartStderr (calls s))
      | StartStderr =>
          Some (mkRun (exited s) (stdout_pipe s) (stderr_pipe s) (stdout_thread s)
                  Reading Wait (calls s))
      | Wait =>
          if exited s then
            Some (mkRun (exited s) (stdout_pipe s) (stderr_pipe s) (stdout_thread s)
                    (stderr_thread s) (JoinStdout (child_returncode ch)) (calls s))
          else None
      | JoinStdout rc =>
          if ended (stdout_thread s) then
            Some (mkRun (exited s) (stdout_pipe s) (stderr_pipe s) (stdout_thread s)
                    (stderr_thread s) (JoinStderr rc) (calls s))
          else None
      | JoinStderr rc =>
          if ended (stderr_thread s) then
            Some (mkRun (exited s) (stdout_pipe s) (stderr_pipe s) (stdout_thread s)
                    (stderr_thread s) (Returned rc) (calls s))
          else None
      | Returned _ => None
      end
  end.

(** Running a schedule: the agents move in the given order; [None] when the
    schedule asks a blocked agent to move. *)
Fixpoint exec (callback : callback_fn) (ch : Child) (sched : list agent)
    (s : run_state) : option run_state :=
  match sched with
  | [] => Some s
  | a :: sched' => s' ← step callback ch a s; exec callback ch sched' s'
  end.

(** The texts the callback received for one stream, in order. *)
Definition stream_calls (is_stderr : bool) (calls : list (string * bool))
    : list string :=
  map fst (List.filter (λ c, Bool.eqb c.2 is_stderr) calls).

(** *** [run] *)

(** How [run] goes on after its checks: [subprocess.call(command)] or
    [self._run_with_callback(command, callback)]. *)
Inductive launch :=
  | SubprocessCall (command : list string)
  | RunWithCallback (command : list string) (callback : callback_fn).

(** [FedorableCore.run(use_pkexec, callback)] up to the launch; [callback]
    is [None] when no callback was given. *)
Definition run (os : OS) (st : store) (self : FedorableCore)
    (use_pkexec : bool) (callback : option callback_fn)
    : option (outcome launch) :=
  if negb (is_script_executable os self) then
    Some (Raised (FileNotFoundError
                    ("Script not found or not executable: " +:+ script_path self)))
  else
    command ← build_command st self use_pkexec;
    Some (Normal (match callback with
                  | Some callback => RunWithCallback command callback
                  | None => SubprocessCall command
                  end)).

(** What the caller of [run] can observe besides the result. *)
Inductive event :=
  | Spawn (command : list string)
  | Callback (line : string) (is_stderr : bool).

(** The executions of what [run] decided: the events and the value returned
    or the exception raised. *)
Inductive runs (os : OS) : outcome launch → list event → outcome Z → Prop :=
  | runs_raised e :
      runs os (Raised e) [] (Raised e)
  | runs_call_failed command :
      spawn os command = None →
      runs os (Normal (SubprocessCall command)) [] (Raised OSError)
  | runs_call command ch :
      spawn os command = Some ch →
      runs os (Normal (SubprocessCall command)) [Spawn command]
        (Normal (child_returncode ch))
  | runs_popen_failed command callback :
      spawn os command = None →
      runs os (Normal (RunWithCallback command callback)) [] (Raised OSError)
  | runs_with_callback command callback ch sched s rc :
      spawn os command = Some ch →
      exec callback ch sched (init_run ch) = Some s →
      pc s = Returned rc →
      runs os (Normal (RunWithCallback command callback))
        (Spawn command :: map (λ c, Callback c.1 c.2) (calls s)) (Normal rc).

(** [core.run(use_pkexec, callback)] in store [st]: the events, the result,
    and the store afterwards ([run] assigns to nothing). *)
Definition run_exec (os : OS) (st : store) (self : FedorableCore)
    (use_pkexec : bool) (callback : option callback_fn) (tr : list event)
    (res : outcome Z) (st' : store) : Prop :=
  ∃ l, run os st self use_pkexec callback = Some l ∧ runs os l tr res ∧ st' = st.

(** *** The GTK front end's own launch *)

Module GuiRun.

(** [Gio.Subprocess.get_if_exited()], for the child that [Popen] would report
    as [ch]. *)
Definition get_if_exited (ch : Child) : bool := (0 <=? child_returncode ch)%Z.

(** [Gio.Subprocess.get_exit_status()]: the exit status of a child that
    exited. GLib defines it for no other child; [undefined] stands for what
    it returns then. *)
Definition get_exit_status (undefined : Z) (ch : Child) : Z :=
  if get_if_exited ch then child_returncode ch else undefined.

(** [communicate_utf8_finish] hands over each stream as a C string: the text
    ends before the first zero byte. *)
Fixpoint c_string (s : string) : string :=
  match s with
  | EmptyString => EmptyString
  | String c s' => if Ascii.eqb c NUL then EmptyString else String c (c_string s')
  end.

(** [_on_process_communication_finished]. When both texts are valid UTF-8,
    [communicate_utf8_finish] returns them: each, if not empty, goes whole to
    [append_output] with the tag of its stream, and
    [_finalize_run(exit_status == 0, exit_status)] is called. Otherwise it
    raises a [GLib.Error], with [message]: one text with the message goes to
    [append_output] with the stderr tag, and
    [_finalize_run(False, exit_status)] is called, where [exit_status] is
    [-1] for a child that did not exit. The result is the texts appended
    (with [true] for the stderr tag) and the two arguments of
    [_finalize_run]. *)
Definition _on_process_communication_finished (undefined : Z)
    (message : string) (ch : Child) : list (string * bool) * (bool * Z) :=
  let stdout_data := c_string (child_stdout ch) in
  let stderr_data := c_string (child_stderr ch) in
  if utf8_valid stdout_data && utf8_valid stderr_data then
    let exit_status := get_exit_status undefined ch in
    ((if String.eqb stdout_data "" then [] else [(stdout_data, false)]) ++
     (if String.eqb stderr_data "" then [] else [(stderr_data, true)]),
     (Z.eqb exit_status 0, exit_status))
  else
    let exit_status :=
      if get_if_exited ch then get_exit_status undefined ch else (-1)%Z in
    ([(String LF ("[GUI Communication Error: " +:+ message +:+ "]"
                  +:+ String LF EmptyString), true)],
     (false, exit_status)).

(** How a click on the run button ends. *)
Inductive clicked :=
  | AlreadyRunning
  | ScriptUnavailable
  | LaunchFailed (command : list string)
  | Completed (command : list string) (appended : list (string * bool))
      (success : bool) (exit_status : Z).

(** [on_run_clicked] followed, when the process starts, by the completion
    callback. *)
Definition on_run_clicked (undefined : Z) (message : string) (os : OS)
    (w : Gui.MainWindow) : store → option (clicked * store) :=
  λ st,
    if Gui.process w then Some (AlreadyRunning, st)
    else if negb (is_script_executable os (Gui.fedorable w)) then
      Some (ScriptUnavailable, st)
    else
      match Gui.build_command w st with
      | (Normal (Some command), st') =>
          match spawn os command with
          | None => Some (LaunchFailed command, st')
          | Some ch =>
              let '(appended, (success, exit_status)) :=
                _on_process_communication_finished undefined message ch in
              Some (Completed command appended success exit_status, st')
          end
      | _ => None
      end.

End GuiRun.

(** ** Sequences of assignments *)

(** The statements of the source that assign to a task or an option object,
    all of them through a core object: the two subscripted assignments, the
    configuration step of the command line and the update loops of the
    window. *)
Inductive mutation :=
  | SetTaskEnabled (name : string) (v : bool)
  | SetOptionEnabled (name : string) (v : bool)
  | CliConfigure (args : Cli.Namespace)
  | GuiUpdateCore (task_checkboxes option_switches : dict bool).

Definition mutate (self : FedorableCore) (m : mutation) : M unit :=
  match m with
  | SetTaskEnabled name v => set_task_enabled self name v
  | SetOptionEnabled name v => set_option_enabled self name v
  | CliConfigure args => Cli.configure args self
  | GuiUpdateCore cbs sws =>
      Gui.update_core (Gui.mkMainWindow false self cbs sws)
  end.

(** The store after a sequence of them, each through some core object; a
    caller that catches a [KeyError] goes on with the store as the exception
    left it. *)
Fixpoint mutate_all (ms : list (FedorableCore * mutation)) (st : store) : store :=
  match ms with
  | [] => st
  | (self, m) :: ms' => mutate_all ms' (mutate self m st).2
  end.

(** A sequence of them through one core object. *)
Definition through (self : FedorableCore) (ms : list mutation)
    : list (FedorableCore * mutation) :=
  map (pair self) ms.

(** ** Examples used below *)

Definition example_path : string := "/opt/fedorable/fedorable.sh".

(** A core made from the shipped registries, with [update] switched off and
    [dry_run] switched on. *)
Definition example_core : option (FedorableCore * store) :=
  '(c, st) ← FedorableCore_init example_path shipped_registry None class_store;
  Some (c, mutate_all (through c [SetTaskEnabled "update" false;
                                  SetOptionEnabled "dry_run" true]) st).

Definition no_core : FedorableCore * store :=
  ({| script_path := ""; tasks := []; options := [] |}, empty_store).

Definition example_c : FedorableCore := (default no_core example_core).1.
Definition example_st : store := (default no_core example_core).2.

(** A core made from the shipped registries whose script is a file named
    [--no-update]; nothing is switched. *)
Definition odd_core : option (FedorableCore * store) :=
  FedorableCore_init example_path shipped_registry (Some "--no-update") class_store.

Definition odd_c : FedorableCore := (default no_core odd_core).1.
Definition odd_st : store := (default no_core odd_core).2.

(** ** Counting tokens *)

(** How often a token occurs in a command. *)
Definition count (tok : string) (command : list string) : nat :=
  count_occ String.string_dec command tok.

(** The flags of a configuration are pairwise distinct, and neither the
    wrapper token nor the script path is one of them. *)
Definition flags_distinct (self : FedorableCore) (ts : list FedorableTask)
    (os : list FedorableOption) : Prop :=
  NoDup (map task_flag ts ++ map option_flag os) ∧
  ¬ In "pkexec" (map task_flag ts ++ map option_flag os) ∧
  ¬ In (script_path self) (map task_flag ts ++ map option_flag os).

(** ** What an assignment to [enabled] leaves alone *)

(** The same object up to its [enabled] attribute. *)
Definition task_same (t t' : FedorableTask) : Prop :=
  task_name t' = task_name t ∧
  task_description t' = task_description t ∧
  task_flag t' = task_flag t.

Definition option_same (o o' : FedorableOption) : Prop :=
  option_name o' = option_name o ∧
  option_description o' = option_description o ∧
  option_flag o' = option_flag o.

(** [xs'] has the objects of [xs] at the same locations, each the same up to
    [same], and unchanged outside the locations [locs]. *)
Definition updated {A : Type} (same : A → A → Prop) (locs : list loc)
    (xs xs' : list A) : Prop :=
  length xs' = length xs ∧
  ∀ l x, xs !! l = Some x →
    ∃ x', xs' !! l = Some x' ∧ same x x' ∧ (¬ In l locs → x' = x).

(** From store [st] to store [st'], nothing was constructed and only the
    [enabled] attribute of objects of the core [self] may have changed. *)
Definition frame (self : FedorableCore) (st st' : store) : Prop :=
  updated task_same (dict_values (tasks self)) (task_objs st) (task_objs st') ∧
  updated option_same (dict_values (options self)) (option_objs st) (option_objs st').

(** A statement keeps within the frame of [self]. *)
Definition framed {A : Type} (self : FedorableCore) (c : M A) : Prop :=
  ∀ st, frame self st (c st).2.

(** The text [h] is [name] with every underscore replaced by a hyphen: the
    same length, and position by position the same character except that
    ['_'] became ['-']. *)
Definition underscores_as_hyphens (name h : string) : Prop :=
  String.length h = String.length name ∧
  ∀ i, String.get i h =
       (λ c, if Ascii.eqb c "_"%char then "-"%char else c) <$> String.get i name.

(** The copy that [FedorableCore.__init__] makes of a registry entry. *)
Definition task_copy (task : FedorableTask) : FedorableTask :=
  FedorableTask_init (task_name task) (task_description task) (task_enabled task) None.

Definition option_copy (option : FedorableOption) : FedorableOption :=
  FedorableOption_init (option_name option) (option_description option)
    (option_enabled option) None.

(** A registry whose only task entry was constructed with an explicit flag,
    and whose only option entry with an empty one. *)
Definition custom_class_state : registry * store :=
  let '(ts, st1) :=
    dict_of_tasks
      [("update", FedorableTask_init "update" "Update" true (Some "--skip-update"))]
      empty_store in
  let '(os, st2) :=
    dict_of_options [("dry_run", FedorableOption_init "dry_run" "Dry run" false (Some ""))]
      st1 in
  ({| TASKS := ts; OPTIONS := os |}, st2).

(** A statement that always ends normally. *)
Definition never_raises {A : Type} (c : M A) : Prop :=
  ∀ st, ∃ a st', c st = (Normal a, st').

(** A window on the example core whose only check box has a key that is not
    a task. *)
Definition odd_window : Gui.MainWindow :=
  Gui.mkMainWindow false example_c [("bogus", false)] [].

(** ** The runner's invariant and measure *)

(** What holds in every state of [_run_with_callback]: a line of a pipe is
    either still in it or was passed to the callback with the tag of its
    stream, in order; a reader that reached the end of its loop saw the end
    of its pipe; a reader ended by an exception only on a stream that does
    not decode or after a call of the callback that raised; and the main
    thread is past [wait] only once the child has ended, past a [join] only
    once that reader has ended. *)
Definition run_inv (callback : callback_fn) (ch : Child) (s : run_state)
    : Prop :=
  stream_calls false (calls s) ++ stdout_pipe s = pipe_lines (child_stdout ch) ∧
  stream_calls true (calls s) ++ stderr_pipe s = pipe_lines (child_stderr ch) ∧
  (stdout_thread s = Finished → stdout_pipe s = [] ∧ exited s = true) ∧
  (stderr_thread s = Finished → stderr_pipe s = [] ∧ exited s = true) ∧
  (stdout_thread s = Died →
     utf8_valid (child_stdout ch) = false ∨
     Exists (λ c, callback c.1 c.2 = false) (calls s)) ∧
  (stderr_thread s = Died →
     utf8_valid (child_stderr ch) = false ∨
     Exists (λ c, callback c.1 c.2 = false) (calls s)) ∧
  match pc s with
  | StartStdout => stdout_thread s = NotStarted ∧ stderr_thread s = NotStarted
  | StartStderr => stdout_thread s ≠ NotStarted ∧ stderr_thread s = NotStarted
  | Wait => stdout_thread s ≠ NotStarted ∧ stderr_thread s ≠ NotStarted
  | JoinStdout rc =>
      stdout_thread s ≠ NotStarted ∧ stderr_thread s ≠ NotStarted ∧
      exited s = true ∧ rc = child_returncode ch
  | JoinStderr rc =>
      ended (stdout_thread s) = true ∧ stderr_thread s ≠ NotStarted ∧
      exited s = true ∧ rc = child_returncode ch
  | Returned rc =>
      ended (stdout_thread s) = true ∧ ended (stderr_thread s) = true ∧
      exited s = true ∧ rc = child_returncode ch
  end.

Definition thread_rank (t : thread_state) : nat :=
  if ended t then 0 else 1.

Definition pc_rank (p : main_pc) : nat :=
  match p with
  | StartStdout => 5
  | StartStderr => 4
  | Wait => 3
  | JoinStdout _ => 2
  | JoinStderr _ => 1
  | Returned _ => 0
  end.

(** A bound on the number of steps left until [_run_with_callback] has
    returned. *)
Definition run_measure (s : run_state) : nat :=
  (if exited s then 0 else 1) + length (stdout_pipe s) + length (stderr_pipe s)
  + thread_rank (stdout_thread s) + thread_rank (stderr_thread s) + pc_rank (pc s).

(** ** Texts *)

(** The chunks of a stream put together. *)
Definition joined (chunks : list string) : string :=
  foldr String.append EmptyString chunks.

Fixpoint has_CR (s : string) : bool :=
  match s with
  | EmptyString => false
  | String c s' => Ascii.eqb c CR || has_CR s'
  end.

Fixpoint has_NUL (s : string) : bool :=
  match s with
  | EmptyString => false
  | String c s' => Ascii.eqb c NUL || has_NUL s'
  end.

(** Bytes that both front ends read as the same text: valid UTF-8, with no
    carriage return and no zero byte. *)
Definition plain_text (s : string) : bool :=
  utf8_valid s && negb (has_CR s) && negb (has_NUL s).

(** The two front ends launched on the same configuration, in an operating
    system that gives both the same child: the window's click runs to the
    completion callback, and whenever [run], called with escalation and
    [callback] on the core the window has just configured, ends, it has
    returned the exit status the window reports, and what the callback
    received for each stream, put together, is the text the window appended
    for that stream. *)
Definition front_ends_agree (undefined : Z) (message : string) (os : OS)
    (callback : callback_fn) (w : Gui.MainWindow) (st : store) : Prop :=
  ∃ command appended success exit_status st1,
    GuiRun.on_run_clicked undefined message os w st =
      Some (GuiRun.Completed command appended success exit_status, st1) ∧
    ∀ tr res st',
      run_exec os st1 (Gui.fedorable w) true (Some callback) tr res st' →
      res = Normal exit_status ∧
      ∃ calls,
        tr = Spawn command :: map (λ c, Callback c.1 c.2) calls ∧
        joined (stream_calls false calls) = joined (stream_calls false appended) ∧
        joined (stream_calls true calls) = joined (stream_calls true appended).

(** A callback that always returns, and one that always raises. *)
Definition returning : callback_fn := λ _ _, true.
Definition raising : callback_fn := λ _ _, false.

(** A script that writes two lines to stdout, nothing to stderr, and exits
    with status 7. *)
Definition example_child : Child :=
  {| child_stdout := "A" +:+ String LF ("B" +:+ String LF EmptyString);
     child_stderr := EmptyString;
     child_returncode := 7 |}.

(** A script that writes the byte 255 and a line feed to stdout, and exits
    with status 0. *)
Definition undecodable_child : Child :=
  {| child_stdout := String "255"%char (String LF EmptyString);
     child_stderr := EmptyString;
     child_returncode := 0 |}.

(** A script that writes a line ended by a carriage return and a line feed. *)
Definition cr_child : Child :=
  {| child_stdout := "a" +:+ String CR (String LF EmptyString);
     child_stderr := EmptyString;
     child_returncode := 0 |}.

(** A script that writes a line with a zero byte in it. *)
Definition nul_child : Child :=
  {| child_stdout := "a" +:+ String NUL ("b" +:+ String LF EmptyString);
     child_stderr := EmptyString;
     child_returncode := 0 |}.

(** A script that writes nothing and is killed by signal 9. *)
Definition killed_child : Child :=
  {| child_stdout := EmptyString;
     child_stderr := EmptyString;
     child_returncode := -9 |}.

(** An operating system in which every path exists and is executable and
    every launch gives [ch]. *)
Definition launching (ch : Child) : OS :=
  {| path_exists := λ _, true;
     access_X_OK := λ _, true;
     spawn := λ _, Some ch |}.

Definition example_os : OS := launching example_child.

(** An operating system in which no path is executable. *)
Definition bare_os : OS :=
  {| path_exists := λ _, true;
     access_X_OK := λ _, false;
     spawn := λ _, Some example_child |}.

(** A schedule in which the child ends before anything else happens. *)
Definition example_schedule : list agent :=
  [ChildProcess; MainThread; MainThread; MainThread;
   StdoutReader; StderrReader; StdoutReader; StdoutReader; MainThread; MainThread].

(** The schedule in which the child ends first, the main thread goes on to
    the first [join], the reader of stdout takes [n + 1] turns and the reader
    of stderr one, and the main thread returns. *)
Definition draining (n : nat) : list agent :=
  [ChildProcess; MainThread; MainThread; MainThread]
  ++ repeat StdoutReader (S n) ++ [StderrReader; MainThread; MainThread].

(** A window on the example core with no check boxes or switches. *)
Definition example_window : Gui.MainWindow :=
  Gui.mkMainWindow false example_c [] [].

(** ** What [__init__] gives, in closed form *)

(** The core: the keys of the registry, each bound to the next free location
    of the store. *)
Definition init_core (default_script_path : string) (reg : registry)
    (path : option string) (st : store) : FedorableCore :=
  {| script_path := str_or path default_script_path;
     tasks := zip (dict_keys (TASKS reg))
                (seq (length (task_objs st)) (length (TASKS reg)));
     options := zip (dict_keys (OPTIONS reg))
                  (seq (length (option_objs st)) (length (OPTIONS reg))) |}.

(** The store: the copies of the registry's entries at its end. *)
Definition init_store (st : store) (tmpl : list FedorableTask)
    (otmpl : list FedorableOption) : store :=
  {| task_objs := task_objs st ++ (task_copy <$> tmpl);
     option_objs := option_objs st ++ (option_copy <$> otmpl) |}.

(** ** Reading a configuration by name *)

(** [self.tasks[name]], read: the task the key refers to; [None] when the key
    is absent. *)
Definition lookup_task (st : store) (self : FedorableCore) (name : string)
    : option FedorableTask :=
  l ← dict_get (tasks self) name; task_objs st !! l.

(** [self.options[name]], read. *)
Definition lookup_option (st : store) (self : FedorableCore) (name : string)
    : option FedorableOption :=
  l ← dict_get (options self) name; option_objs st !! l.

(** [reg.TASKS[name]] and [reg.OPTIONS[name]], read. *)
Definition registry_task (st : store) (reg : registry) (name : string)
    : option FedorableTask :=
  l ← dict_get (TASKS reg) name; task_objs st !! l.

Definition registry_option (st : store) (reg : registry) (name : string)
    : option FedorableOption :=
  l ← dict_get (OPTIONS reg) name; option_objs st !! l.

(** A dictionary as [__init__] builds it: no key twice, no object under two
    keys, every object in the store of [n] objects. *)
Definition dict_ok (n : nat) (d : dict loc) : Prop :=
  NoDup (dict_keys d) ∧ NoDup (dict_values d) ∧
  Forall (λ l, l < n) (dict_values d).

Definition core_ok (st : store) (self : FedorableCore) : Prop :=
  dict_ok (length (task_objs st)) (tasks self) ∧
  dict_ok (length (option_objs st)) (options self).

(** A core with two tasks and one option, and a store that holds them. *)
Definition small_core : FedorableCore :=
  {| script_path := "/usr/bin/fedorable.sh";
     tasks := [("update", 0); ("clean_dnf", 1)];
     options := [("dry_run", 0)] |}.

Definition small_store : store :=
  {| task_objs := [FedorableTask_init "update" "Update" true None;
                   FedorableTask_init "clean_dnf" "Clean" true None];
     option_objs := [FedorableOption_init "dry_run" "Dry run" false None] |}.

(** ** What the command line asks for *)

(** The value that [setup_fedorable_core] leaves in [enabled] of the task
    under [name] whose value was [old]: the one of [--<name>] or
    [--no-<name>] when one was given, else [True] under [--all], else [False]
    under [--none], else the old one. *)
Definition cli_task_choice (args : Cli.Namespace) (name : string) (old : bool)
    : bool :=
  match dict_get (Cli.ns_attrs args) ("task_" +:+ name) with
  | Some (Some v) => v
  | _ => if Cli.ns_all args then true
         else if Cli.ns_none args then false else old
  end.

(** The same for the option under [name]: [True] when its switch was given,
    else the old value. *)
Definition cli_option_choice (args : Cli.Namespace) (name : string) (old : bool)
    : bool :=
  match dict_get (Cli.ns_attrs args) ("option_" +:+ name) with
  | Some (Some true) => true
  | _ => old
  end.

(** An argument vector with no switch of a single task. *)
Definition no_task_switch (args : Cli.Namespace) : Prop :=
  ∀ name, match dict_get (Cli.ns_attrs args) ("task_" +:+ name) with
          | Some (Some _) => False
          | _ => True
          end.

(** [--none --update] and [--none] alone. *)
Definition small_args : Cli.Namespace :=
  {| Cli.ns_script_path := "/usr/bin/fedorable.sh";
     Cli.ns_no_pkexec := false;
     Cli.ns_all := false;
     Cli.ns_none := true;
     Cli.ns_attrs := [("task_update", Some true); ("task_clean_dnf", None);
                      ("option_dry_run", Some false)] |}.

Definition none_args : Cli.Namespace :=
  {| Cli.ns_script_path := "/usr/bin/fedorable.sh";
     Cli.ns_no_pkexec := false;
     Cli.ns_all := false;
     Cli.ns_none := true;
     Cli.ns_attrs := [] |}.

(** ** The window's controls ([main.py]) *)

Module GuiUi.

(** A check box, or a switch with its label: the label and what
    [get_active()] returns. *)
Record Control := mkControl {
  label : string;
  active : bool
}.

(** [d[key] = v] *)
Fixpoint dict_set {V : Type} (d : dict V) (key : string) (v : V) : dict V :=
  match d with
  | [] => [(key, v)]
  | (k, v') :: d' =>
      if String.eqb k key then (k, v) :: d' else (k, v') :: dict_set d' key v
  end.

(** The loop of [_setup_tasks_ui] and of [_setup_options_ui]: for each item
    a control is made with the item's label and default, entered in the
    dictionary under the item's key and attached to the grid at [(col, row)];
    then [col += 1; if col > 1: col = 0; row += 1]. *)
Fixpoint setup_loop (items : list (string * (string * bool)))
    (controls : dict Control) (grid : list (Control * (nat * nat)))
    (row col : nat) : dict Control * list (Control * (nat * nat)) :=
  match items with
  | [] => (controls, grid)
  | (key, (lbl, default)) :: rest =>
      let cb := mkControl lbl default in
      let controls := dict_set controls key cb in
      let grid := grid ++ [(cb, (col, row))] in
      let col := col + 1 in
      if 1 <? col then setup_loop rest controls grid (row + 1) 0
      else setup_loop rest controls grid row col
  end.

(** [{name: (task.description, task.enabled)
      for name, task in self.fedorable.tasks.items()}] *)
Definition task_items (st : store) (self : FedorableCore)
    : option (list (string * (string * bool))) :=
  ts ← deref_tasks st (tasks self);
  Some (zip (dict_keys (tasks self))
          ((λ task, (task_description task, task_enabled task)) <$> ts)).

Definition option_items (st : store) (self : FedorableCore)
    : option (list (string * (string * bool))) :=
  os ← deref_options st (options self);
  Some (zip (dict_keys (options self))
          ((λ option, (option_description option, option_enabled option)) <$> os)).

(** [_setup_tasks_ui]: the dictionary [self.task_checkboxes] and the cells of
    [tasks_grid]. *)
Definition _setup_tasks_ui (st : store) (self : FedorableCore)
    : option (dict Control * list (Control * (nat * nat))) :=
  items ← task_items st self; Some (setup_loop items [] [] 0 0).

(** [_setup_options_ui]: the dictionary [self.option_switches] and the cells
    of [options_grid]. *)
Definition _setup_options_ui (st : store) (self : FedorableCore)
    : option (dict Control * list (Control * (nat * nat))) :=
  items ← option_items st self; Some (setup_loop items [] [] 0 0).

(** What [get_active()] returns for each control of a dictionary. *)
Definition actives (controls : dict Control) : dict bool :=
  (λ kc, (kc.1, active kc.2)) <$> controls.

(** [FedorableMainWindow.__init__]: the window as the run path reads it, and
    the two grids. [FEDORABLE_SCRIPT_PATH] is [core.DEFAULT_SCRIPT_PATH]. *)
Definition MainWindow_init (FEDORABLE_SCRIPT_PATH : string) (reg : registry)
    (st : store)
    : option (Gui.MainWindow * list (Control * (nat * nat))
              * list (Control * (nat * nat)) * store) :=
  '(fedorable, st1) ← FedorableCore_init FEDORABLE_SCRIPT_PATH reg
                        (Some FEDORABLE_SCRIPT_PATH) st;
  '(task_checkboxes, tasks_grid) ← _setup_tasks_ui st1 fedorable;
  '(option_switches, options_grid) ← _setup_options_ui st1 fedorable;
  Some (Gui.mkMainWindow false fedorable (actives task_checkboxes)
          (actives option_switches),
        tasks_grid, options_grid, st1).

(** The value that [FedorableMainWindow.build_command] leaves in [enabled]
    of the object under [name] whose value was [old]: what the control under
    that key shows when there is one, else the old value. *)
Definition control_choice (controls : dict bool) (name : string) (old : bool)
    : bool :=
  default old (dict_get controls name).

End GuiUi.

(** Three items for the grid, and a window on the small core in which the
    check box of [update] is cleared, the switch of [dry_run] is set, and one
    check box has a key that is not a task. *)
Definition three_items : list (string * (string * bool)) :=
  [("update", ("Update", true)); ("clean_dnf", ("Clean", true));
   ("trim", ("Trim", false))].

Definition small_window : Gui.MainWindow :=
  Gui.mkMainWindow false small_core
    [("update", false); ("bogus", false)] [("dry_run", true)].

From Stdlib Require Import DecimalString.

(** ** The command-line programs ([cli.py], and [main] of [core.py]) *)

(** [str(n)] for an integer [n]. *)
Definition str_int (n : Z) : string := NilZero.string_of_int (Z.to_int n).

(** What the programs need besides the operating system: the message of the
    [OSError] that a failed launch of a command raises, and [repr] of a
    string (the text of a [KeyError]). *)
Record Runtime := mkRuntime {
  rt_os : OS;
  strerror : list string → string;
  repr : string → string
}.










(** A runtime over the example operating system. *)
Definition example_rt : Runtime :=
  {| rt_os := example_os;
     strerror := λ _, "[Errno 2] No such file or directory";
     repr := λ s, s |}.

(** A runtime over the operating system in which no path is executable. *)
Definition bare_rt : Runtime :=
  {| rt_os := bare_os;
     strerror := λ _, "[Errno 13] Permission denied";
     repr := λ s, s |}.

(** ** The window while it runs the script ([main.py]) *)

Module GuiWin.

(** The two text tags of the output buffer. *)
Inductive tag := stdout_tag | stderr_tag.

(** What the handlers of [FedorableMainWindow] write besides the core: the
    child of [self.process] while there is one, with the status that
    [get_exit_status()] returns for it; what each check box and switch
    shows; the text of the status label; the texts inserted in the output
    buffer with their tags; whether the run button, the clear button, each
    check box and each switch is sensitive; the body of each error dialog
    presented; the lines printed; and the exceptions that left a handler. *)
Record Window := mkWindow {
  process : option Child;
  fedorable : FedorableCore;
  task_checkboxes : dict bool;
  option_switches : dict bool;
  status_label : string;
  buffer : list (string * tag);
  run_button : bool;
  clear_button : bool;
  checkbox_sensitive : dict bool;
  switch_sensitive : dict bool;
  dialogs : list string;
  printed : list string;
  uncaught : list string
}.

(** How a method ends: it returns, or it raises [AttributeError]; either way
    with the window as the method has made it. *)
Inductive ending :=
  | Returns (w : Window)
  | AttributeError (w : Window).

(** The window as [build_command] reads it. *)
Definition main_window (w : Window) : Gui.MainWindow :=
  Gui.mkMainWindow (bool_decide (is_Some (process w))) (fedorable w)
    (task_checkboxes w) (option_switches w).

(** [update_statusbar(text)] *)
Definition update_statusbar (text : string) (w : Window) : Window :=
  mkWindow (process w) (fedorable w) (task_checkboxes w) (option_switches w)
    text (buffer w) (run_button w) (clear_button w) (checkbox_sensitive w)
    (switch_sensitive w) (dialogs w) (printed w) (uncaught w).

(** [dialog.present()] for a dialog with the body [primary_text]. *)
Definition present (primary_text : string) (w : Window) : Window :=
  mkWindow (process w) (fedorable w) (task_checkboxes w) (option_switches w)
    (status_label w) (buffer w) (run_button w) (clear_button w)
    (checkbox_sensitive w) (switch_sensitive w)
    (dialogs w ++ [primary_text]) (printed w) (uncaught w).

(** [show_error_dialog(primary_text, secondary_text)]. [Adw.MessageDialog]
    has no method [set_extra_info]: with a secondary text that is not empty,
    the call [dialog.set_extra_info(secondary_text)] raises
    [AttributeError], before the dialog is presented. *)
Definition show_error_dialog (primary_text secondary_text : string)
    (w : Window) : ending :=
  if String.eqb secondary_text "" then Returns (present primary_text w)
  else AttributeError w.

(** [buffer.set_text("")] *)
Definition clear_buffer (w : Window) : Window :=
  mkWindow (process w) (fedorable w) (task_checkboxes w) (option_switches w)
    (status_label w) [] (run_button w) (clear_button w)
    (checkbox_sensitive w) (switch_sensitive w) (dialogs w) (printed w)
    (uncaught w).

(** [on_clear_clicked] *)
Definition on_clear_clicked (w : Window) : Window :=
  update_statusbar "Output cleared." (clear_buffer w).

(** [set_controls_sensitive(sensitive)] *)
Definition set_controls_sensitive (sensitive : bool) (w : Window) : Window :=
  mkWindow (process w) (fedorable w) (task_checkboxes w) (option_switches w)
    (status_label w) (buffer w) sensitive sensitive
    ((λ kv, (kv.1, sensitive)) <$> checkbox_sensitive w)
    ((λ kv, (kv.1, sensitive)) <$> switch_sensitive w)
    (dialogs w) (printed w) (uncaught w).

(** [append_output(text, tag)] *)
Definition append_output (text : string) (t : tag) (w : Window) : Window :=
  mkWindow (process w) (fedorable w) (task_checkboxes w) (option_switches w)
    (status_label w) (buffer w ++ [(text, t)]) (run_button w) (clear_button w)
    (checkbox_sensitive w) (switch_sensitive w) (dialogs w) (printed w)
    (uncaught w).

(** [print(text)] *)
Definition log (text : string) (w : Window) : Window :=
  mkWindow (process w) (fedorable w) (task_checkboxes w) (option_switches w)
    (status_label w) (buffer w) (run_button w) (clear_button w)
    (checkbox_sensitive w) (switch_sensitive w) (dialogs w)
    (printed w ++ [text]) (uncaught w).

(** [self.process = p] *)
Definition set_process (p : option Child) (w : Window) : Window :=
  mkWindow p (fedorable w) (task_checkboxes w) (option_switches w)
    (status_label w) (buffer w) (run_button w) (clear_button w)
    (checkbox_sensitive w) (switch_sensitive w) (dialogs w) (printed w)
    (uncaught w).

(** [_finalize_run(success, exit_status)] *)
Definition _finalize_run (success : bool) (exit_status : Z) (w : Window)
    : Window :=
  set_controls_sensitive true
    (if success then
       append_output
         (String LF ("--- Maintenance Finished Successfully ---"
                     +:+ String LF EmptyString))
         stdout_tag
         (update_statusbar "Maintenance finished successfully." w)
     else
       append_output
         (String LF ("--- Maintenance Failed (Exit Code: "
                     +:+ str_int exit_status +:+ ") ---"
                     +:+ String LF EmptyString))
         stderr_tag
         (update_statusbar
            ("Maintenance failed (Exit Code: " +:+ str_int exit_status
             +:+ "). Check output.") w)).

(** [_handle_process_error(log_message, error_details)]: the message is
    printed, then [show_error_dialog] is called, and [_finalize_run] only
    when that call returns. *)
Definition _handle_process_error (log_message error_details : string)
    (w : Window) : ending :=
  match show_error_dialog "Error Starting Process"
          ("Could not launch the maintenance script."
           +:+ String LF ("Details: " +:+ error_details))
          (log log_message w) with
  | Returns w' => Returns (_finalize_run false (-1) w')
  | AttributeError w' => AttributeError w'
  end.

(** [on_run_clicked]. [quote] is [shlex.quote]; the message of the
    [GLib.Error] of a failed launch is [strerror rt command]. An exception
    raised in the handler of that [GLib.Error] leaves [on_run_clicked].
    [None] when the core refers to an object that does not exist. *)
Definition on_run_clicked (rt : Runtime) (quote : string → string)
    (w : Window) (st : store) : option (ending * store) :=
  if bool_decide (is_Some (process w)) then
    Some (Returns (update_statusbar "Maintenance is already running." w), st)
  else if negb (is_script_executable (rt_os rt) (fedorable w)) then
    Some (show_error_dialog "Error: Script not found or not executable"
            ("Cannot run: " +:+ script_path (fedorable w)) w, st)
  else
    match Gui.build_command (main_window w) st with
    | (Normal (Some command), st') =>
        let w1 :=
          set_controls_sensitive false
            (append_output
               ("Running command: "
                +:+ String.concat " " (map quote command)
                +:+ String LF (String LF EmptyString))
               stdout_tag
               (update_statusbar "Starting maintenance..."
                  (on_clear_clicked w))) in
        match spawn (rt_os rt) command with
        | Some ch => Some (Returns (set_process (Some ch) w1), st')
        | None =>
            let message := strerror rt command in
            Some (_handle_process_error
                    ("Failed to start process: " +:+ message) message w1, st')
        end
    | _ => None
    end.

(** [_on_process_communication_finished] when [communicate_utf8_finish]
    succeeds, for the child of [self.process]; [None] when there is no
    process, for then the callback is not called. *)
Definition _on_process_communication_finished (w : Window) : option Window :=
  ch ← process w;
  let stdout_data := child_stdout ch in
  let stderr_data := child_stderr ch in
  let w1 := if String.eqb stdout_data "" then w
            else append_output stdout_data stdout_tag w in
  let w2 := if String.eqb stderr_data "" then w1
            else append_output stderr_data stderr_tag w1 in
  let exit_status := child_returncode ch in
  Some (set_process None (_finalize_run (Z.eqb exit_status 0) exit_status w2)).

(** [_on_process_communication_finished] when [communicate_utf8_finish]
    raises a [GLib.Error] with the given message; [if_exited] is what
    [get_if_exited()] returns. *)
Definition _on_process_communication_failed (message : string)
    (if_exited : bool) (w : Window) : option Window :=
  ch ← process w;
  let w1 := log ("Error during process communication: " +:+ message) w in
  let w2 := append_output
              (String LF ("[GUI Communication Error: " +:+ message +:+ "]"
                          +:+ String LF EmptyString))
              stderr_tag w1 in
  let exit_status := if if_exited then child_returncode ch else (-1)%Z in
  Some (set_process None (_finalize_run false exit_status w2)).

(** What can happen to the window: a click on either button, or the end of
    the communication with the child, with its output or with an error. *)
Inductive event :=
  | RunClicked
  | ClearClicked
  | CommunicationFinished
  | CommunicationFailed (message : string) (if_exited : bool).

(** An exception that leaves a handler goes no further than the main loop,
    which reports it and goes on. *)
Definition main_loop (e : ending) : Window :=
  match e with
  | Returns w => w
  | AttributeError w =>
      mkWindow (process w) (fedorable w) (task_checkboxes w) (option_switches w)
        (status_label w) (buffer w) (run_button w) (clear_button w)
        (checkbox_sensitive w) (switch_sensitive w) (dialogs w) (printed w)
        (uncaught w ++ ["AttributeError"])
  end.

Definition handle (rt : Runtime) (quote : string → string) (e : event)
    (s : Window * store) : option (Window * store) :=
  match e with
  | RunClicked =>
      r ← on_run_clicked rt quote s.1 s.2; Some (main_loop r.1, r.2)
  | ClearClicked => Some (on_clear_clicked s.1, s.2)
  | CommunicationFinished =>
      w ← _on_process_communication_finished s.1; Some (w, s.2)
  | CommunicationFailed message if_exited =>
      w ← _on_process_communication_failed message if_exited s.1; Some (w, s.2)
  end.

(** The events of a list, one after the other. *)
Fixpoint handle_all (rt : Runtime) (quote : string → string)
    (es : list event) (s : Window * store) : option (Window * store) :=
  match es with
  | [] => Some s
  | e :: es' => s' ← handle rt quote e s; handle_all rt quote es' s'
  end.

(** The window that [FedorableMainWindow.__init__] leaves: no process, the
    status ["Ready."], an empty buffer, every control sensitive. *)
Definition new_window (main : Gui.MainWindow) : Window :=
  {| process := None;
     fedorable := Gui.fedorable main;
     task_checkboxes := Gui.task_checkboxes main;
     option_switches := Gui.option_switches main;
     status_label := "Ready.";
     buffer := [];
     run_button := true;
     clear_button := true;
     checkbox_sensitive := (λ kv, (kv.1, true)) <$> Gui.task_checkboxes main;
     switch_sensitive := (λ kv, (kv.1, true)) <$> Gui.option_switches main;
     dialogs := [];
     printed := [];
     uncaught := [] |}.

(** The run button, the clear button, every check box and every switch have
    the sensitivity [v]. *)
Definition controls_are (v : bool) (w : Window) : Prop :=
  run_button w = v ∧ clear_button w = v ∧
  Forall (λ kv, kv.2 = v) (checkbox_sensitive w) ∧
  Forall (λ kv, kv.2 = v) (switch_sensitive w).

(** The controls are all sensitive or all insensitive, and insensitive while
    a process is active. *)
Definition controls_agree (w : Window) : Prop :=
  ∃ v, controls_are v w ∧ (is_Some (process w) → v = false).

(** The text that the output view shows. *)
Definition shown (w : Window) : string := joined (fst <$> buffer w).

(** [FedorableGtkApp._check_script_availability], on the window it was
    given. *)
Definition _check_script_availability (os : OS) (FEDORABLE_SCRIPT_PATH : string)
    (w : Window) : ending :=
  if negb (path_exists os FEDORABLE_SCRIPT_PATH) then
    show_error_dialog "Error: Fedorable script not found!"
      ("Please ensure '" +:+ FEDORABLE_SCRIPT_PATH
       +:+ "' exists and is executable."
       +:+ String LF
             "You might need to adjust the FEDORABLE_SCRIPT_PATH variable in the Python script.")
      w
  else if negb (access_X_OK os FEDORABLE_SCRIPT_PATH) then
    show_error_dialog "Error: Fedorable script not executable!"
      ("Please make '" +:+ FEDORABLE_SCRIPT_PATH +:+ "' executable (chmod +x).")
      w
  else Returns w.

End GuiWin.

(** The invariant of the window: the controls are all sensitive or all
    insensitive, insensitive while a process is active, and, as long as no
    exception has left a handler, sensitive when no process is active. *)
Definition window_inv (w : GuiWin.Window) : Prop :=
  GuiWin.controls_agree w ∧
  (GuiWin.uncaught w = [] →
   GuiWin.controls_are (negb (bool_decide (is_Some (GuiWin.process w)))) w).

(** A runtime in which every path is executable and every launch fails. *)
Definition failing_rt : Runtime :=
  {| rt_os := {| path_exists := λ _, true;
                 access_X_OK := λ _, true;
                 spawn := λ _, None |};
     strerror := λ _, "Failed to execute child process";
     repr := λ s, s |}.

(** The small window as [__init__] would leave it. *)
Definition small_new_window : GuiWin.Window := GuiWin.new_window small_window.

(** ** The switches of the command line ([parse_arguments]) *)

(** The two arguments that [parse_arguments] adds for the task under the
    registry key [name]: the option string, the destination and the value
    stored when the switch is given ([store_true], [store_false]). *)
Definition task_arguments (name : string) : list (string * (string * bool)) :=
  [("--" +:+ str_replace_char "_"%char "-"%char name, ("task_" +:+ name, true));
   ("--no-" +:+ str_replace_char "_"%char "-"%char name, ("task_" +:+ name, false))].

(** The argument that it adds for the option under the key [name]. *)
Definition option_argument (name : string) : string * (string * bool) :=
  ("--" +:+ str_replace_char "_"%char "-"%char name, ("option_" +:+ name, true)).

(** [--no-update --dry-run], as [parse_arguments] stores them. *)
Definition switch_args : Cli.Namespace :=
  {| Cli.ns_script_path := example_path;
     Cli.ns_no_pkexec := true;
     Cli.ns_all := false;
     Cli.ns_none := false;
     Cli.ns_attrs := [("task_update", Some false); ("option_dry_run", Some true)] |}.

(** * Properties *)

(** ** The command compiler *)

Section Compile.

Context (st : store).

Lemma deref_tasks_cons k l d :
  deref_tasks st ((k, l) :: d) =
    t ← task_objs st !! l; ts ← deref_tasks st d; Some (t :: ts).
Proof. reflexivity. Qed.

Lemma deref_options_cons k l d :
  deref_options st ((k, l) :: d) =
    o ← option_objs st !! l; os ← deref_options st d; Some (o :: os).
Proof. reflexivity. Qed.

Lemma append_disabled_tasks_spec items : ∀ command ts,
  deref_tasks st items = Some ts →
  append_disabled_tasks st items command =
    Some (command ++ map task_flag (List.filter (λ t, negb (task_enabled t)) ts)).
Proof.
  induction items as [|[k l] items IH]; intros command ts Hd.
  - injection Hd as <-. simpl. by rewrite app_nil_r.
  - rewrite deref_tasks_cons in Hd. simpl.
    destruct (task_objs st !! l) as [t|]; [simpl in *|done].
    destruct (deref_tasks st items) as [ts'|]; [simpl in Hd|done].
    injection Hd as <-. rewrite (IH _ ts' eq_refl). simpl.
    destruct (task_enabled t); simpl; [done|].
    by rewrite <- app_assoc.
Qed.

Lemma append_enabled_options_spec items : ∀ command os,
  deref_options st items = Some os →
  append_enabled_options st items command =
    Some (command ++ map option_flag (List.filter option_enabled os)).
Proof.
  induction items as [|[k l] items IH]; intros command os Hd.
  - injection Hd as <-. simpl. by rewrite app_nil_r.
  - rewrite deref_options_cons in Hd. simpl.
    destruct (option_objs st !! l) as [o|]; [simpl in *|done].
    destruct (deref_options st items) as [os'|]; [simpl in Hd|done].
    injection Hd as <-. rewrite (IH _ os' eq_refl). simpl.
    destruct (option_enabled o); simpl; [|done].
    by rewrite <- app_assoc.
Qed.

(** C1. In a store where the core's dictionaries refer to the tasks [ts] and
    the options [os] (in dictionary order), [build_command] returns exactly:
    ["pkexec"] if escalation is asked for, then the script path, then the flag
    of every task that is not enabled, in order, then the flag of every option
    that is enabled, in order. *)
Theorem build_command_tokens (self : FedorableCore) (use_pkexec : bool)
    (ts : list FedorableTask) (os : list FedorableOption) :
  deref_tasks st (tasks self) = Some ts →
  deref_options st (options self) = Some os →
  build_command st self use_pkexec =
    Some ((if use_pkexec then ["pkexec"] else []) ++ [script_path self]
          ++ map task_flag (List.filter (λ t, negb (task_enabled t)) ts)
          ++ map option_flag (List.filter option_enabled os)).
Proof.
  intros Ht Ho. unfold build_command.
  rewrite (append_disabled_tasks_spec _ _ ts Ht). simpl.
  rewrite (append_enabled_options_spec _ _ os Ho).
  by destruct use_pkexec; simpl; rewrite <- ?app_assoc.
Qed.

End Compile.

Lemma build_command_tokens_witness :
  ∃ c st,
    example_core = Some (c, st) ∧
    build_command st c true =
      Some ["pkexec"; "/opt/fedorable/fedorable.sh"; "--no-update"; "--dry-run"].
Proof.
  destruct example_core as [[c st]|] eqn:E; [|by vm_compute in E].
  exists c, st. split; [done|].
  destruct (deref_tasks st (tasks c)) as [ts|] eqn:Ht;
    [|by vm_compute in E; injection E as <- <-; vm_compute in Ht].
  destruct (deref_options st (options c)) as [os|] eqn:Ho;
    [|by vm_compute in E; injection E as <- <-; vm_compute in Ho].
  rewrite (build_command_tokens st c true ts os Ht Ho).
  vm_compute in E. injection E as <- <-.
  vm_compute in Ht. injection Ht as <-.
  vm_compute in Ho. injection Ho as <-.
  reflexivity.
Defined.

(** ** How often a flag occurs in a command *)

Lemma count_cons_eq (tok : string) (l : list string) :
  count tok (tok :: l) = S (count tok l).
Proof. unfold count. by rewrite count_occ_cons_eq. Qed.

Lemma count_cons_neq (tok x : string) (l : list string) :
  x ≠ tok → count tok (x :: l) = count tok l.
Proof. intros. unfold count. by rewrite count_occ_cons_neq. Qed.

Section Count.

Context {A : Type} (f : A → string) (p : A → bool).

Lemma count_absent (l : list A) (tok : string) :
  ¬ In tok (map f l) → count tok (map f (List.filter p l)) = 0.
Proof.
  intros Hn. apply count_occ_not_In. intros Hin. apply Hn.
  apply in_map_iff in Hin as (x & <- & Hx).
  apply filter_In in Hx as [Hx _]. by apply in_map.
Qed.

Lemma count_selected (l : list A) : ∀ x,
  NoDup (map f l) → In x l →
  count (f x) (map f (List.filter p l)) = if p x then 1 else 0.
Proof.
  induction l as [|a l IH]; intros x Hnd Hin; [done|].
  simpl in Hnd. apply NoDup_cons in Hnd as [Ha Hnd].
  assert (Ha' : ¬ In (f a) (map f l)) by (by rewrite <- list_elem_of_In).
  destruct Hin as [->|Hin].
  - cbn [List.filter]. destruct (p x) eqn:Hp; cbn [map].
    + by rewrite count_cons_eq, (count_absent l (f x) Ha').
    + by apply count_absent.
  - assert (f a ≠ f x) by (intros E; apply Ha'; rewrite E; by apply in_map).
    cbn [List.filter]. destruct (p a); cbn [map].
    + rewrite count_cons_neq by done. by apply IH.
    + by apply IH.
Qed.

End Count.

Lemma count_app (tok : string) (c1 c2 : list string) :
  count tok (c1 ++ c2) = count tok c1 + count tok c2.
Proof. apply count_occ_app. Qed.

Lemma count_other (tok : string) (l : list string) :
  ¬ In tok l → count tok l = 0.
Proof. apply count_occ_not_In. Qed.

Lemma head_count (self : FedorableCore) (use_pkexec : bool) (tok : string) :
  tok ≠ script_path self → tok ≠ "pkexec" →
  count tok (if use_pkexec then ["pkexec"; script_path self]
             else [script_path self]) = 0.
Proof.
  intros H1 H2. destruct use_pkexec; by rewrite !count_cons_neq.
Qed.

(** C4, amended. In a configuration whose flags are pairwise distinct and
    differ from the wrapper token and from the script path, the flag of a task
    occurs in the compiled command not at all if the task is enabled and
    exactly once if it is not; the flag of an option occurs exactly once if
    the option is enabled and not at all if it is not. *)
Theorem build_command_flag_count (st : store) (self : FedorableCore)
    (use_pkexec : bool) (ts : list FedorableTask) (os : list FedorableOption)
    (command : list string) :
  deref_tasks st (tasks self) = Some ts →
  deref_options st (options self) = Some os →
  flags_distinct self ts os →
  build_command st self use_pkexec = Some command →
  (∀ t, In t ts →
     count (task_flag t) command = if task_enabled t then 0 else 1) ∧
  (∀ o, In o os →
     count (option_flag o) command = if option_enabled o then 1 else 0).
Proof.
  intros Ht Ho (Hnd & Hpk & Hsp) Hc.
  unfold build_command in Hc.
  rewrite (append_disabled_tasks_spec st _ _ ts Ht) in Hc. simpl in Hc.
  rewrite (append_enabled_options_spec st _ _ os Ho) in Hc.
  injection Hc as <-.
  apply NoDup_app in Hnd as (Hndt & Hdisj & Hndo).
  split.
  - intros t Hin.
    assert (Hf : In (task_flag t) (map task_flag ts)) by (by apply in_map).
    rewrite !count_app, head_count.
    + rewrite (count_selected task_flag _ ts t Hndt Hin).
      rewrite count_absent.
      * destruct (task_enabled t); reflexivity.
      * rewrite <- list_elem_of_In. apply Hdisj. by rewrite list_elem_of_In.
    + intros E. apply Hsp. rewrite <- E. apply in_or_app. by left.
    + intros E. apply Hpk. rewrite <- E. apply in_or_app. by left.
  - intros o Hin.
    assert (Hf : In (option_flag o) (map option_flag os)) by (by apply in_map).
    rewrite !count_app, head_count.
    + rewrite (count_selected option_flag _ os o Hndo Hin).
      rewrite count_absent.
      * destruct (option_enabled o); reflexivity.
      * intros Hin'. rewrite <- list_elem_of_In in Hin', Hf.
        by apply (Hdisj _ Hin').
    + intros E. apply Hsp. rewrite <- E. apply in_or_app. by right.
    + intros E. apply Hpk. rewrite <- E. apply in_or_app. by right.
Qed.

Lemma build_command_flag_count_witness :
  ∃ ts os command,
    deref_tasks example_st (tasks example_c) = Some ts ∧
    deref_options example_st (options example_c) = Some os ∧
    build_command example_st example_c true = Some command ∧
    (∀ t, In t ts →
       count (task_flag t) command = if task_enabled t then 0 else 1) ∧
    (∀ o, In o os →
       count (option_flag o) command = if option_enabled o then 1 else 0).
Proof.
  eexists _, _, _.
  split; [vm_compute; reflexivity|].
  split; [vm_compute; reflexivity|].
  split; [vm_compute; reflexivity|].
  eapply (build_command_flag_count example_st example_c true).
  - vm_compute; reflexivity.
  - vm_compute; reflexivity.
  - repeat split.
    + apply (bool_decide_unpack _). vm_compute. exact I.
    + rewrite <- list_elem_of_In. apply (bool_decide_unpack _). vm_compute. exact I.
    + rewrite <- list_elem_of_In. apply (bool_decide_unpack _). vm_compute. exact I.
  - vm_compute; reflexivity.
Defined.

(** C4 as stated fails: with the shipped registries and a script whose path is
    [--no-update], the task [update] is enabled and yet the command contains
    its flag. *)
Lemma build_command_flag_count_counterexample :
  ¬ (∀ (st : store) (self : FedorableCore) (use_pkexec : bool)
       (ts : list FedorableTask) (command : list string),
       deref_tasks st (tasks self) = Some ts →
       build_command st self use_pkexec = Some command →
       ∀ t, In t ts →
         count (task_flag t) command = if task_enabled t then 0 else 1).
Proof.
  intros H.
  destruct (deref_tasks odd_st (tasks odd_c)) as [ts|] eqn:Ht;
    [|by vm_compute in Ht].
  destruct (build_command odd_st odd_c true) as [command|] eqn:Hc;
    [|by vm_compute in Hc].
  specialize (H _ _ _ _ _ Ht Hc).
  vm_compute in Ht, Hc. injection Ht as <-. injection Hc as <-.
  specialize (H _ (or_introl eq_refl)). vm_compute in H. discriminate H.
Qed.

(** ** Assignments only change [enabled] *)

Section Updated.

Context {A : Type} (same : A → A → Prop).
Context (same_refl : ∀ x, same x x).
Context (same_trans : ∀ x y z, same x y → same y z → same x z).

Lemma updated_refl (locs : list loc) (xs : list A) : updated same locs xs xs.
Proof. split; [done|]. intros l x Hx. exists x. auto. Qed.

Lemma updated_trans (locs : list loc) (xs ys zs : list A) :
  updated same locs xs ys → updated same locs ys zs → updated same locs xs zs.
Proof.
  intros [Hl1 H1] [Hl2 H2]. split; [congruence|].
  intros l x Hx.
  destruct (H1 l x Hx) as (y & Hy & Hxy & Hfy).
  destruct (H2 l y Hy) as (z & Hz & Hyz & Hfz).
  exists z. split; [done|]. split; [by eapply same_trans|].
  intros Hn. by rewrite (Hfz Hn), (Hfy Hn).
Qed.

Lemma updated_alter (f : A → A) (locs : list loc) (l : loc) (xs : list A) :
  (∀ x, same x (f x)) → In l locs → updated same locs xs (alter f l xs).
Proof.
  intros Hf Hin. split; [by rewrite length_alter|].
  intros l' x Hx. destruct (decide (l = l')) as [E|Hne].
  - subst l'. exists (f x). rewrite list_lookup_alter_eq, Hx. by split; [|split].
  - exists x. rewrite list_lookup_alter_ne by done. auto.
Qed.

(** Locations outside the store stay outside. *)
Lemma updated_lookup (locs : list loc) (xs xs' : list A) (l : loc) :
  updated same locs xs xs' → ¬ In l locs → xs' !! l = xs !! l.
Proof.
  intros [Hlen H] Hn. destruct (xs !! l) as [x|] eqn:Hx.
  - destruct (H l x Hx) as (x' & Hx' & _ & Heq). by rewrite Hx', (Heq Hn).
  - apply lookup_ge_None. apply lookup_ge_None in Hx. lia.
Qed.

End Updated.

Lemma task_same_refl t : task_same t t.
Proof. by repeat split. Qed.

Lemma task_same_trans t1 t2 t3 : task_same t1 t2 → task_same t2 t3 → task_same t1 t3.
Proof. unfold task_same. intros (?&?&?) (?&?&?). repeat split; congruence. Qed.

Lemma option_same_refl o : option_same o o.
Proof. by repeat split. Qed.

Lemma option_same_trans o1 o2 o3 :
  option_same o1 o2 → option_same o2 o3 → option_same o1 o3.
Proof. unfold option_same. intros (?&?&?) (?&?&?). repeat split; congruence. Qed.

Lemma frame_refl self st : frame self st st.
Proof.
  split; apply updated_refl; [apply task_same_refl|apply option_same_refl].
Qed.

Lemma frame_trans self st1 st2 st3 :
  frame self st1 st2 → frame self st2 st3 → frame self st1 st3.
Proof.
  intros [? ?] [? ?]. split.
  - eapply updated_trans; eauto using task_same_trans.
  - eapply updated_trans; eauto using option_same_trans.
Qed.

Lemma dict_get_values {V : Type} (d : dict V) (k : string) (v : V) :
  dict_get d k = Some v → In v (dict_values d).
Proof.
  induction d as [|[k' v'] d IH]; [done|]. simpl.
  destruct (String.eqb k' k); [intros [= ->]; by left | right; auto].
Qed.

Lemma dict_get_keys {V : Type} (d : dict V) (k : string) :
  In k (dict_keys d) → is_Some (dict_get d k).
Proof.
  induction d as [|[k' v'] d IH]; [done|]. simpl.
  destruct (String.eqb_spec k' k) as [->|Hne]; [by eexists|].
  intros [E|Hin]; [done|auto].
Qed.

Lemma framed_ret {A : Type} self (a : A) : framed self (ret a).
Proof. intros st. apply frame_refl. Qed.

Lemma framed_bind {A B : Type} self (c : M A) (k : A → M B) :
  framed self c → (∀ a, framed self (k a)) → framed self (bind c k).
Proof.
  intros Hc Hk st. unfold bind. specialize (Hc st).
  destruct (c st) as [[a|e] st']; simpl in *; [|done].
  eapply frame_trans; [done|apply Hk].
Qed.

Lemma framed_for_each {A : Type} self (xs : list A) (body : A → M unit) :
  (∀ x, framed self (body x)) → framed self (for_each xs body).
Proof.
  intros Hb. induction xs as [|x xs IH]; [apply framed_ret|].
  simpl. apply framed_bind; [apply Hb|done].
Qed.

Lemma framed_set_task_enabled self name v :
  framed self (set_task_enabled self name v).
Proof.
  intros st. unfold set_task_enabled.
  destruct (dict_get (tasks self) name) as [l|] eqn:Hg; [|apply frame_refl].
  split; simpl.
  - apply updated_alter;
      first [apply task_same_refl | by intros t; repeat split
            | by eapply dict_get_values].
  - apply updated_refl, option_same_refl.
Qed.

Lemma framed_set_option_enabled self name v :
  framed self (set_option_enabled self name v).
Proof.
  intros st. unfold set_option_enabled.
  destruct (dict_get (options self) name) as [l|] eqn:Hg; [|apply frame_refl].
  split; simpl.
  - apply updated_refl, task_same_refl.
  - apply updated_alter;
      first [apply option_same_refl | by intros o; repeat split
            | by eapply dict_get_values].
Qed.

Lemma framed_configure self args : framed self (Cli.configure args self).
Proof.
  unfold Cli.configure.
  apply framed_bind; [|intros _; apply framed_bind; [|intros _]].
  - destruct (Cli.ns_all args); [|destruct (Cli.ns_none args)];
      [apply framed_for_each; intros name; apply framed_set_task_enabled ..
      |apply framed_ret].
  - apply framed_for_each. intros name.
    destruct (dict_get _ _) as [[v|]|];
      [apply framed_set_task_enabled|apply framed_ret ..].
  - apply framed_for_each. intros name.
    destruct (dict_get _ _) as [[[]|]|];
      [apply framed_set_option_enabled|apply framed_ret ..].
Qed.

Lemma framed_update_core w : framed (Gui.fedorable w) (Gui.update_core w).
Proof.
  unfold Gui.update_core. apply framed_bind; [|intros _].
  - apply framed_for_each. intros [key cb]. simpl.
    destruct (dict_mem _ _); [apply framed_set_task_enabled|apply framed_ret].
  - apply framed_for_each. intros [key sw]. simpl.
    destruct (dict_mem _ _); [apply framed_set_option_enabled|apply framed_ret].
Qed.

Lemma framed_mutate self m : framed self (mutate self m).
Proof.
  destruct m; simpl.
  - apply framed_set_task_enabled.
  - apply framed_set_option_enabled.
  - apply framed_configure.
  - apply (framed_update_core (Gui.mkMainWindow false self _ _)).
Qed.

Lemma frame_mutate_through self ms : ∀ st,
  frame self st (mutate_all (through self ms) st).
Proof.
  induction ms as [|m ms IH]; intros st; [apply frame_refl|].
  simpl. eapply frame_trans; [apply framed_mutate|apply IH].
Qed.

Lemma updated_fmap {A B : Type} (same : A → A → Prop) (f : A → B)
    (locs : list loc) (xs xs' : list A) :
  (∀ x x', same x x' → f x' = f x) →
  updated same locs xs xs' → f <$> xs' = f <$> xs.
Proof.
  intros Hf [Hlen H]. apply list_eq. intros i. rewrite !list_lookup_fmap.
  destruct (xs !! i) as [x|] eqn:Hx.
  - destruct (H i x Hx) as (x' & -> & Hs & _). simpl. by rewrite (Hf x x' Hs).
  - apply lookup_ge_None in Hx.
    assert (Hn : xs' !! i = None) by (apply lookup_ge_None; lia).
    by rewrite Hn.
Qed.

(** Whatever is assigned, through whatever core objects, the names,
    descriptions and flags of all objects stay what they were. *)
Lemma mutate_all_attributes (ms : list (FedorableCore * mutation)) : ∀ st,
  (task_name <$> task_objs (mutate_all ms st) = task_name <$> task_objs st ∧
   task_flag <$> task_objs (mutate_all ms st) = task_flag <$> task_objs st) ∧
  (option_name <$> option_objs (mutate_all ms st) = option_name <$> option_objs st ∧
   option_flag <$> option_objs (mutate_all ms st) = option_flag <$> option_objs st).
Proof.
  induction ms as [|[self m] ms IH]; intros st; [done|].
  simpl. destruct (IH (mutate self m st).2) as [[-> ->] [-> ->]].
  destruct (framed_mutate self m st) as [Ht Ho].
  repeat split.
  - eapply updated_fmap; [|exact Ht]. by intros t t' (?&?&?).
  - eapply updated_fmap; [|exact Ht]. by intros t t' (?&?&?).
  - eapply updated_fmap; [|exact Ho]. by intros o o' (?&?&?).
  - eapply updated_fmap; [|exact Ho]. by intros o o' (?&?&?).
Qed.

(** ** Flags *)

Lemma str_replace_char_spec (name : string) :
  underscores_as_hyphens name (str_replace_char "_"%char "-"%char name).
Proof.
  split.
  - induction name as [|c name IH]; simpl; [done|by rewrite IH].
  - induction name as [|c name IH]; intros i; simpl; [done|].
    destruct i as [|i]; simpl; [done|apply IH].
Qed.

(** C9. A task constructed without a flag has the flag ["--no-"] followed by
    its name with every underscore replaced by a hyphen, an option constructed
    without a flag has ["--"] followed by its name with the same replacement,
    and no sequence of assignments of the program changes the flag of any
    task or option object. *)
Theorem default_flag_derived_and_kept :
  (∀ name description enabled,
     ∃ h, task_flag (FedorableTask_init name description enabled None)
            = "--no-" +:+ h ∧
          underscores_as_hyphens name h) ∧
  (∀ name description enabled,
     ∃ h, option_flag (FedorableOption_init name description enabled None)
            = "--" +:+ h ∧
          underscores_as_hyphens name h) ∧
  (∀ ms st,
     task_flag <$> task_objs (mutate_all ms st) = task_flag <$> task_objs st ∧
     option_flag <$> option_objs (mutate_all ms st)
       = option_flag <$> option_objs st).
Proof.
  split; [|split].
  - intros name description enabled. eexists. split; [reflexivity|].
    apply str_replace_char_spec.
  - intros name description enabled. eexists. split; [reflexivity|].
    apply str_replace_char_spec.
  - intros ms st. destruct (mutate_all_attributes ms st) as [[_ ?] [_ ?]].
    by split.
Qed.

(** ** Reading through a dictionary *)

Section Deref.

Context {A : Type}.

Lemma deref_cons (xs : list A) k l d :
  deref xs ((k, l) :: d) = x ← xs !! l; ys ← deref xs d; Some (x :: ys).
Proof. reflexivity. Qed.

Lemma deref_ext (xs xs' : list A) (d : dict loc) :
  (∀ l, In l (dict_values d) → xs' !! l = xs !! l) → deref xs' d = deref xs d.
Proof.
  induction d as [|[k l] d IH]; intros H; [done|].
  rewrite !deref_cons, (H l) by (by left).
  rewrite IH; [done|]. intros l' Hin. apply H. by right.
Qed.

Lemma deref_bound (xs : list A) (d : dict loc) (ys : list A) :
  deref xs d = Some ys → ∀ l, In l (dict_values d) → l < length xs.
Proof.
  revert ys. induction d as [|[k l] d IH]; intros ys Hd l' Hin; [done|].
  rewrite deref_cons in Hd.
  destruct (xs !! l) as [x|] eqn:Hl; [simpl in Hd|done].
  destruct (deref xs d) as [ys'|] eqn:Hd'; [|done].
  destruct Hin as [<-|Hin]; [by eapply lookup_lt_Some|by eapply IH].
Qed.

Lemma deref_app (xs extra : list A) (d : dict loc) (ys : list A) :
  deref xs d = Some ys → deref (xs ++ extra) d = Some ys.
Proof.
  intros Hd. rewrite <- Hd. apply deref_ext. intros l Hin.
  apply lookup_app_l. by eapply deref_bound.
Qed.

Lemma deref_fresh (ys : list A) : ∀ (keys : list string) (xs : list A),
  length keys = length ys →
  deref (xs ++ ys) (zip keys (seq (length xs) (length ys))) = Some ys.
Proof.
  induction ys as [|y ys IH]; intros [|k keys] xs Hlen; try done.
  change (deref (xs ++ y :: ys)
            ((k, length xs) :: zip keys (seq (S (length xs)) (length ys)))
          = Some (y :: ys)).
  rewrite deref_cons, list_lookup_middle by done. simpl.
  replace (xs ++ y :: ys) with ((xs ++ [y]) ++ ys) by (by rewrite <- app_assoc).
  replace (S (length xs)) with (length (xs ++ [y]))
    by (rewrite length_app; simpl; lia).
  rewrite IH; [done|]. simpl in Hlen. lia.
Qed.

Lemma deref_Forall2 (R : A → A → Prop) (xs xs' : list A) (d : dict loc) :
  Forall2 R xs xs' → ∀ ys, deref xs d = Some ys →
  ∃ ys', deref xs' d = Some ys' ∧ Forall2 R ys ys'.
Proof.
  intros HR. induction d as [|[k l] d IH]; intros ys Hd.
  - injection Hd as <-. by exists [].
  - rewrite deref_cons in Hd.
    destruct (xs !! l) as [x|] eqn:Hl; [simpl in Hd|done].
    destruct (deref xs d) as [ys0|] eqn:Hd'; [|done].
    injection Hd as <-.
    destruct (Forall2_lookup_l _ _ _ _ _ HR Hl) as (x' & Hl' & Hxx').
    destruct (IH ys0 eq_refl) as (ys0' & Hd0 & HR0).
    exists (x' :: ys0'). rewrite deref_cons, Hl', Hd0. by split; [|constructor].
Qed.

Lemma zip_values (keys : list string) (ls : list loc) :
  length keys = length ls → dict_values (zip keys ls) = ls.
Proof.
  revert ls. induction keys as [|k keys IH]; intros [|l ls] Hlen; try done.
  simpl. f_equal. apply IH. simpl in Hlen. lia.
Qed.

Lemma zip_keys (keys : list string) (ls : list loc) :
  length keys = length ls → dict_keys (zip keys ls) = keys.
Proof.
  revert ls. induction keys as [|k keys IH]; intros [|l ls] Hlen; try done.
  simpl. f_equal. apply IH. simpl in Hlen. lia.
Qed.

End Deref.

Lemma updated_Forall2 {A : Type} (same : A → A → Prop) (locs : list loc)
    (xs xs' : list A) :
  updated same locs xs xs' → Forall2 same xs xs'.
Proof.
  intros [Hlen H]. apply Forall2_same_length_lookup_2; [done|].
  intros i x y Hx Hy. destruct (H i x Hx) as (x' & Hx' & Hs & _). congruence.
Qed.

(** Whatever is assigned, through whatever core objects, every object stays
    the same up to [enabled]. *)
Lemma mutate_all_same (ms : list (FedorableCore * mutation)) : ∀ st,
  Forall2 task_same (task_objs st) (task_objs (mutate_all ms st)) ∧
  Forall2 option_same (option_objs st) (option_objs (mutate_all ms st)).
Proof.
  induction ms as [|[self m] ms IH]; intros st.
  - simpl. split; apply Forall2_same_length_lookup_2; try done;
      intros i x y Hx Hy; rewrite Hx in Hy; injection Hy as <-;
      [apply task_same_refl|apply option_same_refl].
  - simpl. destruct (IH (mutate self m st).2) as [IHt IHo].
    destruct (framed_mutate self m st) as [Ht%updated_Forall2 Ho%updated_Forall2].
    split.
    + eapply Forall2_trans; [|exact Ht|exact IHt]. apply task_same_trans.
    + eapply Forall2_trans; [|exact Ho|exact IHo]. apply option_same_trans.
Qed.

(** ** What [__init__] constructs *)

Lemma copy_tasks_ok (items : dict loc) : ∀ st tmpl,
  deref_tasks st items = Some tmpl →
  copy_tasks items st =
    Some (zip (dict_keys items) (seq (length (task_objs st)) (length items)),
          {| task_objs := task_objs st ++ (task_copy <$> tmpl);
             option_objs := option_objs st |}).
Proof.
  induction items as [|[k l] items IH]; intros st tmpl Hd.
  - injection Hd as <-. simpl. rewrite app_nil_r. by destruct st.
  - unfold deref_tasks in Hd. rewrite deref_cons in Hd.
    destruct (task_objs st !! l) as [t|] eqn:Hl; [simpl in Hd|done].
    destruct (deref (task_objs st) items) as [ts|] eqn:Hi; [|done].
    injection Hd as <-.
    cbn [copy_tasks]. rewrite Hl. cbn [mbind option_bind alloc_task].
    rewrite (IH _ ts); [|by apply deref_app].
    simpl. rewrite length_app, Nat.add_1_r, <- app_assoc. reflexivity.
Qed.

Lemma copy_options_ok (items : dict loc) : ∀ st tmpl,
  deref_options st items = Some tmpl →
  copy_options items st =
    Some (zip (dict_keys items) (seq (length (option_objs st)) (length items)),
          {| task_objs := task_objs st;
             option_objs := option_objs st ++ (option_copy <$> tmpl) |}).
Proof.
  induction items as [|[k l] items IH]; intros st tmpl Hd.
  - injection Hd as <-. simpl. rewrite app_nil_r. by destruct st.
  - unfold deref_options in Hd. rewrite deref_cons in Hd.
    destruct (option_objs st !! l) as [o|] eqn:Hl; [simpl in Hd|done].
    destruct (deref (option_objs st) items) as [os|] eqn:Hi; [|done].
    injection Hd as <-.
    cbn [copy_options]. rewrite Hl. cbn [mbind option_bind alloc_option].
    rewrite (IH _ os); [|by apply deref_app].
    simpl. rewrite length_app, Nat.add_1_r, <- app_assoc. reflexivity.
Qed.

(** The core that [__init__] makes from a registry whose entries are in the
    store: one new object per entry, at the end of the store. *)
Lemma FedorableCore_init_ok default_script_path reg path st tmpl otmpl :
  deref_tasks st (TASKS reg) = Some tmpl →
  deref_options st (OPTIONS reg) = Some otmpl →
  FedorableCore_init default_script_path reg path st =
    Some (init_core default_script_path reg path st, init_store st tmpl otmpl).
Proof.
  intros Ht Ho. unfold FedorableCore_init.
  rewrite (copy_tasks_ok _ _ _ Ht). cbn [mbind option_bind].
  rewrite (copy_options_ok _ _ otmpl); [done|exact Ho].
Qed.

Lemma deref_length {A : Type} (xs : list A) (d : dict loc) (ys : list A) :
  deref xs d = Some ys → length d = length ys.
Proof. apply length_mapM. Qed.

Section Init.

Context (default_script_path : string) (reg : registry) (path : option string).
Context (st : store) (tmpl : list FedorableTask) (otmpl : list FedorableOption).
Context (Htmpl : deref_tasks st (TASKS reg) = Some tmpl).
Context (Hotmpl : deref_options st (OPTIONS reg) = Some otmpl).

Let c : FedorableCore := init_core default_script_path reg path st.
Let st' : store := init_store st tmpl otmpl.

Lemma init_tasks_view : deref_tasks st' (tasks c) = Some (task_copy <$> tmpl).
Proof using Htmpl.
  unfold deref_tasks, c, st'. simpl.
  pose proof (deref_length _ _ _ Htmpl) as Hlen.
  replace (length (TASKS reg)) with (length (task_copy <$> tmpl))
    by (by rewrite length_fmap).
  apply deref_fresh. unfold dict_keys. by rewrite length_map, length_fmap.
Qed.

Lemma init_options_view :
  deref_options st' (options c) = Some (option_copy <$> otmpl).
Proof using Hotmpl.
  unfold deref_options, c, st'. simpl.
  pose proof (deref_length _ _ _ Hotmpl) as Hlen.
  replace (length (OPTIONS reg)) with (length (option_copy <$> otmpl))
    by (by rewrite length_fmap).
  apply deref_fresh. unfold dict_keys. by rewrite length_map, length_fmap.
Qed.

(** The view of the new core after any assignments: the copies up to
    [enabled]. *)
Lemma init_view_after (ms : list (FedorableCore * mutation)) :
  ∃ ts os,
    deref_tasks (mutate_all ms st') (tasks c) = Some ts ∧
    deref_options (mutate_all ms st') (options c) = Some os ∧
    Forall2 task_same (task_copy <$> tmpl) ts ∧
    Forall2 option_same (option_copy <$> otmpl) os.
Proof using Htmpl Hotmpl.
  destruct (mutate_all_same ms st') as [Ht Ho].
  destruct (deref_Forall2 _ _ _ (tasks c) Ht _ init_tasks_view) as (ts & ? & ?).
  destruct (deref_Forall2 _ _ _ (options c) Ho _ init_options_view) as (os & ? & ?).
  by exists ts, os.
Qed.

End Init.

Lemma task_copies_derived (tmpl : list FedorableTask) : ∀ ts,
  Forall2 task_same (task_copy <$> tmpl) ts →
  task_name <$> ts = task_name <$> tmpl ∧
  Forall (λ t, task_flag t =
               "--no-" +:+ str_replace_char "_"%char "-"%char (task_name t)) ts.
Proof.
  induction tmpl as [|t tmpl IH]; intros ts H; inversion H; subst; [done|].
  destruct (IH _ H4) as [IHn IHf].
  destruct H2 as (Hn & _ & Hf). split.
  - simpl. f_equal; [exact Hn|exact IHn].
  - constructor; [|exact IHf]. rewrite Hf, Hn. reflexivity.
Qed.

Lemma option_copies_derived (otmpl : list FedorableOption) : ∀ os,
  Forall2 option_same (option_copy <$> otmpl) os →
  option_name <$> os = option_name <$> otmpl ∧
  Forall (λ o, option_flag o =
               "--" +:+ str_replace_char "_"%char "-"%char (option_name o)) os.
Proof.
  induction otmpl as [|o otmpl IH]; intros os H; inversion H; subst; [done|].
  destruct (IH _ H4) as [IHn IHf].
  destruct H2 as (Hn & _ & Hf). split.
  - simpl. f_equal; [exact Hn|exact IHn].
  - constructor; [|exact IHf]. rewrite Hf, Hn. reflexivity.
Qed.

(** C10. In a core made by [__init__] from a registry whose entries are in
    the store, and after any sequence of assignments, every task of the core
    has the name of its registry entry and the flag ["--no-"] followed by that
    name with underscores as hyphens, and every option the flag ["--"]
    followed by its name with underscores as hyphens, whatever flags the
    registry entries carry; and an empty flag given to a constructor is
    replaced by the derived one. *)
Theorem working_copy_flags (default_script_path : string) (reg : registry)
    (path : option string) (st : store) (tmpl : list FedorableTask)
    (otmpl : list FedorableOption) :
  deref_tasks st (TASKS reg) = Some tmpl →
  deref_options st (OPTIONS reg) = Some otmpl →
  ∃ c st',
    FedorableCore_init default_script_path reg path st = Some (c, st') ∧
    (∀ ms, ∃ ts os,
       deref_tasks (mutate_all ms st') (tasks c) = Some ts ∧
       deref_options (mutate_all ms st') (options c) = Some os ∧
       task_name <$> ts = task_name <$> tmpl ∧
       option_name <$> os = option_name <$> otmpl ∧
       Forall (λ t, task_flag t =
                    "--no-" +:+ str_replace_char "_"%char "-"%char (task_name t)) ts ∧
       Forall (λ o, option_flag o =
                    "--" +:+ str_replace_char "_"%char "-"%char (option_name o)) os) ∧
    (∀ name description enabled,
       task_flag (FedorableTask_init name description enabled (Some "")) =
         "--no-" +:+ str_replace_char "_"%char "-"%char name) ∧
    (∀ name description enabled,
       option_flag (FedorableOption_init name description enabled (Some "")) =
         "--" +:+ str_replace_char "_"%char "-"%char name).
Proof.
  intros Ht Ho. eexists _, _.
  split; [by apply FedorableCore_init_ok|].
  split; [|split; intros; reflexivity].
  intros ms.
  destruct (init_view_after default_script_path reg path st tmpl otmpl Ht Ho ms)
    as (ts & os & Hts & Hos & HRt & HRo).
  exists ts, os. split; [done|]. split; [done|].
  destruct (task_copies_derived _ _ HRt) as [? ?].
  destruct (option_copies_derived _ _ HRo) as [? ?].
  by repeat split.
Qed.

Lemma working_copy_flags_witness :
  task_flag <$> task_objs custom_class_state.2 = ["--skip-update"] ∧
  ∃ c st' ts os,
    FedorableCore_init example_path custom_class_state.1 None custom_class_state.2
      = Some (c, st') ∧
    deref_tasks st' (tasks c) = Some ts ∧
    deref_options st' (options c) = Some os ∧
    task_flag <$> ts = ["--no-update"] ∧
    option_flag <$> os = ["--dry-run"].
Proof.
  split; [reflexivity|].
  destruct (working_copy_flags example_path custom_class_state.1 None
              custom_class_state.2 _ _ eq_refl eq_refl)
    as (c & st' & Hinit & Hms & _).
  destruct (Hms []) as (ts & os & Hts & Hos & Hn & Hon & Hf & Hof).
  exists c, st', ts, os. repeat split; try done.
  - destruct ts as [|t [|??]]; try discriminate Hn.
    injection Hn as Hn. apply Forall_inv in Hf. simpl. by rewrite Hf, Hn.
  - destruct os as [|o [|??]]; try discriminate Hon.
    injection Hon as Hon. apply Forall_inv in Hof. simpl. by rewrite Hof, Hon.
Defined.

(** ** Instances do not share objects *)

Lemma frame_tasks_view self st st' (d : dict loc) :
  frame self st st' →
  (∀ l, In l (dict_values d) → ¬ In l (dict_values (tasks self))) →
  deref_tasks st' d = deref_tasks st d.
Proof.
  intros [Ht _] Hd. apply deref_ext. intros l Hin.
  eapply updated_lookup; [exact Ht|by apply Hd].
Qed.

Lemma frame_options_view self st st' (d : dict loc) :
  frame self st st' →
  (∀ l, In l (dict_values d) → ¬ In l (dict_values (options self))) →
  deref_options st' d = deref_options st d.
Proof.
  intros [_ Ho] Hd. apply deref_ext. intros l Hin.
  eapply updated_lookup; [exact Ho|by apply Hd].
Qed.

Lemma fresh_values (keys : dict loc) (start : nat) (l : loc) :
  In l (dict_values (zip (dict_keys keys) (seq start (length keys)))) ↔
  start ≤ l < start + length keys.
Proof.
  rewrite zip_values by (unfold dict_keys; by rewrite length_map, length_seq).
  apply in_seq.
Qed.

(** C8. Two cores made one after the other from the same registry: whatever
    is assigned through one of them, the tasks and options that the other
    one's dictionaries refer to are what they were, and so are the registry's
    entries. *)
Theorem instances_independent (default_script_path : string) (reg : registry)
    (path1 path2 : option string) (st0 : store) (tmpl : list FedorableTask)
    (otmpl : list FedorableOption) :
  deref_tasks st0 (TASKS reg) = Some tmpl →
  deref_options st0 (OPTIONS reg) = Some otmpl →
  ∃ c1 st1 c2 st2,
    FedorableCore_init default_script_path reg path1 st0 = Some (c1, st1) ∧
    FedorableCore_init default_script_path reg path2 st1 = Some (c2, st2) ∧
    (∀ ms,
       let st3 := mutate_all (through c1 ms) st2 in
       deref_tasks st3 (tasks c2) = deref_tasks st2 (tasks c2) ∧
       deref_options st3 (options c2) = deref_options st2 (options c2) ∧
       deref_tasks st3 (TASKS reg) = Some tmpl ∧
       deref_options st3 (OPTIONS reg) = Some otmpl) ∧
    (∀ ms,
       let st3 := mutate_all (through c2 ms) st2 in
       deref_tasks st3 (tasks c1) = deref_tasks st2 (tasks c1) ∧
       deref_options st3 (options c1) = deref_options st2 (options c1) ∧
       deref_tasks st3 (TASKS reg) = Some tmpl ∧
       deref_options st3 (OPTIONS reg) = Some otmpl).
Proof.
  intros Ht Ho.
  pose proof (deref_length _ _ _ Ht) as Hlt.
  pose proof (deref_length _ _ _ Ho) as Hlo.
  pose proof (deref_bound _ _ _ Ht) as Hbt.
  pose proof (deref_bound _ _ _ Ho) as Hbo.
  set (st1 := {| task_objs := task_objs st0 ++ (task_copy <$> tmpl);
                 option_objs := option_objs st0 ++ (option_copy <$> otmpl) |}).
  assert (Ht1 : deref_tasks st1 (TASKS reg) = Some tmpl) by (by apply deref_app).
  assert (Ho1 : deref_options st1 (OPTIONS reg) = Some otmpl) by (by apply deref_app).
  set (st2 := {| task_objs := task_objs st1 ++ (task_copy <$> tmpl);
                 option_objs := option_objs st1 ++ (option_copy <$> otmpl) |}).
  assert (Ht2 : deref_tasks st2 (TASKS reg) = Some tmpl) by (by apply deref_app).
  assert (Ho2 : deref_options st2 (OPTIONS reg) = Some otmpl) by (by apply deref_app).
  eexists _, st1, _, st2.
  split; [by apply FedorableCore_init_ok|].
  split; [by apply FedorableCore_init_ok|].
  assert (Hn1 : length (task_objs st1) = length (task_objs st0) + length (TASKS reg))
    by (simpl; rewrite length_app, length_fmap; lia).
  assert (Hm1 : length (option_objs st1)
                = length (option_objs st0) + length (OPTIONS reg))
    by (simpl; rewrite length_app, length_fmap; lia).
  split; intros ms st3; subst st3;
    match goal with
    | |- context [mutate_all (through ?c ms) st2] =>
        pose proof (frame_mutate_through c ms st2) as Hfr
    end.
  - rewrite <- Ht2, <- Ho2.
    repeat split;
      [apply (frame_tasks_view _ _ _ _ Hfr)
      |apply (frame_options_view _ _ _ _ Hfr)
      |apply (frame_tasks_view _ _ _ _ Hfr)
      |apply (frame_options_view _ _ _ _ Hfr)];
      cbn [tasks options]; intros l Hl Hl'; apply fresh_values in Hl';
      try apply fresh_values in Hl; try apply Hbt in Hl; try apply Hbo in Hl; lia.
  - rewrite <- Ht2, <- Ho2.
    repeat split;
      [apply (frame_tasks_view _ _ _ _ Hfr)
      |apply (frame_options_view _ _ _ _ Hfr)
      |apply (frame_tasks_view _ _ _ _ Hfr)
      |apply (frame_options_view _ _ _ _ Hfr)];
      cbn [tasks options]; intros l Hl Hl'; apply fresh_values in Hl';
      try apply fresh_values in Hl; try apply Hbt in Hl; try apply Hbo in Hl; lia.
Qed.

Lemma instances_independent_witness :
  ∃ c1 st1 c2 st2,
    FedorableCore_init example_path shipped_registry None class_store
      = Some (c1, st1) ∧
    FedorableCore_init example_path shipped_registry None st1 = Some (c2, st2) ∧
    let st3 := mutate_all (through c1 [SetTaskEnabled "update" false]) st2 in
    deref_tasks st3 (tasks c2) = deref_tasks st2 (tasks c2) ∧
    deref_tasks st3 (TASKS shipped_registry)
      = deref_tasks class_store (TASKS shipped_registry) ∧
    deref_tasks st3 (tasks c1) ≠ deref_tasks st2 (tasks c1).
Proof.
  destruct (instances_independent example_path shipped_registry None None
              class_store _ _ eq_refl eq_refl)
    as (c1 & st1 & c2 & st2 & H1 & H2 & Hm & _).
  exists c1, st1, c2, st2. split; [exact H1|]. split; [exact H2|].
  destruct (Hm [SetTaskEnabled "update" false]) as (Hc2 & _ & Hreg & _).
  split; [exact Hc2|]. split; [exact Hreg|].
  vm_compute in H1. injection H1 as <- <-.
  vm_compute in H2. injection H2 as <- <-.
  vm_compute. discriminate.
Defined.

(** ** Setting [enabled] by name *)

Lemma never_raises_ret {A : Type} (a : A) : never_raises (ret a).
Proof. intros st. by exists a, st. Qed.

Lemma never_raises_bind {A B : Type} (c : M A) (k : A → M B) :
  never_raises c → (∀ a, never_raises (k a)) → never_raises (bind c k).
Proof.
  intros Hc Hk st. unfold bind. destruct (Hc st) as (a & st' & ->). apply Hk.
Qed.

Lemma never_raises_for_each {A : Type} (xs : list A) (body : A → M unit) :
  (∀ x, In x xs → never_raises (body x)) → never_raises (for_each xs body).
Proof.
  induction xs as [|x xs IH]; intros Hb; [apply never_raises_ret|].
  simpl. apply never_raises_bind; [apply Hb; by left|].
  intros _. apply IH. intros y Hy. apply Hb. by right.
Qed.

Lemma set_task_enabled_present self name v :
  In name (dict_keys (tasks self)) → never_raises (set_task_enabled self name v).
Proof.
  intros [l Hl]%dict_get_keys st. unfold set_task_enabled. rewrite Hl. eauto.
Qed.

Lemma set_option_enabled_present self name v :
  In name (dict_keys (options self)) → never_raises (set_option_enabled self name v).
Proof.
  intros [l Hl]%dict_get_keys st. unfold set_option_enabled. rewrite Hl. eauto.
Qed.

Lemma dict_mem_keys {V : Type} (d : dict V) (k : string) :
  dict_mem d k = true → In k (dict_keys d).
Proof.
  unfold dict_mem. induction d as [|[k' v'] d IH]; [done|]. simpl.
  destruct (String.eqb_spec k' k) as [->|Hne]; [by left|right; auto].
Qed.

(** The command line only assigns under names it took from the dictionary
    itself. *)
Lemma configure_never_raises args self : never_raises (Cli.configure args self).
Proof.
  unfold Cli.configure.
  apply never_raises_bind; [|intros _; apply never_raises_bind; [|intros _]].
  - destruct (Cli.ns_all args); [|destruct (Cli.ns_none args)];
      [apply never_raises_for_each; intros name Hin;
       by apply set_task_enabled_present ..
      |apply never_raises_ret].
  - apply never_raises_for_each. intros name Hin.
    destruct (dict_get _ _) as [[v|]|];
      [by apply set_task_enabled_present|apply never_raises_ret ..].
  - apply never_raises_for_each. intros name Hin.
    destruct (dict_get _ _) as [[[]|]|];
      [by apply set_option_enabled_present|apply never_raises_ret ..].
Qed.

(** The window tests the key before it assigns. *)
Lemma update_core_never_raises w : never_raises (Gui.update_core w).
Proof.
  unfold Gui.update_core. apply never_raises_bind; [|intros _].
  - apply never_raises_for_each. intros [key cb] _. simpl.
    destruct (dict_mem _ _) eqn:Hm; [|apply never_raises_ret].
    by apply set_task_enabled_present, dict_mem_keys.
  - apply never_raises_for_each. intros [key sw] _. simpl.
    destruct (dict_mem _ _) eqn:Hm; [|apply never_raises_ret].
    by apply set_option_enabled_present, dict_mem_keys.
Qed.

(** C7. The subscripted assignment [core.tasks[name].enabled = v] raises
    [KeyError] and leaves the store as it is when [name] is not a key; when
    [name] is a key it ends normally and changes nothing but the [enabled]
    attribute of the one object the key refers to; the same holds for
    options. The two callers never meet the first case: the command line
    assigns under the keys of the core only, and the window tests
    [key in ...] first, so that for a key that is absent it assigns
    nothing. *)
Theorem set_enabled_by_name (self : FedorableCore) (st : store) (name : string)
    (v : bool) :
  (dict_get (tasks self) name = None →
   set_task_enabled self name v st = (Raised (KeyError name), st)) ∧
  (∀ l, dict_get (tasks self) name = Some l →
     ∃ st', set_task_enabled self name v st = (Normal (), st') ∧
       option_objs st' = option_objs st ∧
       length (task_objs st') = length (task_objs st) ∧
       (∀ l', l' ≠ l → task_objs st' !! l' = task_objs st !! l') ∧
       (∀ t, task_objs st !! l = Some t →
          ∃ t', task_objs st' !! l = Some t' ∧
                task_same t t' ∧ task_enabled t' = v)) ∧
  (dict_get (options self) name = None →
   set_option_enabled self name v st = (Raised (KeyError name), st)) ∧
  (∀ l, dict_get (options self) name = Some l →
     ∃ st', set_option_enabled self name v st = (Normal (), st') ∧
       task_objs st' = task_objs st ∧
       length (option_objs st') = length (option_objs st) ∧
       (∀ l', l' ≠ l → option_objs st' !! l' = option_objs st !! l') ∧
       (∀ o, option_objs st !! l = Some o →
          ∃ o', option_objs st' !! l = Some o' ∧
                option_same o o' ∧ option_enabled o' = v)) ∧
  (∀ args, never_raises (Cli.configure args self)) ∧
  (∀ cbs sws, never_raises (Gui.update_core (Gui.mkMainWindow false self cbs sws))) ∧
  (dict_get (tasks self) name = None →
   Gui.update_core (Gui.mkMainWindow false self [(name, v)] []) st
     = (Normal (), st)) ∧
  (dict_get (options self) name = None →
   Gui.update_core (Gui.mkMainWindow false self [] [(name, v)]) st
     = (Normal (), st)).
Proof.
  repeat split.
  - intros Hg. unfold set_task_enabled. by rewrite Hg.
  - intros l Hg. unfold set_task_enabled. rewrite Hg. eexists. split; [done|].
    simpl. split; [done|]. split; [apply length_alter|]. split.
    + intros l' Hne. by apply list_lookup_alter_ne.
    + intros t Hl. exists (task_set_enabled v t).
      rewrite list_lookup_alter_eq, Hl. by repeat split.
  - intros Hg. unfold set_option_enabled. by rewrite Hg.
  - intros l Hg. unfold set_option_enabled. rewrite Hg. eexists. split; [done|].
    simpl. split; [done|]. split; [apply length_alter|]. split.
    + intros l' Hne. by apply list_lookup_alter_ne.
    + intros o Hl. exists (option_set_enabled v o).
      rewrite list_lookup_alter_eq, Hl. by repeat split.
  - intros args. apply configure_never_raises.
  - intros cbs sws. apply update_core_never_raises.
  - intros Hg. unfold Gui.update_core, bind, dict_mem. simpl. by rewrite Hg.
  - intros Hg. unfold Gui.update_core, bind, dict_mem. simpl. by rewrite Hg.
Qed.

Lemma set_enabled_by_name_witness :
  dict_get (tasks example_c) "trim" = Some 21 ∧
  dict_get (tasks example_c) "bogus" = None ∧
  set_task_enabled example_c "bogus" false example_st
    = (Raised (KeyError "bogus"), example_st) ∧
  (∃ st', set_task_enabled example_c "trim" false example_st = (Normal (), st') ∧
          option_objs st' = option_objs example_st ∧
          ∀ l', l' ≠ 21 → task_objs st' !! l' = task_objs example_st !! l') ∧
  Gui.update_core odd_window example_st = (Normal (), example_st).
Proof.
  destruct (set_enabled_by_name example_c example_st "bogus" false)
    as (Hbogus & _ & _ & _ & _ & _ & Hgui & _).
  destruct (set_enabled_by_name example_c example_st "trim" false)
    as (_ & Htrim & _).
  assert (H1 : dict_get (tasks example_c) "trim" = Some 21)
    by (vm_compute; reflexivity).
  assert (H2 : dict_get (tasks example_c) "bogus" = None)
    by (vm_compute; reflexivity).
  split; [exact H1|]. split; [exact H2|]. split; [exact (Hbogus H2)|].
  split; [|exact (Hgui H2)].
  destruct (Htrim 21 H1) as (st' & Hs & Ho & _ & Hother & _).
  exists st'. split; [exact Hs|]. split; [exact Ho|exact Hother].
Defined.

(** ** The runner's invariant *)

Lemma stream_calls_app (b : bool) (c1 c2 : list (string * bool)) :
  stream_calls b (c1 ++ c2) = stream_calls b c1 ++ stream_calls b c2.
Proof. unfold stream_calls. by rewrite List.filter_app, List.map_app. Qed.

Lemma stream_calls_snoc (b b' : bool) (cs : list (string * bool)) (line : string) :
  stream_calls b (cs ++ [(line, b')]) =
    stream_calls b cs ++ (if Bool.eqb b' b then [line] else []).
Proof.
  rewrite stream_calls_app. f_equal. unfold stream_calls. simpl.
  by destruct (Bool.eqb b' b).
Qed.

Lemma init_run_inv (callback : callback_fn) (ch : Child) :
  run_inv callback ch (init_run ch).
Proof. unfold run_inv, init_run. simpl. by repeat split. Qed.

(** A call that raised stays in the list of calls. *)
Lemma raised_snoc (callback : callback_fn) (cs : list (string * bool))
    (c : string * bool) :
  Exists (λ c, callback c.1 c.2 = false) cs →
  Exists (λ c, callback c.1 c.2 = false) (cs ++ [c]).
Proof. intros H. apply Exists_app. by left. Qed.

Lemma raised_last (callback : callback_fn) (cs : list (string * bool))
    (line : string) (b : bool) :
  callback line b = false →
  Exists (λ c, callback c.1 c.2 = false) (cs ++ [(line, b)]).
Proof. intros H. apply Exists_app. right. by constructor. Qed.

Lemma step_inv (callback : callback_fn) (ch : Child) (a : agent)
    (s s' : run_state) :
  step callback ch a s = Some s' → run_inv callback ch s → run_inv callback ch s'.
Proof.
  destruct s as [e op ep ot et p cs]. unfold run_inv, step, _read_output.
  destruct a; simpl.
  - (* main thread *)
    destruct p; simpl; intros Hs (H1 & H2 & H3 & H4 & H5 & H6 & H7);
      repeat match type of Hs with
             | context [if ?b then _ else _] => destruct b eqn:?
             end; simplify_eq; simpl;
      (split; [exact H1|]); (split; [exact H2|]);
      (split; [first [exact H3 | done]|]); (split; [first [exact H4 | done]|]);
      (split; [first [exact H5 | done]|]); (split; [first [exact H6 | done]|]);
      intuition (try congruence).
  - (* stdout reader *)
    intros Hs (H1 & H2 & H3 & H4 & H5 & H6 & H7).
    destruct ot; try done. destruct op as [|line rest]; simpl in Hs.
    + destruct (utf8_valid (child_stdout ch)) eqn:Hv; simpl in Hs.
      * destruct e; simpl in Hs; simplify_eq. simpl.
        split; [exact H1|]. split; [exact H2|]. split; [done|].
        split; [exact H4|]. split; [done|]. split; [exact H6|].
        destruct p; intuition (try congruence).
      * simplify_eq. simpl.
        split; [exact H1|]. split; [exact H2|]. split; [done|].
        split; [exact H4|]. split; [by left|]. split; [exact H6|].
        destruct p; intuition (try congruence).
    + simplify_eq. simpl. rewrite !stream_calls_snoc. simpl.
      rewrite app_nil_r, <- app_assoc. simpl.
      split; [exact H1|]. split; [exact H2|].
      destruct (callback line false) eqn:Hc.
      * split; [done|]. split; [exact H4|]. split; [done|].
        split.
        { intros Hd. destruct (H6 Hd) as [?|?]; [by left|].
          right. by apply raised_snoc. }
        destruct p; intuition (try congruence).
      * split; [done|]. split; [exact H4|].
        split; [intros _; right; by apply raised_last|].
        split.
        { intros Hd. destruct (H6 Hd) as [?|?]; [by left|].
          right. by apply raised_snoc. }
        destruct p; intuition (try congruence).
  - (* stderr reader *)
    intros Hs (H1 & H2 & H3 & H4 & H5 & H6 & H7).
    destruct et; try done. destruct ep as [|line rest]; simpl in Hs.
    + destruct (utf8_valid (child_stderr ch)) eqn:Hv; simpl in Hs.
      * destruct e; simpl in Hs; simplify_eq. simpl.
        split; [exact H1|]. split; [exact H2|]. split; [exact H3|].
        split; [done|]. split; [exact H5|]. split; [done|].
        destruct p; intuition (try congruence).
      * simplify_eq. simpl.
        split; [exact H1|]. split; [exact H2|]. split; [exact H3|].
        split; [done|]. split; [exact H5|]. split; [by left|].
        destruct p; intuition (try congruence).
    + simplify_eq. simpl. rewrite !stream_calls_snoc. simpl.
      rewrite app_nil_r, <- app_assoc. simpl.
      split; [exact H1|]. split; [exact H2|].
      destruct (callback line true) eqn:Hc.
      * split; [exact H3|]. split; [done|].
        split.
        { intros Hd. destruct (H5 Hd) as [?|?]; [by left|].
          right. by apply raised_snoc. }
        split; [done|].
        destruct p; intuition (try congruence).
      * split; [exact H3|]. split; [done|].
        split.
        { intros Hd. destruct (H5 Hd) as [?|?]; [by left|].
          right. by apply raised_snoc. }
        split; [intros _; right; by apply raised_last|].
        destruct p; intuition (try congruence).
  - (* the child ends *)
    destruct e; [done|]. intros Hs (H1 & H2 & H3 & H4 & H5 & H6 & H7).
    simplify_eq. simpl.
    split; [exact H1|]. split; [exact H2|].
    split; [intros Hf; by destruct (H3 Hf)|].
    split; [intros Hf; by destruct (H4 Hf)|].
    split; [exact H5|]. split; [exact H6|].
    destruct p; intuition (try congruence).
  - (* the reader of stdout meets bytes that do not decode *)
    intros Hs (H1 & H2 & H3 & H4 & H5 & H6 & H7).
    destruct ot; try done.
    destruct (utf8_valid (child_stdout ch)) eqn:Hv; [done|]. simplify_eq. simpl.
    split; [exact H1|]. split; [exact H2|]. split; [done|].
    split; [exact H4|]. split; [by left|]. split; [exact H6|].
    destruct p; intuition (try congruence).
  - (* the reader of stderr meets bytes that do not decode *)
    intros Hs (H1 & H2 & H3 & H4 & H5 & H6 & H7).
    destruct et; try done.
    destruct (utf8_valid (child_stderr ch)) eqn:Hv; [done|]. simplify_eq. simpl.
    split; [exact H1|]. split; [exact H2|]. split; [exact H3|].
    split; [done|]. split; [exact H5|]. split; [by left|].
    destruct p; intuition (try congruence).
Qed.

Lemma exec_inv (callback : callback_fn) (ch : Child) (sched : list agent) :
  ∀ s s', exec callback ch sched s = Some s' →
          run_inv callback ch s → run_inv callback ch s'.
Proof.
  induction sched as [|a sched IH]; intros s s' He Hi; simpl in He.
  - by injection He as <-.
  - destruct (step callback ch a s) as [s1|] eqn:Hs; [simpl in He|done].
    eapply IH; [exact He|]. by eapply step_inv.
Qed.

(** Every step uses up at least one unit of the measure. *)
Lemma step_measure (callback : callback_fn) (ch : Child) (a : agent)
    (s s' : run_state) :
  step callback ch a s = Some s' → run_inv callback ch s →
  run_measure s' < run_measure s.
Proof.
  destruct s as [e op ep ot et p cs].
  unfold run_inv, run_measure, step, _read_output, thread_rank.
  destruct a; simpl.
  - destruct p; simpl; intros Hs (_ & _ & _ & _ & _ & _ & H7);
      destruct e, ot, et; simpl in *; simplify_eq; simpl;
      first [lia | intuition congruence].
  - destruct ot; try done. destruct op as [|line rest]; simpl; intros Hs _.
    + destruct (utf8_valid (child_stdout ch)); simpl in Hs;
        [destruct e; simpl in Hs|]; simplify_eq; simpl; lia.
    + simplify_eq. simpl. destruct (callback line false); simpl; lia.
  - destruct et; try done. destruct ep as [|line rest]; simpl; intros Hs _.
    + destruct (utf8_valid (child_stderr ch)); simpl in Hs;
        [destruct e; simpl in Hs|]; simplify_eq; simpl; lia.
    + simplify_eq. simpl. destruct (callback line true); simpl; lia.
  - destruct e; [done|]. intros Hs _. simplify_eq. simpl. lia.
  - destruct ot; try done.
    destruct (utf8_valid (child_stdout ch)); [done|].
    intros Hs _. simplify_eq. simpl. lia.
  - destruct et; try done.
    destruct (utf8_valid (child_stderr ch)); [done|].
    intros Hs _. simplify_eq. simpl. lia.
Qed.


(** No deadlock: until the main thread has returned, some agent can move. *)
Lemma step_progress (callback : callback_fn) (ch : Child) (s : run_state) :
  run_inv callback ch s → (∀ rc, pc s ≠ Returned rc) →
  ∃ a s', step callback ch a s = Some s'.
Proof.
  destruct s as [e op ep ot et p cs]. unfold run_inv. simpl.
  intros (_ & _ & _ & _ & _ & _ & H7) Hp.
  destruct p as [| | |rc|rc|rc].
  - exists MainThread. simpl. eauto.
  - exists MainThread. simpl. eauto.
  - destruct e.
    + exists MainThread. simpl. eauto.
    + exists ChildProcess. simpl. eauto.
  - destruct H7 as (Ho & _ & -> & _). destruct ot; [done| | |].
    + exists StdoutReader. unfold step, _read_output. simpl.
      destruct op; simpl; [|eauto].
      destruct (utf8_valid (child_stdout ch)); simpl; eauto.
    + exists MainThread. simpl. eauto.
    + exists MainThread. simpl. eauto.
  - destruct H7 as (_ & He & -> & _). destruct et; [done| | |].
    + exists StderrReader. unfold step, _read_output. simpl.
      destruct ep; simpl; [|eauto].
      destruct (utf8_valid (child_stderr ch)); simpl; eauto.
    + exists MainThread. simpl. eauto.
    + exists MainThread. simpl. eauto.
  - by destruct (Hp rc).
Qed.

(** From every state of a run, the run can be brought to its end, where the
    main thread returns the child's status. *)
Lemma exec_completes (callback : callback_fn) (ch : Child) : ∀ n s,
  run_measure s = n → run_inv callback ch s →
  ∃ sched s', exec callback ch sched s = Some s' ∧
              pc s' = Returned (child_returncode ch).
Proof.
  induction n as [n IH] using lt_wf_ind. intros s Hn Hi.
  destruct (pc s) as [| | |rc|rc|rc] eqn:Hp;
    try (destruct (step_progress callback ch s Hi) as (a & s1 & Hs);
         [intros rc'; congruence|];
         pose proof (step_measure _ _ _ _ _ Hs Hi) as Hm;
         destruct (IH (run_measure s1) ltac:(lia) s1 eq_refl
                     (step_inv _ _ _ _ _ Hs Hi)) as (sched & s' & He & Hr);
         exists (a :: sched), s'; simpl; rewrite Hs; by split).
  exists [], s. split; [done|].
  destruct Hi as (_ & _ & _ & _ & _ & _ & H7). rewrite Hp in H7.
  destruct H7 as (_ & _ & _ & ->). exact Hp.
Qed.

(** ** Lines and texts *)

Lemma joined_split_lines (s : string) : joined (split_lines s) = s.
Proof.
  induction s as [|c s IH]; [done|]. simpl.
  destruct (Ascii.eqb c LF); simpl; [by rewrite IH|].
  destruct (split_lines s) as [|line rest]; simpl in *; by rewrite <- IH.
Qed.

Lemma utf8_valid_prefix (s : string) :
  utf8_valid s = true → decodable_prefix s = s.
Proof. unfold utf8_valid. apply String.eqb_eq. Qed.

Lemma joined_pipe_lines (raw : string) :
  utf8_valid raw = true → joined (pipe_lines raw) = universal_newlines raw.
Proof.
  intros Hv. unfold pipe_lines. rewrite (utf8_valid_prefix raw Hv).
  apply joined_split_lines.
Qed.

Lemma universal_newlines_no_CR (s : string) :
  has_CR s = false → universal_newlines s = s.
Proof.
  induction s as [|c s IH]; [done|]. simpl.
  destruct (Ascii.eqb c CR); [done|]. simpl. intros H. by rewrite IH.
Qed.

(** ** The blocking runner *)

(** What holds when [_run_with_callback] has returned. *)
Lemma returned_state (callback : callback_fn) (ch : Child) (s : run_state)
    (rc : Z) :
  run_inv callback ch s → pc s = Returned rc →
  rc = child_returncode ch ∧ exited s = true ∧
  ended (stdout_thread s) = true ∧ ended (stderr_thread s) = true.
Proof.
  intros (_ & _ & _ & _ & _ & _ & H7) Hp. rewrite Hp in H7.
  destruct H7 as (Ho & He & Hx & ->). by repeat split.
Qed.

(** A reader that ended did so at the end of its loop, when its stream
    decodes and no call of the callback raises. *)
Lemma never_died (callback : callback_fn) (raw : string)
    (cs : list (string * bool)) (t : thread_state) :
  utf8_valid raw = true →
  (∀ line is_stderr, callback line is_stderr = true) →
  (t = Died → utf8_valid raw = false ∨
              Exists (λ c, callback c.1 c.2 = false) cs) →
  ended t = true → t = Finished.
Proof.
  intros Hv Hcb Hd He. destruct t; try done.
  destruct (Hd eq_refl) as [H|H]; [congruence|].
  apply Exists_exists in H as ([line b] & _ & H). simpl in H.
  rewrite Hcb in H. discriminate H.
Qed.

(** What holds besides when both streams decode and the callback returns. *)
Lemma returned_drained (callback : callback_fn) (ch : Child) (s : run_state)
    (rc : Z) :
  utf8_valid (child_stdout ch) = true →
  utf8_valid (child_stderr ch) = true →
  (∀ line is_stderr, callback line is_stderr = true) →
  run_inv callback ch s → pc s = Returned rc →
  stdout_thread s = Finished ∧ stderr_thread s = Finished ∧
  stdout_pipe s = [] ∧ stderr_pipe s = [] ∧
  stream_calls false (calls s) = pipe_lines (child_stdout ch) ∧
  stream_calls true (calls s) = pipe_lines (child_stderr ch).
Proof.
  intros Hvo Hve Hcb Hi Hp.
  destruct (returned_state _ _ _ _ Hi Hp) as (_ & _ & Ho & He).
  destruct Hi as (H1 & H2 & H3 & H4 & H5 & H6 & _).
  pose proof (never_died callback _ (calls s) _ Hvo Hcb H5 Ho) as Hfo.
  pose proof (never_died callback _ (calls s) _ Hve Hcb H6 He) as Hfe.
  destruct (H3 Hfo) as [Hop _]. destruct (H4 Hfe) as [Hep _].
  rewrite Hop, app_nil_r in H1. rewrite Hep, app_nil_r in H2.
  by repeat split.
Qed.

Lemma run_exec_inv os st self use_pkexec callback tr res st' :
  run_exec os st self use_pkexec callback tr res st' →
  st' = st ∧
  ((is_script_executable os self = false ∧ tr = [] ∧
    res = Raised (FileNotFoundError
                    ("Script not found or not executable: " +:+ script_path self))) ∨
   (is_script_executable os self = true ∧
    ∃ command, build_command st self use_pkexec = Some command ∧
      ((spawn os command = None ∧ tr = [] ∧ res = Raised OSError) ∨
       (∃ ch, spawn os command = Some ch ∧
          ((callback = None ∧ tr = [Spawn command] ∧
            res = Normal (child_returncode ch)) ∨
           (∃ cb sched s rc, callback = Some cb ∧
              exec cb ch sched (init_run ch) = Some s ∧
              pc s = Returned rc ∧ res = Normal rc ∧
              tr = Spawn command :: map (λ c, Callback c.1 c.2) (calls s))))))).
Proof.
  intros (l & Hrun & Hruns & ->). split; [done|]. unfold run in Hrun.
  destruct (is_script_executable os self); simpl in Hrun.
  - right. split; [done|].
    destruct (build_command st self use_pkexec) as [command|]; [|done].
    simpl in Hrun. injection Hrun as <-. exists command. split; [done|].
    destruct callback as [cb|]; inversion Hruns; subst.
    + left. by repeat split.
    + right. exists ch. split; [done|]. right.
      exists cb, sched, s, rc. by repeat split.
    + left. by repeat split.
    + right. exists ch. split; [done|]. left. by repeat split.
  - left. injection Hrun as <-. by inversion Hruns.
Qed.

(** Once the script is executable, the command compiled and the launch gives
    a child, there is an execution of [run] that returns the child's
    status. *)
Lemma run_exec_returns os st self use_pkexec callback command ch :
  is_script_executable os self = true →
  build_command st self use_pkexec = Some command →
  spawn os command = Some ch →
  ∃ tr, run_exec os st self use_pkexec callback tr
          (Normal (child_returncode ch)) st.
Proof.
  intros Hx Hb Hsp. destruct callback as [cb|].
  - destruct (exec_completes cb ch _ (init_run ch) eq_refl (init_run_inv cb ch))
      as (sched & s & He & Hp).
    eexists. exists (Normal (RunWithCallback command cb)).
    unfold run. rewrite Hx, Hb. simpl. split; [done|]. split; [|done].
    by eapply runs_with_callback.
  - eexists. exists (Normal (SubprocessCall command)).
    unfold run. rewrite Hx, Hb. simpl. split; [done|]. split; [|done].
    by apply runs_call.
Qed.

(** What a caller of [run] with a callback sees once the script is
    executable and the launch gives the child [ch]. *)
Lemma run_with_callback_parts os st self use_pkexec cb tr res st' command ch :
  is_script_executable os self = true →
  build_command st self use_pkexec = Some command →
  spawn os command = Some ch →
  run_exec os st self use_pkexec (Some cb) tr res st' →
  st' = st ∧ res = Normal (child_returncode ch) ∧
  ∃ sched s,
    exec cb ch sched (init_run ch) = Some s ∧
    pc s = Returned (child_returncode ch) ∧
    tr = Spawn command :: map (λ c, Callback c.1 c.2) (calls s) ∧
    run_inv cb ch s.
Proof.
  intros Hx Hb Hsp Hr.
  apply run_exec_inv in Hr as [-> [(Hx' & _)|(_ & Hr)]]; [congruence|].
  split; [done|].
  destruct Hr as (command' & Hb' & Hr). rewrite Hb in Hb'. injection Hb' as <-.
  destruct Hr as [(Hn & _)|(ch' & Hsp' & Hr)]; [congruence|].
  rewrite Hsp in Hsp'. injection Hsp' as <-.
  destruct Hr as [(? & _)|(cb' & sched & s & rc & [= <-] & He & Hp & -> & ->)];
    [done|].
  pose proof (exec_inv _ _ _ _ _ He (init_run_inv cb ch)) as Hi.
  destruct (returned_state _ _ _ _ Hi Hp) as (-> & _).
  split; [done|]. by exists sched, s.
Qed.




(** C5. When the script path does not exist or is not executable, [run]
    raises [FileNotFoundError] and does nothing else: no process is launched,
    the callback is not called, and the store is what it was. *)
Theorem run_script_unavailable (os : OS) (st : store) (self : FedorableCore)
    (use_pkexec : bool) (callback : option callback_fn) :
  path_exists os (script_path self) = false ∨
  access_X_OK os (script_path self) = false →
  is_script_executable os self = false ∧
  ∀ tr res st',
    run_exec os st self use_pkexec callback tr res st' ↔
    tr = [] ∧
    res = Raised (FileNotFoundError
                    ("Script not found or not executable: " +:+ script_path self)) ∧
    st' = st.
Proof.
  intros H.
  assert (Hx : is_script_executable os self = false)
    by (unfold is_script_executable; apply andb_false_iff; exact H).
  split; [exact Hx|]. intros tr res st'. split.
  - intros Hr. apply run_exec_inv in Hr as [-> [(_ & -> & ->)|(Hx' & _)]];
      [done|congruence].
  - intros (-> & -> & ->). eexists. unfold run. rewrite Hx. simpl.
    split; [reflexivity|]. split; [constructor|done].
Qed.

Lemma run_script_unavailable_witness :
  is_script_executable bare_os example_c = false ∧
  run_exec bare_os example_st example_c true (Some returning) []
    (Raised (FileNotFoundError
               ("Script not found or not executable: " +:+ script_path example_c)))
    example_st.
Proof.
  destruct (run_script_unavailable bare_os example_st example_c true
              (Some returning) (or_intror eq_refl)) as [Hx H].
  split; [exact Hx|]. apply H. by repeat split.
Defined.

(** C6. When the script is executable and the launch gives a child, [run]
    ends normally with the child's exit status, whatever it is: there is such
    an execution, and no execution raises or returns anything else. *)
Theorem run_returns_exit_status (os : OS) (st : store) (self : FedorableCore)
    (use_pkexec : bool) (callback : option callback_fn)
    (command : list string) (ch : Child) :
  is_script_executable os self = true →
  build_command st self use_pkexec = Some command →
  spawn os command = Some ch →
  (∃ tr, run_exec os st self use_pkexec callback tr
           (Normal (child_returncode ch)) st) ∧
  (∀ tr res st', run_exec os st self use_pkexec callback tr res st' →
     res = Normal (child_returncode ch) ∧ st' = st).
Proof.
  intros Hx Hb Hsp. split; [by eapply run_exec_returns|].
  intros tr res st' Hr.
  apply run_exec_inv in Hr as [-> [(Hx' & _)|(_ & Hr)]]; [congruence|].
  split; [|done].
  destruct Hr as (command' & Hb' & Hr). rewrite Hb in Hb'. injection Hb' as <-.
  destruct Hr as [(Hn & _)|(ch' & Hsp' & Hr)]; [congruence|].
  rewrite Hsp in Hsp'. injection Hsp' as <-.
  destruct Hr as [(_ & _ & ->)|(cb & sched & s & rc & _ & He & Hp & -> & _)];
    [done|].
  pose proof (exec_inv _ _ _ _ _ He (init_run_inv cb ch)) as Hi.
  by destruct (returned_state _ _ _ _ Hi Hp) as (-> & _).
Qed.

Lemma run_returns_exit_status_witness :
  child_returncode example_child = 7%Z ∧
  (∃ tr, run_exec example_os example_st example_c true (Some returning) tr
           (Normal 7%Z) example_st) ∧
  (∀ tr res st',
     run_exec example_os example_st example_c true (Some returning) tr res st' →
     res = Normal 7%Z ∧ st' = example_st).
Proof.
  split; [reflexivity|].
  destruct (build_command example_st example_c true) as [command|] eqn:Hb;
    [|by vm_compute in Hb].
  exact (run_returns_exit_status example_os example_st example_c true
           (Some returning) command example_child eq_refl Hb eq_refl).
Defined.

(** ** The two front ends *)

Lemma append_empty_r (s : string) : String.append s EmptyString = s.
Proof.
  induction s as [|c s IH]; [done|].
  change (String c (String.append s EmptyString) = String c s). by rewrite IH.
Qed.

Lemma c_string_no_NUL (s : string) :
  has_NUL s = false → GuiRun.c_string s = s.
Proof.
  induction s as [|c s IH]; [done|]. simpl.
  destruct (Ascii.eqb c NUL); [done|]. simpl. intros H. by rewrite IH.
Qed.

Lemma plain_text_parts (s : string) :
  plain_text s = true →
  utf8_valid s = true ∧ has_CR s = false ∧ has_NUL s = false.
Proof.
  unfold plain_text. intros H.
  apply andb_true_iff in H as [H Hn]. apply andb_true_iff in H as [Hv Hc].
  apply negb_true_iff in Hn. apply negb_true_iff in Hc. by repeat split.
Qed.

(** The texts the window appends for a child that exited with plain output
    are the two streams, and the status it reports is the child's. *)
Lemma communication_finished_texts (undefined : Z) (message : string)
    (ch : Child) :
  plain_text (child_stdout ch) = true →
  plain_text (child_stderr ch) = true →
  (0 ≤ child_returncode ch)%Z →
  ∃ appended,
    GuiRun._on_process_communication_finished undefined message ch =
      (appended, ((child_returncode ch =? 0)%Z, child_returncode ch)) ∧
    joined (stream_calls false appended) = child_stdout ch ∧
    joined (stream_calls true appended) = child_stderr ch.
Proof.
  intros Ho He Hrc.
  destruct (plain_text_parts _ Ho) as (Hvo & _ & Hno).
  destruct (plain_text_parts _ He) as (Hve & _ & Hne).
  unfold GuiRun._on_process_communication_finished, GuiRun.get_exit_status,
    GuiRun.get_if_exited.
  rewrite !c_string_no_NUL, Hvo, Hve by done. simpl.
  rewrite (proj2 (Z.leb_le _ _) Hrc).
  eexists. split; [reflexivity|].
  rewrite !stream_calls_app.
  destruct (String.eqb_spec (child_stdout ch) "") as [->|_],
           (String.eqb_spec (child_stderr ch) "") as [->|_];
    simpl; by rewrite ?append_empty_r.
Qed.

(** The command of the window is what the core compiles, with escalation,
    from the configuration the window has just written into it. *)
Lemma gui_build_command_shared (w : Gui.MainWindow) (st st1 : store)
    (command : list string) :
  Gui.build_command w st = (Normal (Some command), st1) →
  Gui.update_core w st = (Normal (), st1) ∧
  build_command st1 (Gui.fedorable w) true = Some command.
Proof.
  unfold Gui.build_command, bind.
  destruct (Gui.update_core w st) as [[[]|e] st1']; [|done].
  intros [= Hb <-]. by split.
Qed.

(** C3, amended. Both front ends launch the command that the core's
    [build_command] compiles, the window always with escalation. They drain
    the child differently: [run] passes each line to the callback as the two
    reader threads get it, the window receives each stream whole when the
    child is done and appends it if it is not empty. Let the child have
    exited, with output on both streams that is valid UTF-8 and has no
    carriage return and no zero byte, and let every call of the callback
    return. Then the window's click runs to the completion callback, [run]
    has an execution that returns, and for every execution of [run] what the
    callback received for a stream, put together, is the text the window
    appends for that stream, which is the text the child wrote, and the value
    [run] returns is the exit status the window reports. *)
Theorem front_ends_same_text (undefined : Z) (message : string) (os : OS)
    (callback : callback_fn) (w : Gui.MainWindow) (st st1 : store)
    (command : list string) (ch : Child) :
  Gui.process w = false →
  is_script_executable os (Gui.fedorable w) = true →
  Gui.build_command w st = (Normal (Some command), st1) →
  spawn os command = Some ch →
  plain_text (child_stdout ch) = true →
  plain_text (child_stderr ch) = true →
  (0 ≤ child_returncode ch)%Z →
  (∀ line is_stderr, callback line is_stderr = true) →
  build_command st1 (Gui.fedorable w) true = Some command ∧
  (∃ tr, run_exec os st1 (Gui.fedorable w) true (Some callback) tr
           (Normal (child_returncode ch)) st1) ∧
  (∃ appended,
     GuiRun.on_run_clicked undefined message os w st =
       Some (GuiRun.Completed command appended
               (child_returncode ch =? 0)%Z (child_returncode ch), st1) ∧
     joined (stream_calls false appended) = child_stdout ch ∧
     joined (stream_calls true appended) = child_stderr ch ∧
     ∀ tr res st',
       run_exec os st1 (Gui.fedorable w) true (Some callback) tr res st' →
       st' = st1 ∧ res = Normal (child_returncode ch) ∧
       ∃ calls,
         tr = Spawn command :: map (λ c, Callback c.1 c.2) calls ∧
         joined (stream_calls false calls) = joined (stream_calls false appended) ∧
         joined (stream_calls true calls) = joined (stream_calls true appended)) ∧
  front_ends_agree undefined message os callback w st.
Proof.
  intros Hp Hx Hg Hsp Hpo Hpe Hrc Hcb.
  destruct (gui_build_command_shared _ _ _ _ Hg) as [_ Hb].
  destruct (communication_finished_texts undefined message ch Hpo Hpe Hrc)
    as (appended & Hfin & Hto & Hte).
  destruct (plain_text_parts _ Hpo) as (Hvo & Hco & _).
  destruct (plain_text_parts _ Hpe) as (Hve & Hce & _).
  assert (Hclick : GuiRun.on_run_clicked undefined message os w st =
                     Some (GuiRun.Completed command appended
                             (child_returncode ch =? 0)%Z (child_returncode ch),
                           st1)).
  { unfold GuiRun.on_run_clicked. rewrite Hp, Hx, Hg, Hsp. simpl.
    by rewrite Hfin. }
  assert (Hall : ∀ tr res st',
            run_exec os st1 (Gui.fedorable w) true (Some callback) tr res st' →
            st' = st1 ∧ res = Normal (child_returncode ch) ∧
            ∃ calls,
              tr = Spawn command :: map (λ c, Callback c.1 c.2) calls ∧
              joined (stream_calls false calls)
                = joined (stream_calls false appended) ∧
              joined (stream_calls true calls)
                = joined (stream_calls true appended)).
  { intros tr res st' Hr.
    destruct (run_with_callback_parts _ _ _ _ _ _ _ _ _ _ Hx Hb Hsp Hr)
      as (-> & -> & sched & s & He & Hpc & -> & Hi).
    split; [done|]. split; [done|]. exists (calls s). split; [done|].
    destruct (returned_drained _ _ _ _ Hvo Hve Hcb Hi Hpc)
      as (_ & _ & _ & _ & Ho & Her).
    rewrite Hto, Hte, Ho, Her, !joined_pipe_lines by done.
    by rewrite !universal_newlines_no_CR. }
  split; [exact Hb|]. split; [by eapply run_exec_returns|].
  split.
  - exists appended. split; [exact Hclick|]. split; [exact Hto|].
    split; [exact Hte|exact Hall].
  - exists command, appended, (child_returncode ch =? 0)%Z,
      (child_returncode ch), st1.
    split; [exact Hclick|]. intros tr res st' Hr.
    destruct (Hall tr res st' Hr) as (_ & Hres & Hcalls). by split.
Qed.

Lemma front_ends_same_text_witness :
  ∃ command appended,
    build_command example_st example_c true = Some command ∧
    GuiRun.on_run_clicked 1 "" example_os example_window example_st =
      Some (GuiRun.Completed command appended false 7%Z, example_st) ∧
    joined (stream_calls false appended) = child_stdout example_child ∧
    (∃ tr, run_exec example_os example_st example_c true (Some returning) tr
             (Normal 7%Z) example_st) ∧
    ∀ tr res st',
      run_exec example_os example_st example_c true (Some returning) tr res st' →
      st' = example_st ∧ res = Normal 7%Z ∧
      ∃ calls,
        tr = Spawn command :: map (λ c, Callback c.1 c.2) calls ∧
        joined (stream_calls false calls) = joined (stream_calls false appended) ∧
        joined (stream_calls true calls) = joined (stream_calls true appended).
Proof.
  destruct (Gui.build_command example_window example_st) as [[[command|]|e] st1]
    eqn:Hg; try (by vm_compute in Hg).
  assert (Hst : st1 = example_st)
    by (vm_compute in Hg; injection Hg as _ <-; vm_compute; reflexivity).
  subst st1.
  destruct (front_ends_same_text 1 "" example_os returning example_window
              example_st example_st command example_child eq_refl eq_refl Hg
              eq_refl eq_refl eq_refl ltac:(vm_compute; discriminate)
              (λ _ _, eq_refl))
    as (Hb & Hex & (appended & Hclick & Hto & _ & Hrun) & _).
  exists command, appended. split; [exact Hb|]. split; [exact Hclick|].
  split; [exact Hto|]. split; [exact Hex|exact Hrun].
Defined.

Lemma callbacks_inj (l1 l2 : list (string * bool)) :
  map (λ c, Callback c.1 c.2) l1 = map (λ c, Callback c.1 c.2) l2 → l1 = l2.
Proof.
  revert l2. induction l1 as [|[a1 b1] l1 IH]; intros [|[a2 b2] l2] H;
    try done; try discriminate H.
  simpl in H. injection H as -> -> H. by rewrite (IH l2 H).
Qed.

(** What agreement of the front ends says of one run of [run] that
    returned. *)
Lemma front_ends_agree_run (undefined : Z) (message : string) (os : OS)
    (callback : callback_fn) (w : Gui.MainWindow) (st st1 : store)
    (command : list string) (ch : Child) (sched : list agent) (s : run_state) :
  Gui.process w = false →
  is_script_executable os (Gui.fedorable w) = true →
  Gui.build_command w st = (Normal (Some command), st1) →
  spawn os command = Some ch →
  exec callback ch sched (init_run ch) = Some s →
  pc s = Returned (child_returncode ch) →
  front_ends_agree undefined message os callback w st →
  child_returncode ch =
    (GuiRun._on_process_communication_finished undefined message ch).2.2 ∧
  joined (stream_calls false (calls s)) =
    joined (stream_calls false
              (GuiRun._on_process_communication_finished undefined message ch).1) ∧
  joined (stream_calls true (calls s)) =
    joined (stream_calls true
              (GuiRun._on_process_communication_finished undefined message ch).1).
Proof.
  intros Hp Hx Hg Hsp He Hpc
    (command' & appended & success & exit_status & st1' & Hclick & H).
  destruct (gui_build_command_shared _ _ _ _ Hg) as [_ Hb].
  unfold GuiRun.on_run_clicked in Hclick. rewrite Hp, Hx, Hg, Hsp in Hclick.
  simpl in Hclick.
  destruct (GuiRun._on_process_communication_finished undefined message ch)
    as [appended' [success' exit_status']].
  injection Hclick as <- <- <- <- <-.
  assert (Hr : run_exec os st1 (Gui.fedorable w) true (Some callback)
                 (Spawn command :: map (λ c, Callback c.1 c.2) (calls s))
                 (Normal (child_returncode ch)) st1).
  { exists (Normal (RunWithCallback command callback)).
    split; [unfold run; by rewrite Hx, Hb|]. split; [|done].
    by apply (runs_with_callback _ _ _ ch sched s). }
  destruct (H _ _ _ Hr) as (Hres & calls' & Htr & Hout & Herr).
  injection Htr as Htr. apply callbacks_inj in Htr. subst calls'.
  injection Hres as Hres. by split.
Qed.

(** The run in which the agents move as in [draining n]. *)
Ltac run_draining cb ch n s He Hp Es :=
  destruct (exec cb ch (draining n) (init_run ch)) as [s|] eqn:He;
    [|by vm_compute in He];
  pose proof He as Es; vm_compute in Es; injection Es as Es;
  assert (Hp : pc s = Returned (child_returncode ch)) by (by rewrite <- Es).

(** C3 as stated fails. On the example window, in an operating system that
    launches the child named, the two front ends differ. For a line ended by
    a carriage return and a line feed, the callback receives the line ended
    by a line feed alone, the window the bytes as written. For a line with a
    zero byte, the callback receives the whole line, the window the text
    before the zero byte. For a line that is not valid UTF-8, the callback
    receives nothing, the window appends an error message. For a child
    killed by signal 9, [run] returns -9, the window reports an exit status,
    which is not negative. And when the first call of the callback raises,
    the callback receives the first line only, the window the whole text. *)
Lemma front_ends_differ_counterexample :
  (∀ undefined message,
     ¬ front_ends_agree undefined message (launching cr_child) returning
         example_window example_st) ∧
  (∀ undefined message,
     ¬ front_ends_agree undefined message (launching nul_child) returning
         example_window example_st) ∧
  (∀ undefined message,
     ¬ front_ends_agree undefined message (launching undecodable_child)
         returning example_window example_st) ∧
  (∀ undefined message, (0 ≤ undefined)%Z →
     ¬ front_ends_agree undefined message (launching killed_child) returning
         example_window example_st) ∧
  (∀ undefined message,
     ¬ front_ends_agree undefined message (launching example_child) raising
         example_window example_st).
Proof.
  destruct (Gui.build_command example_window example_st) as [[[command|]|e] st1]
    eqn:Hg; try (by vm_compute in Hg).
  split; [|split; [|split; [|split]]]; intros undefined message.
  - intros H. run_draining returning cr_child 1 s He Hp Es.
    destruct (front_ends_agree_run undefined message (launching cr_child)
                returning example_window example_st st1 command cr_child
                (draining 1) s eq_refl eq_refl Hg eq_refl He Hp H)
      as (_ & Hout & _).
    rewrite <- Es in Hout. vm_compute in Hout. discriminate Hout.
  - intros H. run_draining returning nul_child 1 s He Hp Es.
    destruct (front_ends_agree_run undefined message (launching nul_child)
                returning example_window example_st st1 command nul_child
                (draining 1) s eq_refl eq_refl Hg eq_refl He Hp H)
      as (_ & Hout & _).
    rewrite <- Es in Hout. vm_compute in Hout. discriminate Hout.
  - intros H. run_draining returning undecodable_child 0 s He Hp Es.
    destruct (front_ends_agree_run undefined message
                (launching undecodable_child) returning example_window
                example_st st1 command undecodable_child
                (draining 0) s eq_refl eq_refl Hg eq_refl He Hp H)
      as (_ & _ & Herr).
    rewrite <- Es in Herr. vm_compute in Herr. discriminate Herr.
  - intros Hu H. run_draining returning killed_child 0 s He Hp Es.
    destruct (front_ends_agree_run undefined message (launching killed_child)
                returning example_window example_st st1 command killed_child
                (draining 0) s eq_refl eq_refl Hg eq_refl He Hp H)
      as (Hrc & _ & _).
    vm_compute in Hrc. lia.
  - intros H. run_draining raising example_child 0 s He Hp Es.
    destruct (front_ends_agree_run undefined message example_os
                raising example_window example_st st1 command example_child
                (draining 0) s eq_refl eq_refl Hg eq_refl He Hp H)
      as (_ & Hout & _).
    rewrite <- Es in Hout. vm_compute in Hout. discriminate Hout.
Qed.

(** * Further properties *)

Ltac decide_it := apply (bool_decide_unpack _); vm_compute; reflexivity.

(** ** Dictionaries *)

Lemma dict_get_In {V : Type} (d : dict V) (k : string) (v : V) :
  dict_get d k = Some v → In (k, v) d.
Proof.
  induction d as [|[k' v'] d IH]; [done|]. simpl.
  destruct (String.eqb_spec k' k) as [->|Hne]; [intros [= ->]; by left|].
  right. auto.
Qed.

(** No object under two keys: the key of an object is determined. *)
Lemma dict_get_inj {V : Type} (d : dict V) (a b : string) (v : V) :
  NoDup (dict_values d) → dict_get d a = Some v → dict_get d b = Some v → a = b.
Proof.
  induction d as [|[k' v'] d IH]; [done|]. simpl.
  intros [Hnin Hnd]%NoDup_cons.
  destruct (String.eqb_spec k' a) as [Ha|Ha], (String.eqb_spec k' b) as [Hb|Hb].
  - congruence.
  - intros [= ->] Hg. destruct Hnin. apply list_elem_of_In.
    by eapply dict_get_values.
  - intros Hg [= ->]. destruct Hnin. apply list_elem_of_In.
    by eapply dict_get_values.
  - by apply IH.
Qed.

Lemma dict_get_None {V : Type} (d : dict V) (k : string) :
  dict_get d k = None ↔ ¬ In k (dict_keys d).
Proof.
  split.
  - intros Hn Hin. apply dict_get_keys in Hin as [v Hv]. congruence.
  - intros Hn. destruct (dict_get d k) as [v|] eqn:Hg; [|done].
    destruct Hn. apply dict_get_In in Hg.
    unfold dict_keys. by apply (in_map fst) in Hg.
Qed.

(** ** What a new core holds *)

(** Reading through the dictionary that [__init__] builds gives the copy of
    what the registry has under the same key. *)
Lemma fresh_lookup {A : Type} (f : A → A) (xs : list A) (name : string) :
  ∀ (d : dict loc) (ys pre : list A) (l : loc) (y : A),
    deref xs d = Some ys →
    dict_get d name = Some l → xs !! l = Some y →
    (l' ← dict_get (zip (dict_keys d) (seq (length pre) (length d))) name;
     (pre ++ (f <$> ys)) !! l') = Some (f y).
Proof.
  induction d as [|[k lk] d IH]; intros ys pre l y Hd Hg Hl; [done|].
  rewrite deref_cons in Hd.
  destruct (xs !! lk) as [y0|] eqn:Hlk; [simpl in Hd|done].
  destruct (deref xs d) as [ys'|] eqn:Hd'; [|done].
  injection Hd as <-. simpl in Hg |- *.
  destruct (String.eqb k name).
  - injection Hg as <-. simpl. rewrite Hl in Hlk. injection Hlk as <-.
    by apply list_lookup_middle.
  - specialize (IH ys' (pre ++ [f y0]) l y eq_refl Hg Hl).
    rewrite length_app, Nat.add_1_r, <- app_assoc in IH. exact IH.
Qed.

Lemma fresh_lookup_None (name : string) (d : dict loc) (start : nat) :
  dict_get d name = None →
  dict_get (zip (dict_keys d) (seq start (length d))) name = None.
Proof.
  intros Hn. apply dict_get_None. apply dict_get_None in Hn.
  rewrite zip_keys; [done|]. unfold dict_keys. by rewrite length_map, length_seq.
Qed.

Lemma fresh_dict_ok (d : dict loc) (start n : nat) :
  NoDup (dict_keys d) → start + length d ≤ n →
  dict_ok n (zip (dict_keys d) (seq start (length d))).
Proof.
  intros Hnd Hle.
  assert (Hlen : length (dict_keys d) = length (seq start (length d)))
    by (unfold dict_keys; by rewrite length_map, length_seq).
  split; [|split].
  - by rewrite zip_keys.
  - rewrite zip_values by done. apply NoDup_ListNoDup, seq_NoDup.
  - apply Forall_forall. intros l Hin%list_elem_of_In.
    apply fresh_values in Hin. lia.
Qed.

(** X1. [__init__] on a registry whose entries are in the store gives a core
    with the given script path (the default one when none or an empty one is
    given), with the registry's keys in the registry's order, one object per
    key and no object under two keys; under each key it holds a task (an
    option) with the name, the description and the enabled state of the
    registry's entry, and a key the registry does not have is absent. The
    objects are new: every location in the core's dictionaries lies beyond
    the store that [__init__] found, so none is an object of the registry or
    of another core; and every object that was in the store is left as it
    was, so the registry reads as before. *)
Theorem init_copies_registry (default_script_path : string) (reg : registry)
    (path : option string) (st : store) (tmpl : list FedorableTask)
    (otmpl : list FedorableOption) :
  NoDup (dict_keys (TASKS reg)) →
  NoDup (dict_keys (OPTIONS reg)) →
  deref_tasks st (TASKS reg) = Some tmpl →
  deref_options st (OPTIONS reg) = Some otmpl →
  ∃ c st',
    FedorableCore_init default_script_path reg path st = Some (c, st') ∧
    script_path c =
      match path with
      | Some (String a p) => String a p
      | _ => default_script_path
      end ∧
    dict_keys (tasks c) = dict_keys (TASKS reg) ∧
    dict_keys (options c) = dict_keys (OPTIONS reg) ∧
    core_ok st' c ∧
    (∀ name, match registry_task st reg name with
             | Some t =>
                 ∃ t', lookup_task st' c name = Some t' ∧
                       task_name t' = task_name t ∧
                       task_description t' = task_description t ∧
                       task_enabled t' = task_enabled t
             | None => lookup_task st' c name = None
             end) ∧
    (∀ name, match registry_option st reg name with
             | Some o =>
                 ∃ o', lookup_option st' c name = Some o' ∧
                       option_name o' = option_name o ∧
                       option_description o' = option_description o ∧
                       option_enabled o' = option_enabled o
             | None => lookup_option st' c name = None
             end) ∧
    Forall (λ l, length (task_objs st) ≤ l) (dict_values (tasks c)) ∧
    Forall (λ l, length (option_objs st) ≤ l) (dict_values (options c)) ∧
    (∀ l, l < length (task_objs st) → task_objs st' !! l = task_objs st !! l) ∧
    (∀ l, l < length (option_objs st) →
          option_objs st' !! l = option_objs st !! l) ∧
    (∀ name, registry_task st' reg name = registry_task st reg name) ∧
    (∀ name, registry_option st' reg name = registry_option st reg name).
Proof.
  intros Hkt Hko Ht Ho.
  pose proof (deref_length _ _ _ Ht) as Hlt.
  pose proof (deref_length _ _ _ Ho) as Hlo.
  exists (init_core default_script_path reg path st), (init_store st tmpl otmpl).
  split; [by apply FedorableCore_init_ok|].
  split; [by destruct path as [[|a p]|]|].
  assert (Hzt : length (dict_keys (TASKS reg))
                = length (seq (length (task_objs st)) (length (TASKS reg))))
    by (unfold dict_keys; by rewrite length_map, length_seq).
  assert (Hzo : length (dict_keys (OPTIONS reg))
                = length (seq (length (option_objs st)) (length (OPTIONS reg))))
    by (unfold dict_keys; by rewrite length_map, length_seq).
  split; [by apply zip_keys|]. split; [by apply zip_keys|].
  split; [split; apply fresh_dict_ok; try done; simpl;
          rewrite length_app, length_fmap; lia|].
  split; [|split; [|split; [|split; [|split; [|split; [|split]]]]]].
  - intros name. unfold registry_task, lookup_task. simpl.
    destruct (dict_get (TASKS reg) name) as [l|] eqn:Hg; simpl.
    + destruct (task_objs st !! l) as [t|] eqn:Hl.
      * exists (task_copy t). split; [|done].
        exact (fresh_lookup task_copy (task_objs st) name (TASKS reg) tmpl
                 (task_objs st) l t Ht Hg Hl).
      * pose proof (dict_get_values _ _ _ Hg) as Hin.
        apply (deref_bound _ _ _ Ht), lookup_lt_is_Some in Hin as [t Htl].
        congruence.
    + by rewrite fresh_lookup_None.
  - intros name. unfold registry_option, lookup_option. simpl.
    destruct (dict_get (OPTIONS reg) name) as [l|] eqn:Hg; simpl.
    + destruct (option_objs st !! l) as [o|] eqn:Hl.
      * exists (option_copy o). split; [|done].
        exact (fresh_lookup option_copy (option_objs st) name (OPTIONS reg) otmpl
                 (option_objs st) l o Ho Hg Hl).
      * pose proof (dict_get_values _ _ _ Hg) as Hin.
        apply (deref_bound _ _ _ Ho), lookup_lt_is_Some in Hin as [o Hol].
        congruence.
    + by rewrite fresh_lookup_None.
  - apply Forall_forall. intros l Hin%list_elem_of_In.
    apply fresh_values in Hin. lia.
  - apply Forall_forall. intros l Hin%list_elem_of_In.
    apply fresh_values in Hin. lia.
  - intros l Hl. simpl. by apply lookup_app_l.
  - intros l Hl. simpl. by apply lookup_app_l.
  - intros name. unfold registry_task. simpl.
    destruct (dict_get (TASKS reg) name) as [l|] eqn:Hg; [simpl|done].
    apply lookup_app_l, (deref_bound _ _ _ Ht). by eapply dict_get_values.
  - intros name. unfold registry_option. simpl.
    destruct (dict_get (OPTIONS reg) name) as [l|] eqn:Hg; [simpl|done].
    apply lookup_app_l, (deref_bound _ _ _ Ho). by eapply dict_get_values.
Qed.

Lemma small_core_ok : core_ok small_store small_core.
Proof. repeat split; decide_it. Defined.

(** ** Writing and reading by name *)

Lemma core_ok_lengths (st st' : store) (self : FedorableCore) :
  length (task_objs st') = length (task_objs st) →
  length (option_objs st') = length (option_objs st) →
  core_ok st self → core_ok st' self.
Proof. unfold core_ok. by intros -> ->. Qed.

Lemma dict_ok_lookup {A : Type} (xs : list A) (d : dict loc) (name : string)
    (l : loc) :
  dict_ok (length xs) d → dict_get d name = Some l → is_Some (xs !! l).
Proof.
  intros (_ & _ & Hb) Hg. apply lookup_lt_is_Some.
  rewrite Forall_forall in Hb. apply Hb, list_elem_of_In.
  by eapply dict_get_values.
Qed.

(** X2. In a core as [__init__] builds it (no key twice, no object under two
    keys, every object in the store), [core.tasks[name].enabled = v] for a
    key that is present ends normally;
    reading the key afterwards gives the task it had with [enabled] set to
    [v], reading any other task key or any option key gives what it gave
    before, and the dictionaries are as well formed as before. The same holds
    for options. *)
Theorem set_then_lookup (st : store) (self : FedorableCore) (name : string)
    (v : bool) :
  core_ok st self →
  (∀ t, lookup_task st self name = Some t →
     ∃ st', set_task_enabled self name v st = (Normal (), st') ∧
       lookup_task st' self name = Some (task_set_enabled v t) ∧
       (∀ other, other ≠ name →
          lookup_task st' self other = lookup_task st self other) ∧
       (∀ other, lookup_option st' self other = lookup_option st self other) ∧
       core_ok st' self) ∧
  (∀ o, lookup_option st self name = Some o →
     ∃ st', set_option_enabled self name v st = (Normal (), st') ∧
       lookup_option st' self name = Some (option_set_enabled v o) ∧
       (∀ other, other ≠ name →
          lookup_option st' self other = lookup_option st self other) ∧
       (∀ other, lookup_task st' self other = lookup_task st self other) ∧
       core_ok st' self).
Proof.
  intros [(Hkt & Hvt & Hbt) (Hko & Hvo & Hbo)]. split.
  - intros t Hl. unfold lookup_task in Hl.
    destruct (dict_get (tasks self) name) as [l|] eqn:Hg; [simpl in Hl|done].
    eexists. split; [unfold set_task_enabled; by rewrite Hg|].
    split; [|split; [|split]].
    + unfold lookup_task. rewrite Hg. simpl.
      by rewrite list_lookup_alter_eq, Hl.
    + intros other Hne. unfold lookup_task.
      destruct (dict_get (tasks self) other) as [l'|] eqn:Hg'; [simpl|done].
      apply list_lookup_alter_ne. intros <-. apply Hne.
      by apply (dict_get_inj (tasks self) other name l).
    + done.
    + apply (core_ok_lengths st); [simpl; by rewrite length_alter|done|].
      by split.
  - intros o Hl. unfold lookup_option in Hl.
    destruct (dict_get (options self) name) as [l|] eqn:Hg; [simpl in Hl|done].
    eexists. split; [unfold set_option_enabled; by rewrite Hg|].
    split; [|split; [|split]].
    + unfold lookup_option. rewrite Hg. simpl.
      by rewrite list_lookup_alter_eq, Hl.
    + intros other Hne. unfold lookup_option.
      destruct (dict_get (options self) other) as [l'|] eqn:Hg'; [simpl|done].
      apply list_lookup_alter_ne. intros <-. apply Hne.
      by apply (dict_get_inj (options self) other name l).
    + done.
    + apply (core_ok_lengths st); [done|simpl; by rewrite length_alter|].
      by split.
Qed.

(** ** How assignments compose *)

Lemma alter_alter_same {A : Type} (f g : A → A) (l : nat) (xs : list A) :
  alter f l (alter g l xs) = alter (f ∘ g) l xs.
Proof.
  apply list_eq. intros i. destruct (decide (i = l)) as [->|Hne].
  - rewrite !list_lookup_alter_eq. by destruct (xs !! l).
  - by rewrite !list_lookup_alter_ne.
Qed.

Lemma alter_alter_swap {A : Type} (f g : A → A) (l l' : nat) (xs : list A) :
  l ≠ l' → alter f l (alter g l' xs) = alter g l' (alter f l xs).
Proof.
  intros Hne. apply list_eq. intros i.
  destruct (decide (i = l)) as [Hl|Hl], (decide (i = l')) as [Hl'|Hl'].
  - congruence.
  - subst i. rewrite list_lookup_alter_eq, list_lookup_alter_ne by done.
    by rewrite list_lookup_alter_ne, list_lookup_alter_eq by done.
  - subst i. rewrite list_lookup_alter_ne, list_lookup_alter_eq by done.
    by rewrite list_lookup_alter_eq, list_lookup_alter_ne by done.
  - by rewrite !list_lookup_alter_ne by done.
Qed.

(** X3. Of two assignments to [enabled] under the same key one after the
    other, the second alone has the same effect and the same outcome, in any
    store and for any key; two assignments under different keys that are both
    present, in a core with no object under two keys, give the same store in
    either order; and an assignment to a task and one to an option, both
    present, give the same store in either order. *)
Theorem assignments_compose (st : store) (self : FedorableCore) :
  (∀ name v1 v2,
     (set_task_enabled self name v1 ;; set_task_enabled self name v2)%py st
       = set_task_enabled self name v2 st ∧
     (set_option_enabled self name v1 ;; set_option_enabled self name v2)%py st
       = set_option_enabled self name v2 st) ∧
  (NoDup (dict_values (tasks self)) →
   ∀ a b v1 v2, a ≠ b →
     In a (dict_keys (tasks self)) → In b (dict_keys (tasks self)) →
     (set_task_enabled self a v1 ;; set_task_enabled self b v2)%py st
       = (set_task_enabled self b v2 ;; set_task_enabled self a v1)%py st) ∧
  (NoDup (dict_values (options self)) →
   ∀ a b v1 v2, a ≠ b →
     In a (dict_keys (options self)) → In b (dict_keys (options self)) →
     (set_option_enabled self a v1 ;; set_option_enabled self b v2)%py st
       = (set_option_enabled self b v2 ;; set_option_enabled self a v1)%py st) ∧
  (∀ a b v1 v2,
     In a (dict_keys (tasks self)) → In b (dict_keys (options self)) →
     (set_task_enabled self a v1 ;; set_option_enabled self b v2)%py st
       = (set_option_enabled self b v2 ;; set_task_enabled self a v1)%py st).
Proof.
  split; [|split; [|split]].
  - intros name v1 v2. unfold bind, set_task_enabled, set_option_enabled.
    split.
    + destruct (dict_get (tasks self) name) as [l|]; [|done]. simpl.
      by rewrite alter_alter_same.
    + destruct (dict_get (options self) name) as [l|]; [|done]. simpl.
      by rewrite alter_alter_same.
  - intros Hnd a b v1 v2 Hne [la Ha]%dict_get_keys [lb Hb]%dict_get_keys.
    unfold bind, set_task_enabled. rewrite Ha, Hb. simpl. do 2 f_equal.
    symmetry. apply alter_alter_swap. intros <-. apply Hne.
    by apply (dict_get_inj (tasks self) a b la).
  - intros Hnd a b v1 v2 Hne [la Ha]%dict_get_keys [lb Hb]%dict_get_keys.
    unfold bind, set_option_enabled. rewrite Ha, Hb. simpl. do 2 f_equal.
    symmetry. apply alter_alter_swap. intros <-. apply Hne.
    by apply (dict_get_inj (options self) a b la).
  - intros a b v1 v2 [la Ha]%dict_get_keys [lb Hb]%dict_get_keys.
    unfold bind, set_task_enabled, set_option_enabled. by rewrite Ha, Hb.
Qed.

(** ** The wrapper token *)

Lemma append_disabled_tasks_cons (st : store) (x : string) (items : dict loc) :
  ∀ command,
    append_disabled_tasks st items (x :: command)
      = cons x <$> append_disabled_tasks st items command.
Proof.
  induction items as [|[k l] items IH]; intros command; [done|]. simpl.
  destruct (task_objs st !! l) as [t|]; [simpl|done].
  destruct (task_enabled t); simpl; apply IH.
Qed.

Lemma append_enabled_options_cons (st : store) (x : string) (items : dict loc) :
  ∀ command,
    append_enabled_options st items (x :: command)
      = cons x <$> append_enabled_options st items command.
Proof.
  induction items as [|[k l] items IH]; intros command; [done|]. simpl.
  destruct (option_objs st !! l) as [o|]; [simpl|done].
  destruct (option_enabled o); simpl; apply IH.
Qed.

(** X4. In every store and for every core, also one whose dictionaries refer
    to nothing, the command built with the wrapper is the token ["pkexec"]
    followed by the command built without it: the wrapper changes no other
    token, and one build fails exactly when the other does. *)
Theorem build_command_wrapper (st : store) (self : FedorableCore) :
  build_command st self true = cons "pkexec" <$> build_command st self false.
Proof.
  unfold build_command. rewrite append_disabled_tasks_cons.
  destruct (append_disabled_tasks st (tasks self) [script_path self]) as [c|];
    [simpl|done].
  apply append_enabled_options_cons.
Qed.

Lemma init_copies_registry_witness :
  ∃ c st',
    FedorableCore_init example_path shipped_registry None class_store
      = Some (c, st') ∧
    script_path c = example_path ∧
    dict_keys (tasks c) = dict_keys (TASKS shipped_registry) ∧
    core_ok st' c ∧
    Forall (λ l, length (task_objs class_store) ≤ l) (dict_values (tasks c)) ∧
    ∀ name, registry_task st' shipped_registry name
            = registry_task class_store shipped_registry name.
Proof.
  assert (H1 : NoDup (dict_keys (TASKS shipped_registry))) by decide_it.
  assert (H2 : NoDup (dict_keys (OPTIONS shipped_registry))) by decide_it.
  destruct (init_copies_registry example_path shipped_registry None class_store
              _ _ H1 H2 eq_refl eq_refl)
    as (c & st' & Hi & Hp & Hk & _ & Hok & _ & _ & Hnew & _ & _ & _ & Hreg & _).
  exists c, st'. split; [exact Hi|]. split; [exact Hp|].
  split; [exact Hk|]. split; [exact Hok|]. split; [exact Hnew|exact Hreg].
Defined.

Lemma set_then_lookup_witness :
  ∃ st',
    set_task_enabled small_core "update" false small_store = (Normal (), st') ∧
    (task_enabled <$> lookup_task st' small_core "update") = Some false ∧
    lookup_task st' small_core "clean_dnf"
      = lookup_task small_store small_core "clean_dnf".
Proof.
  destruct (set_then_lookup small_store small_core "update" false small_core_ok)
    as [Ht _].
  destruct (Ht _ eq_refl) as (st' & Hs & Hl & Ho & _).
  exists st'. split; [exact Hs|]. split; [by rewrite Hl|].
  apply Ho. discriminate.
Defined.

Lemma assignments_compose_witness :
  (set_task_enabled small_core "update" false ;;
   set_task_enabled small_core "clean_dnf" false)%py small_store
  = (set_task_enabled small_core "clean_dnf" false ;;
     set_task_enabled small_core "update" false)%py small_store.
Proof.
  destruct (assignments_compose small_store small_core) as (_ & H & _).
  apply H.
  - decide_it.
  - discriminate.
  - simpl. by left.
  - simpl. right. by left.
Defined.

(** ** The loops of the command line *)

Lemma for_each_ext {A : Type} (body body' : A → M unit) (xs : list A) :
  (∀ x, body x = body' x) → for_each xs body = for_each xs body'.
Proof.
  intros H. induction xs as [|x xs IH]; [done|]. simpl. by rewrite H, IH.
Qed.

Lemma task_set_enabled_same (t : FedorableTask) :
  task_set_enabled (task_enabled t) t = t.
Proof. by destruct t. Qed.

Lemma option_set_enabled_same (o : FedorableOption) :
  option_set_enabled (option_enabled o) o = o.
Proof. by destruct o. Qed.

(** A loop over task keys that assigns [v] under each key [name] with
    [g name = Some v]. *)
Lemma for_each_set_tasks (self : FedorableCore) (g : string → option bool) :
  NoDup (dict_values (tasks self)) →
  ∀ keys st,
    NoDup keys →
    (∀ k, In k keys → In k (dict_keys (tasks self))) →
    ∃ st',
      for_each keys (λ name, match g name with
                             | Some v => set_task_enabled self name v
                             | None => ret ()
                             end) st = (Normal (), st') ∧
      option_objs st' = option_objs st ∧
      length (task_objs st') = length (task_objs st) ∧
      ∀ name t, lookup_task st self name = Some t →
        lookup_task st' self name =
          Some (if bool_decide (name ∈ keys)
                then match g name with
                     | Some v => task_set_enabled v t
                     | None => t
                     end
                else t).
Proof.
  intros Hnd. induction keys as [|k keys IH]; intros st Hk Hin.
  { exists st. by repeat split. }
  apply NoDup_cons in Hk as [Hnk Hk].
  assert (Hin' : ∀ k', In k' keys → In k' (dict_keys (tasks self)))
    by (intros k' H'; apply Hin; by right).
  destruct (dict_get_keys (tasks self) k (Hin k (or_introl eq_refl))) as [l Hl].
  cbn [for_each]. unfold bind at 1.
  destruct (g k) as [v|] eqn:Hg.
  - unfold set_task_enabled at 1. rewrite Hl.
    set (st1 := {| task_objs := alter (task_set_enabled v) l (task_objs st);
                   option_objs := option_objs st |}).
    destruct (IH st1 Hk Hin') as (st' & Hrun & Ho & Hlen & Hlook).
    exists st'. split; [exact Hrun|]. split; [by rewrite Ho|].
    split; [rewrite Hlen; simpl; by rewrite length_alter|].
    intros name t Ht.
    destruct (decide (name = k)) as [->|Hne].
    + rewrite (Hlook k (task_set_enabled v t)).
      * rewrite (bool_decide_eq_false_2 (k ∈ keys)) by done.
        rewrite bool_decide_eq_true_2 by (by left). by rewrite Hg.
      * unfold lookup_task in Ht |- *. rewrite Hl in Ht |- *. simpl in Ht |- *.
        by rewrite list_lookup_alter_eq, Ht.
    + rewrite (Hlook name t).
      * f_equal. destruct (decide (name ∈ keys)) as [Hm|Hm].
        -- rewrite !bool_decide_eq_true_2; [done| by right | done].
        -- rewrite !bool_decide_eq_false_2; [done| | done].
           by intros [?|?]%elem_of_cons.
      * unfold lookup_task in Ht |- *.
        destruct (dict_get (tasks self) name) as [l'|] eqn:Hl'; [|done].
        simpl in Ht |- *. rewrite list_lookup_alter_ne; [done|].
        intros <-. apply Hne. by apply (dict_get_inj (tasks self) name k l).
  - destruct (IH st Hk Hin') as (st' & Hrun & Ho & Hlen & Hlook).
    exists st'. split; [exact Hrun|]. split; [done|]. split; [done|].
    intros name t Ht. rewrite (Hlook name t Ht). f_equal.
    destruct (decide (name = k)) as [->|Hne].
    + rewrite (bool_decide_eq_false_2 (k ∈ keys)) by done.
      rewrite bool_decide_eq_true_2 by (by left). by rewrite Hg.
    + destruct (decide (name ∈ keys)) as [Hm|Hm].
      * rewrite !bool_decide_eq_true_2; [done| by right | done].
      * rewrite !bool_decide_eq_false_2; [done| | done].
        by intros [?|?]%elem_of_cons.
Qed.

Lemma for_each_set_options (self : FedorableCore) (g : string → option bool) :
  NoDup (dict_values (options self)) →
  ∀ keys st,
    NoDup keys →
    (∀ k, In k keys → In k (dict_keys (options self))) →
    ∃ st',
      for_each keys (λ name, match g name with
                             | Some v => set_option_enabled self name v
                             | None => ret ()
                             end) st = (Normal (), st') ∧
      task_objs st' = task_objs st ∧
      length (option_objs st') = length (option_objs st) ∧
      ∀ name o, lookup_option st self name = Some o →
        lookup_option st' self name =
          Some (if bool_decide (name ∈ keys)
                then match g name with
                     | Some v => option_set_enabled v o
                     | None => o
                     end
                else o).
Proof.
  intros Hnd. induction keys as [|k keys IH]; intros st Hk Hin.
  { exists st. by repeat split. }
  apply NoDup_cons in Hk as [Hnk Hk].
  assert (Hin' : ∀ k', In k' keys → In k' (dict_keys (options self)))
    by (intros k' H'; apply Hin; by right).
  destruct (dict_get_keys (options self) k (Hin k (or_introl eq_refl))) as [l Hl].
  cbn [for_each]. unfold bind at 1.
  destruct (g k) as [v|] eqn:Hg.
  - unfold set_option_enabled at 1. rewrite Hl.
    set (st1 := {| task_objs := task_objs st;
                   option_objs := alter (option_set_enabled v) l (option_objs st) |}).
    destruct (IH st1 Hk Hin') as (st' & Hrun & Ho & Hlen & Hlook).
    exists st'. split; [exact Hrun|]. split; [by rewrite Ho|].
    split; [rewrite Hlen; simpl; by rewrite length_alter|].
    intros name t Ht.
    destruct (decide (name = k)) as [->|Hne].
    + rewrite (Hlook k (option_set_enabled v t)).
      * rewrite (bool_decide_eq_false_2 (k ∈ keys)) by done.
        rewrite bool_decide_eq_true_2 by (by left). by rewrite Hg.
      * unfold lookup_option in Ht |- *. rewrite Hl in Ht |- *.
        simpl in Ht |- *. by rewrite list_lookup_alter_eq, Ht.
    + rewrite (Hlook name t).
      * f_equal. destruct (decide (name ∈ keys)) as [Hm|Hm].
        -- rewrite !bool_decide_eq_true_2; [done| by right | done].
        -- rewrite !bool_decide_eq_false_2; [done| | done].
           by intros [?|?]%elem_of_cons.
      * unfold lookup_option in Ht |- *.
        destruct (dict_get (options self) name) as [l'|] eqn:Hl'; [|done].
        simpl in Ht |- *. rewrite list_lookup_alter_ne; [done|].
        intros <-. apply Hne. by apply (dict_get_inj (options self) name k l).
  - destruct (IH st Hk Hin') as (st' & Hrun & Ho & Hlen & Hlook).
    exists st'. split; [exact Hrun|]. split; [done|]. split; [done|].
    intros name t Ht. rewrite (Hlook name t Ht). f_equal.
    destruct (decide (name = k)) as [->|Hne].
    + rewrite (bool_decide_eq_false_2 (k ∈ keys)) by done.
      rewrite bool_decide_eq_true_2 by (by left). by rewrite Hg.
    + destruct (decide (name ∈ keys)) as [Hm|Hm].
      * rewrite !bool_decide_eq_true_2; [done| by right | done].
      * rewrite !bool_decide_eq_false_2; [done| | done].
        by intros [?|?]%elem_of_cons.
Qed.

Lemma dict_get_elem_of {V : Type} (d : dict V) (k : string) (v : V) :
  dict_get d k = Some v → k ∈ dict_keys d.
Proof.
  intros Hg%dict_get_In. apply list_elem_of_In.
  unfold dict_keys. by apply (in_map fst) in Hg.
Qed.

(** The loops over all the keys of the core. *)
Lemma for_each_task_key (self : FedorableCore) (g : string → option bool)
    (st : store) :
  NoDup (dict_keys (tasks self)) → NoDup (dict_values (tasks self)) →
  ∃ st',
    for_each (dict_keys (tasks self))
      (λ name, match g name with
               | Some v => set_task_enabled self name v
               | None => ret ()
               end) st = (Normal (), st') ∧
    option_objs st' = option_objs st ∧
    length (task_objs st') = length (task_objs st) ∧
    ∀ name t, lookup_task st self name = Some t →
      lookup_task st' self name =
        Some (match g name with Some v => task_set_enabled v t | None => t end).
Proof.
  intros Hk Hv.
  destruct (for_each_set_tasks self g Hv (dict_keys (tasks self)) st Hk)
    as (st' & Hrun & Ho & Hlen & Hlook); [done|].
  exists st'. split; [exact Hrun|]. split; [exact Ho|]. split; [exact Hlen|].
  intros name t Ht. rewrite (Hlook name t Ht).
  rewrite bool_decide_eq_true_2; [done|].
  unfold lookup_task in Ht.
  destruct (dict_get (tasks self) name) as [l|] eqn:Hg; [|done].
  by eapply dict_get_elem_of.
Qed.

Lemma for_each_option_key (self : FedorableCore) (g : string → option bool)
    (st : store) :
  NoDup (dict_keys (options self)) → NoDup (dict_values (options self)) →
  ∃ st',
    for_each (dict_keys (options self))
      (λ name, match g name with
               | Some v => set_option_enabled self name v
               | None => ret ()
               end) st = (Normal (), st') ∧
    task_objs st' = task_objs st ∧
    length (option_objs st') = length (option_objs st) ∧
    ∀ name o, lookup_option st self name = Some o →
      lookup_option st' self name =
        Some (match g name with Some v => option_set_enabled v o | None => o end).
Proof.
  intros Hk Hv.
  destruct (for_each_set_options self g Hv (dict_keys (options self)) st Hk)
    as (st' & Hrun & Ho & Hlen & Hlook); [done|].
  exists st'. split; [exact Hrun|]. split; [exact Ho|]. split; [exact Hlen|].
  intros name t Ht. rewrite (Hlook name t Ht).
  rewrite bool_decide_eq_true_2; [done|].
  unfold lookup_option in Ht.
  destruct (dict_get (options self) name) as [l|] eqn:Hg; [|done].
  by eapply dict_get_elem_of.
Qed.

Lemma lookup_task_objs (st st' : store) (self : FedorableCore) (name : string) :
  task_objs st' = task_objs st → lookup_task st' self name = lookup_task st self name.
Proof. unfold lookup_task. by intros ->. Qed.

Lemma lookup_option_objs (st st' : store) (self : FedorableCore) (name : string) :
  option_objs st' = option_objs st →
  lookup_option st' self name = lookup_option st self name.
Proof. unfold lookup_option. by intros ->. Qed.

(** The preset step of [setup_fedorable_core]. *)
Lemma preset_result (args : Cli.Namespace) (self : FedorableCore) (st : store) :
  NoDup (dict_keys (tasks self)) → NoDup (dict_values (tasks self)) →
  ∃ st',
    (if Cli.ns_all args then
       for_each (dict_keys (tasks self))
         (λ name, set_task_enabled self name true)
     else if Cli.ns_none args then
       for_each (dict_keys (tasks self))
         (λ name, set_task_enabled self name false)
     else ret ()) st = (Normal (), st') ∧
    option_objs st' = option_objs st ∧
    length (task_objs st') = length (task_objs st) ∧
    ∀ name t, lookup_task st self name = Some t →
      lookup_task st' self name =
        Some (task_set_enabled
                (if Cli.ns_all args then true
                 else if Cli.ns_none args then false else task_enabled t) t).
Proof.
  intros Hk Hv. destruct (Cli.ns_all args); [|destruct (Cli.ns_none args)].
  - exact (for_each_task_key self (λ _, Some true) st Hk Hv).
  - exact (for_each_task_key self (λ _, Some false) st Hk Hv).
  - exists st. split; [done|]. split; [done|]. split; [done|].
    intros name t Ht. by rewrite task_set_enabled_same.
Qed.

(** What [setup_fedorable_core] leaves in each task and option. *)
Lemma configure_lookups (args : Cli.Namespace) (self : FedorableCore)
    (st : store) :
  core_ok st self →
  ∃ st',
    Cli.configure args self st = (Normal (), st') ∧
    core_ok st' self ∧
    (∀ name t, lookup_task st self name = Some t →
       lookup_task st' self name =
         Some (task_set_enabled
                 (cli_task_choice args name (task_enabled t)) t)) ∧
    (∀ name o, lookup_option st self name = Some o →
       lookup_option st' self name =
         Some (option_set_enabled
                 (cli_option_choice args name (option_enabled o)) o)).
Proof.
  intros Hok. pose proof Hok as [(Hkt & Hvt & Hbt) (Hko & Hvo & Hbo)].
  destruct (preset_result args self st Hkt Hvt) as (st1 & H1 & Ho1 & Hl1 & Hk1).
  destruct (for_each_task_key self
              (λ name, match dict_get (Cli.ns_attrs args) ("task_" +:+ name) with
                       | Some (Some v) => Some v
                       | _ => None
                       end) st1 Hkt Hvt) as (st2 & H2 & Ho2 & Hl2 & Hk2).
  destruct (for_each_option_key self
              (λ name, match dict_get (Cli.ns_attrs args) ("option_" +:+ name) with
                       | Some (Some true) => Some true
                       | _ => None
                       end) st2 Hko Hvo) as (st3 & H3 & Ht3 & Hl3 & Hk3).
  exists st3. split; [|split; [|split]].
  - unfold Cli.configure. unfold bind at 1. rewrite H1. unfold bind.
    match goal with
    | |- context [for_each ?ks ?b st1] =>
        assert (E2 : for_each ks b st1 = (Normal (), st2))
    end.
    { rewrite <- H2. apply (f_equal (λ f, f st1)), for_each_ext. intros name.
      by destruct (dict_get (Cli.ns_attrs args) ("task_" +:+ name)) as [[v|]|]. }
    rewrite E2. rewrite <- H3.
    apply (f_equal (λ f, f st2)), for_each_ext. intros name.
    by destruct (dict_get (Cli.ns_attrs args) ("option_" +:+ name)) as [[[]|]|].
  - apply (core_ok_lengths st); [|by rewrite Hl3, Ho2, Ho1|done].
    by rewrite Ht3, Hl2, Hl1.
  - intros name t Ht.
    rewrite (lookup_task_objs st2 st3 self name Ht3).
    rewrite (Hk2 name _ (Hk1 name t Ht)). f_equal.
    unfold cli_task_choice.
    destruct (dict_get (Cli.ns_attrs args) ("task_" +:+ name)) as [[v|]|];
      by destruct t.
  - intros name o Ho.
    assert (Ho' : lookup_option st2 self name = Some o).
    { rewrite (lookup_option_objs st1 st2 self name Ho2).
      by rewrite (lookup_option_objs st st1 self name Ho1). }
    rewrite (Hk3 name o Ho'). f_equal. unfold cli_option_choice.
    destruct (dict_get (Cli.ns_attrs args) ("option_" +:+ name)) as [[[]|]|];
      by destruct o.
Qed.

(** X5. In a core as [__init__] builds it, [setup_fedorable_core] ends
    normally and leaves in each task the value of its own switch when one was
    given, else [True] under [--all], else [False] under [--none], else the
    value it had; in each option [True] when its switch was given, else the
    value it had; no other attribute of a task or an option is changed, and
    the dictionaries stay well formed. In particular [--all] wins over
    [--none], and a task's own switch over both. *)
Theorem configure_result (args : Cli.Namespace) (self : FedorableCore)
    (st : store) :
  core_ok st self →
  ∃ st',
    Cli.configure args self st = (Normal (), st') ∧
    core_ok st' self ∧
    (∀ name t, lookup_task st self name = Some t →
       lookup_task st' self name =
         Some (task_set_enabled
                 (cli_task_choice args name (task_enabled t)) t)) ∧
    (∀ name o, lookup_option st self name = Some o →
       lookup_option st' self name =
         Some (option_set_enabled
                 (cli_option_choice args name (option_enabled o)) o)).
Proof. apply configure_lookups. Qed.

(** ** From the argument vector to the command *)

(** When reading by name through [d] in [xs'] gives [F name x] wherever it
    gave [x] in [xs], the objects of [d] in [xs'] are those in [xs] with [F]
    applied, key by key. *)
Lemma deref_pointwise {A : Type} (F : string → A → A) (xs xs' : list A) :
  ∀ (d : dict loc) (ys : list A),
    NoDup (dict_keys d) →
    deref xs d = Some ys →
    (∀ name x, (l ← dict_get d name; xs !! l) = Some x →
               (l ← dict_get d name; xs' !! l) = Some (F name x)) →
    deref xs' d = Some (map (λ kx, F kx.1 kx.2) (zip (dict_keys d) ys)).
Proof.
  induction d as [|[k l] d IH]; intros ys Hnd Hd H.
  { injection Hd as <-. reflexivity. }
  rewrite deref_cons in Hd.
  destruct (xs !! l) as [x|] eqn:Hl; [simpl in Hd|done].
  destruct (deref xs d) as [ys'|] eqn:Hd'; [|done].
  injection Hd as <-.
  apply NoDup_cons in Hnd as [Hnk Hnd].
  rewrite deref_cons.
  pose proof (H k x) as Hk. simpl in Hk. rewrite String.eqb_refl in Hk.
  simpl in Hk. rewrite (Hk Hl). simpl.
  rewrite (IH ys' Hnd eq_refl); [done|].
  intros name x' Hx'.
  destruct (dict_get d name) as [l'|] eqn:Hg; [|done].
  specialize (H name x'). simpl in H.
  destruct (String.eqb_spec k name) as [->|Hne].
  - destruct Hnk. by eapply dict_get_elem_of.
  - rewrite Hg in H. by apply H.
Qed.

Lemma filter_map_comm {A B : Type} (p : B → bool) (f : A → B) (l : list A) :
  List.filter p (map f l) = map f (List.filter (λ a, p (f a)) l).
Proof.
  induction l as [|a l IH]; [done|]. simpl.
  destruct (p (f a)); simpl; by rewrite IH.
Qed.

Lemma filter_ext_zip {A : Type} (p q : string * A → bool) (l : list (string * A)) :
  (∀ ka, In ka l → p ka = q ka) → List.filter p l = List.filter q l.
Proof.
  induction l as [|a l IH]; intros H; [done|]. simpl.
  rewrite (H a) by (by left). rewrite IH; [done|].
  intros ka Hin. apply H. by right.
Qed.

Lemma filter_snd_zip {A : Type} (p : A → bool) (f : A → string) :
  ∀ (keys : list string) (ys : list A),
    length keys = length ys →
    map (λ kx : string * A, f kx.2) (List.filter (λ kx, p kx.2) (zip keys ys))
      = map f (List.filter p ys).
Proof.
  induction keys as [|k keys IH]; intros [|y ys] Hlen; try done.
  simpl. destruct (p y); simpl; rewrite IH; auto.
Qed.

(** The command after [setup_fedorable_core], in closed form. *)
Lemma configure_then_build (args : Cli.Namespace) (self : FedorableCore)
    (st : store) (ts : list FedorableTask) (os : list FedorableOption)
    (use_pkexec : bool) :
  core_ok st self →
  deref_tasks st (tasks self) = Some ts →
  deref_options st (options self) = Some os →
  ∃ st',
    Cli.configure args self st = (Normal (), st') ∧
    build_command st' self use_pkexec =
      Some ((if use_pkexec then ["pkexec"] else []) ++ [script_path self]
            ++ map (λ kt : string * FedorableTask, task_flag kt.2)
                 (List.filter
                    (λ kt, negb (cli_task_choice args kt.1 (task_enabled kt.2)))
                    (zip (dict_keys (tasks self)) ts))
            ++ map (λ ko : string * FedorableOption, option_flag ko.2)
                 (List.filter
                    (λ ko, cli_option_choice args ko.1 (option_enabled ko.2))
                    (zip (dict_keys (options self)) os))).
Proof.
  intros Hok Ht Ho. pose proof Hok as [(Hkt & _) (Hko & _)].
  destruct (configure_lookups args self st Hok) as (st' & Hc & _ & Hlt & Hlo).
  exists st'. split; [exact Hc|].
  pose proof (deref_pointwise
                (λ name t, task_set_enabled
                             (cli_task_choice args name (task_enabled t)) t)
                (task_objs st) (task_objs st') (tasks self) ts Hkt Ht Hlt) as Ht'.
  pose proof (deref_pointwise
                (λ name o, option_set_enabled
                             (cli_option_choice args name (option_enabled o)) o)
                (option_objs st) (option_objs st') (options self) os Hko Ho Hlo)
    as Ho'.
  unfold build_command.
  rewrite (append_disabled_tasks_spec st' _ _ _ Ht'). simpl.
  rewrite (append_enabled_options_spec st' _ _ _ Ho').
  rewrite !filter_map_comm, !map_map. simpl.
  by destruct use_pkexec; simpl; rewrite <- ?app_assoc.
Qed.

(** X6. After [setup_fedorable_core] on a core as [__init__] builds it, the
    command that [run_fedorable] builds is: ["pkexec"] unless [--no-pkexec]
    was given, the script path, the flag of every task that the argument
    vector leaves disabled, in dictionary order, and the flag of every option
    that it leaves enabled, in dictionary order. *)
Theorem cli_command (args : Cli.Namespace) (self : FedorableCore)
    (st : store) (ts : list FedorableTask) (os : list FedorableOption) :
  core_ok st self →
  deref_tasks st (tasks self) = Some ts →
  deref_options st (options self) = Some os →
  ∃ st',
    Cli.configure args self st = (Normal (), st') ∧
    build_command st' self (negb (Cli.ns_no_pkexec args)) =
      Some ((if Cli.ns_no_pkexec args then [] else ["pkexec"])
            ++ [script_path self]
            ++ map (λ kt : string * FedorableTask, task_flag kt.2)
                 (List.filter
                    (λ kt, negb (cli_task_choice args kt.1 (task_enabled kt.2)))
                    (zip (dict_keys (tasks self)) ts))
            ++ map (λ ko : string * FedorableOption, option_flag ko.2)
                 (List.filter
                    (λ ko, cli_option_choice args ko.1 (option_enabled ko.2))
                    (zip (dict_keys (options self)) os))).
Proof.
  intros Hok Ht Ho.
  destruct (configure_then_build args self st ts os
              (negb (Cli.ns_no_pkexec args)) Hok Ht Ho) as (st' & Hc & Hb).
  exists st'. split; [exact Hc|]. rewrite Hb.
  by destruct (Cli.ns_no_pkexec args).
Qed.

(** X7. With no switch of a single task in the argument vector: under
    [--all], also when [--none] is given with it, the command has no task
    flag; under [--none] alone it has the flag of every task, in dictionary
    order; with neither it has the flags of the tasks that were disabled
    before. *)
Theorem preset_commands (args : Cli.Namespace) (self : FedorableCore)
    (st : store) (ts : list FedorableTask) (os : list FedorableOption)
    (use_pkexec : bool) :
  core_ok st self →
  deref_tasks st (tasks self) = Some ts →
  deref_options st (options self) = Some os →
  no_task_switch args →
  ∃ st' rest,
    Cli.configure args self st = (Normal (), st') ∧
    build_command st' self use_pkexec =
      Some ((if use_pkexec then ["pkexec"] else []) ++ [script_path self]
            ++ (if Cli.ns_all args then []
                else if Cli.ns_none args then map task_flag ts
                else map task_flag (List.filter (λ t, negb (task_enabled t)) ts))
            ++ rest) ∧
    rest = map (λ ko : string * FedorableOption, option_flag ko.2)
             (List.filter
                (λ ko, cli_option_choice args ko.1 (option_enabled ko.2))
                (zip (dict_keys (options self)) os)).
Proof.
  intros Hok Ht Ho Hno.
  destruct (configure_then_build args self st ts os use_pkexec Hok Ht Ho)
    as (st' & Hc & Hb).
  eexists st', _. split; [exact Hc|]. split; [|reflexivity].
  rewrite Hb. do 3 f_equal. apply (f_equal (λ l, l ++ _)).
  assert (Hlen : length (dict_keys (tasks self)) = length ts).
  { unfold dict_keys. rewrite length_map. by eapply deref_length. }
  rewrite (filter_ext_zip _
             (λ kt, negb (if Cli.ns_all args then true
                          else if Cli.ns_none args then false
                          else task_enabled kt.2))).
  - etrans;
      [apply (filter_snd_zip
                (λ t, negb (if Cli.ns_all args then true
                            else if Cli.ns_none args then false
                            else task_enabled t)) task_flag _ _ Hlen)|].
    destruct (Cli.ns_all args); [|destruct (Cli.ns_none args)]; simpl.
    + clear. by induction ts.
    + f_equal. clear. induction ts as [|t ts IH]; [done|]. simpl. by rewrite IH.
    + reflexivity.
  - intros [k t] _. unfold cli_task_choice. simpl. specialize (Hno k).
    by destruct (dict_get (Cli.ns_attrs args) ("task_" +:+ k)) as [[v|]|].
Qed.

Lemma configure_result_witness :
  ∃ st',
    Cli.configure small_args small_core small_store = (Normal (), st') ∧
    (task_enabled <$> lookup_task st' small_core "update") = Some true ∧
    (task_enabled <$> lookup_task st' small_core "clean_dnf") = Some false ∧
    (option_enabled <$> lookup_option st' small_core "dry_run") = Some false.
Proof.
  destruct (configure_result small_args small_core small_store small_core_ok)
    as (st' & Hc & _ & Ht & Ho).
  exists st'. split; [exact Hc|].
  rewrite (Ht "update" _ eq_refl), (Ht "clean_dnf" _ eq_refl),
    (Ho "dry_run" _ eq_refl).
  repeat split.
Defined.

Lemma cli_command_witness :
  ∃ st',
    Cli.configure small_args small_core small_store = (Normal (), st') ∧
    build_command st' small_core true
      = Some ["pkexec"; "/usr/bin/fedorable.sh"; "--no-clean-dnf"].
Proof.
  destruct (cli_command small_args small_core small_store _ _ small_core_ok
              eq_refl eq_refl) as (st' & Hc & Hb).
  exists st'. split; [exact Hc|]. exact Hb.
Defined.

Lemma preset_commands_witness :
  ∃ st',
    Cli.configure none_args small_core small_store = (Normal (), st') ∧
    build_command st' small_core false
      = Some ["/usr/bin/fedorable.sh"; "--no-update"; "--no-clean-dnf"].
Proof.
  destruct (preset_commands none_args small_core small_store _ _ false
              small_core_ok eq_refl eq_refl (λ _, I))
    as (st' & rest & Hc & Hb & ->).
  exists st'. split; [exact Hc|]. exact Hb.
Defined.

(** ** Setting up the controls *)

Lemma dict_set_fresh {V : Type} (d : dict V) (k : string) (v : V) :
  ¬ In k (dict_keys d) → GuiUi.dict_set d k v = d ++ [(k, v)].
Proof.
  induction d as [|[k' v'] d IH]; intros Hn; [done|]. simpl.
  destruct (String.eqb_spec k' k) as [->|Hne].
  - destruct Hn. by left.
  - rewrite IH; [done|]. intros H. apply Hn. by right.
Qed.

Lemma In_dict_get {V : Type} (d : dict V) (k : string) (v : V) :
  NoDup (dict_keys d) → In (k, v) d → dict_get d k = Some v.
Proof.
  induction d as [|[k' v'] d IH]; intros Hnd Hin; [done|].
  apply NoDup_cons in Hnd as [Hnk Hnd]. simpl.
  destruct Hin as [[= -> ->]|Hin]; [by rewrite String.eqb_refl|].
  destruct (String.eqb_spec k' k) as [->|Hne]; [|by apply IH].
  destruct Hnk. apply list_elem_of_In. unfold dict_keys.
  by apply (in_map fst) in Hin.
Qed.

Lemma cell_next (i : nat) : S (S i) mod 2 = i mod 2 ∧ S (S i) / 2 = S (i / 2).
Proof.
  replace (S (S i)) with (i + 1 * 2) by lia.
  rewrite Nat.Div0.mod_add, Nat.div_add by lia. lia.
Qed.

(** The loop in closed form: the controls are entered in the order of the
    items, and the item at index [i] goes to the cell that is [i] steps after
    [(col, row)], two cells to a row. *)
Lemma setup_loop_spec : ∀ items controls grid row col,
  col ≤ 1 →
  NoDup (dict_keys controls ++ dict_keys items) →
  GuiUi.setup_loop items controls grid row col =
    (controls ++ map (λ it, (it.1, GuiUi.mkControl it.2.1 it.2.2)) items,
     grid ++ imap (λ i it, (GuiUi.mkControl it.2.1 it.2.2,
                            ((col + i) mod 2, row + (col + i) / 2))) items).
Proof.
  induction items as [|[key [lbl d]] rest IH]; intros controls grid row col Hcol Hnd.
  { simpl. by rewrite !app_nil_r. }
  change (dict_keys ((key, (lbl, d)) :: rest)) with (key :: dict_keys rest) in Hnd.
  assert (Hfresh : ¬ In key (dict_keys controls)).
  { apply NoDup_app in Hnd as (_ & H2 & _).
    intros Hin%list_elem_of_In. apply (H2 key Hin). by left. }
  assert (Hnd' : NoDup (dict_keys (controls ++ [(key, GuiUi.mkControl lbl d)])
                        ++ dict_keys rest)).
  { unfold dict_keys in *. rewrite map_app, <- app_assoc. exact Hnd. }
  cbn [GuiUi.setup_loop]. rewrite dict_set_fresh by done.
  destruct col as [|[|col]]; [| |lia].
  - change (1 <? 0 + 1) with false. cbn iota.
    rewrite (IH _ _ row (0 + 1)) by (done || lia).
    rewrite <- !app_assoc. f_equal. f_equal. cbn [imap app]. f_equal.
    + do 2 f_equal. simpl. lia.
  - change (1 <? 1 + 1) with true. cbn iota.
    rewrite (IH _ _ (row + 1) 0) by (done || lia).
    rewrite <- !app_assoc. f_equal. f_equal. cbn [imap app]. f_equal.
    + do 2 f_equal. simpl. lia.
    + apply imap_ext. intros i it _. unfold compose.
      change (1 + S i) with (S (S i)). change (0 + i) with i.
      destruct (cell_next i) as [-> ->]. do 2 f_equal. lia.
Qed.

Lemma cell_inj (i j : nat) : i mod 2 = j mod 2 → i / 2 = j / 2 → i = j.
Proof.
  intros Hm Hd.
  rewrite (Nat.div_mod_eq i 2), (Nat.div_mod_eq j 2). by rewrite Hm, Hd.
Qed.

(** X8. The loop of [_setup_tasks_ui] and of [_setup_options_ui], run on
    items with distinct keys, enters one control per item under the item's
    key, in the order of the items, with the item's label and default; it
    attaches the control of the item at index [i] to column [i mod 2] and
    row [i / 2]; and it attaches no two controls to the same cell. *)
Theorem grid_placement (items : list (string * (string * bool))) :
  NoDup (dict_keys items) →
  ∃ controls grid,
    GuiUi.setup_loop items [] [] 0 0 = (controls, grid) ∧
    dict_keys controls = dict_keys items ∧
    length grid = length items ∧
    (∀ i key lbl d, items !! i = Some (key, (lbl, d)) →
       dict_get controls key = Some (GuiUi.mkControl lbl d) ∧
       grid !! i = Some (GuiUi.mkControl lbl d, (i mod 2, i / 2))) ∧
    (∀ i j c c' cell, grid !! i = Some (c, cell) → grid !! j = Some (c', cell) →
       i = j).
Proof.
  intros Hnd. eexists _, _.
  split; [apply setup_loop_spec; [lia|exact Hnd]|].
  cbn [app]. split; [|split; [|split]].
  - unfold dict_keys. rewrite map_map. reflexivity.
  - by rewrite length_imap.
  - intros i key lbl d Hi. split.
    + apply In_dict_get.
      * unfold dict_keys. rewrite map_map. exact Hnd.
      * apply list_elem_of_In. apply list_elem_of_lookup_2 in Hi.
        change ((key, GuiUi.mkControl lbl d) ∈
                map (λ it : string * (string * bool),
                       (it.1, GuiUi.mkControl it.2.1 it.2.2)) items).
        apply list_elem_of_In, in_map_iff. exists (key, (lbl, d)).
        split; [done|]. by apply list_elem_of_In.
    + rewrite list_lookup_imap, Hi. reflexivity.
  - intros i j c c' cell Hi Hj.
    rewrite list_lookup_imap in Hi. rewrite list_lookup_imap in Hj.
    destruct (items !! i) as [it|]; [|done].
    destruct (items !! j) as [it'|]; [|done].
    simpl in Hi, Hj. injection Hi as _ <-. injection Hj as _ Hm Hd.
    by apply cell_inj.
Qed.

(** ** The loops of the window *)

Lemma for_each_items_tasks (self : FedorableCore) :
  NoDup (dict_values (tasks self)) →
  ∀ (items : dict bool) (st : store),
    NoDup (dict_keys items) →
    ∃ st',
      for_each items
        (λ item, if dict_mem (tasks self) item.1
                 then set_task_enabled self item.1 item.2
                 else ret ()) st = (Normal (), st') ∧
      option_objs st' = option_objs st ∧
      length (task_objs st') = length (task_objs st) ∧
      ∀ name t, lookup_task st self name = Some t →
        lookup_task st' self name =
          Some (task_set_enabled
                  (GuiUi.control_choice items name (task_enabled t)) t).
Proof.
  intros Hv. induction items as [|[k v] items IH]; intros st Hnd.
  { exists st. split; [done|]. split; [done|]. split; [done|].
    intros name t Ht. unfold GuiUi.control_choice. simpl.
    by rewrite task_set_enabled_same. }
  apply NoDup_cons in Hnd as [Hnk Hnd].
  assert (Hk : dict_get items k = None).
  { apply dict_get_None. by rewrite <- list_elem_of_In. }
  cbn [for_each]. unfold bind at 1. cbn [fst snd]. unfold dict_mem.
  destruct (dict_get (tasks self) k) as [l|] eqn:Hl.
  - unfold set_task_enabled at 1. rewrite Hl.
    set (st1 := {| task_objs := alter (task_set_enabled v) l (task_objs st);
                   option_objs := option_objs st |}).
    destruct (IH st1 Hnd) as (st' & Hrun & Ho & Hlen & Hlook).
    exists st'. split; [exact Hrun|]. split; [by rewrite Ho|].
    split; [rewrite Hlen; simpl; by rewrite length_alter|].
    intros name t Ht. unfold GuiUi.control_choice in *. simpl.
    destruct (String.eqb_spec k name) as [<-|Hne].
    + rewrite (Hlook k (task_set_enabled v t)).
      * rewrite Hk. simpl. by destruct t.
      * unfold lookup_task in Ht |- *. rewrite Hl in Ht |- *. simpl in Ht |- *.
        by rewrite list_lookup_alter_eq, Ht.
    + apply Hlook. unfold lookup_task in Ht |- *.
      destruct (dict_get (tasks self) name) as [l'|] eqn:Hl'; [|done].
      simpl in Ht |- *. rewrite list_lookup_alter_ne; [done|].
      intros <-. apply Hne. by apply (dict_get_inj (tasks self) k name l).
  - destruct (IH st Hnd) as (st' & Hrun & Ho & Hlen & Hlook).
    exists st'. split; [exact Hrun|]. split; [done|]. split; [done|].
    intros name t Ht. unfold GuiUi.control_choice in *. simpl.
    destruct (String.eqb_spec k name) as [<-|Hne]; [|by apply Hlook].
    unfold lookup_task in Ht. by rewrite Hl in Ht.
Qed.

Lemma for_each_items_options (self : FedorableCore) :
  NoDup (dict_values (options self)) →
  ∀ (items : dict bool) (st : store),
    NoDup (dict_keys items) →
    ∃ st',
      for_each items
        (λ item, if dict_mem (options self) item.1
                 then set_option_enabled self item.1 item.2
                 else ret ()) st = (Normal (), st') ∧
      task_objs st' = task_objs st ∧
      length (option_objs st') = length (option_objs st) ∧
      ∀ name o, lookup_option st self name = Some o →
        lookup_option st' self name =
          Some (option_set_enabled
                  (GuiUi.control_choice items name (option_enabled o)) o).
Proof.
  intros Hv. induction items as [|[k v] items IH]; intros st Hnd.
  { exists st. split; [done|]. split; [done|]. split; [done|].
    intros name t Ht. unfold GuiUi.control_choice. simpl.
    by rewrite option_set_enabled_same. }
  apply NoDup_cons in Hnd as [Hnk Hnd].
  assert (Hk : dict_get items k = None).
  { apply dict_get_None. by rewrite <- list_elem_of_In. }
  cbn [for_each]. unfold bind at 1. cbn [fst snd]. unfold dict_mem.
  destruct (dict_get (options self) k) as [l|] eqn:Hl.
  - unfold set_option_enabled at 1. rewrite Hl.
    set (st1 := {| task_objs := task_objs st;
                   option_objs := alter (option_set_enabled v) l (option_objs st) |}).
    destruct (IH st1 Hnd) as (st' & Hrun & Ho & Hlen & Hlook).
    exists st'. split; [exact Hrun|]. split; [by rewrite Ho|].
    split; [rewrite Hlen; simpl; by rewrite length_alter|].
    intros name t Ht. unfold GuiUi.control_choice in *. simpl.
    destruct (String.eqb_spec k name) as [<-|Hne].
    + rewrite (Hlook k (option_set_enabled v t)).
      * rewrite Hk. simpl. by destruct t.
      * unfold lookup_option in Ht |- *. rewrite Hl in Ht |- *.
        simpl in Ht |- *. by rewrite list_lookup_alter_eq, Ht.
    + apply Hlook. unfold lookup_option in Ht |- *.
      destruct (dict_get (options self) name) as [l'|] eqn:Hl'; [|done].
      simpl in Ht |- *. rewrite list_lookup_alter_ne; [done|].
      intros <-. apply Hne. by apply (dict_get_inj (options self) k name l).
  - destruct (IH st Hnd) as (st' & Hrun & Ho & Hlen & Hlook).
    exists st'. split; [exact Hrun|]. split; [done|]. split; [done|].
    intros name t Ht. unfold GuiUi.control_choice in *. simpl.
    destruct (String.eqb_spec k name) as [<-|Hne]; [|by apply Hlook].
    unfold lookup_option in Ht. by rewrite Hl in Ht.
Qed.

(** What the two update loops of the window leave in each task and option. *)
Lemma update_core_lookups (w : Gui.MainWindow) (st : store) :
  core_ok st (Gui.fedorable w) →
  NoDup (dict_keys (Gui.task_checkboxes w)) →
  NoDup (dict_keys (Gui.option_switches w)) →
  ∃ st',
    Gui.update_core w st = (Normal (), st') ∧
    core_ok st' (Gui.fedorable w) ∧
    (∀ name t, lookup_task st (Gui.fedorable w) name = Some t →
       lookup_task st' (Gui.fedorable w) name =
         Some (task_set_enabled
                 (GuiUi.control_choice (Gui.task_checkboxes w) name
                    (task_enabled t)) t)) ∧
    (∀ name o, lookup_option st (Gui.fedorable w) name = Some o →
       lookup_option st' (Gui.fedorable w) name =
         Some (option_set_enabled
                 (GuiUi.control_choice (Gui.option_switches w) name
                    (option_enabled o)) o)).
Proof.
  intros Hok Hcb Hsw. pose proof Hok as [(Hkt & Hvt & Hbt) (Hko & Hvo & Hbo)].
  destruct (for_each_items_tasks (Gui.fedorable w) Hvt (Gui.task_checkboxes w)
              st Hcb) as (st1 & H1 & Ho1 & Hl1 & Hk1).
  destruct (for_each_items_options (Gui.fedorable w) Hvo (Gui.option_switches w)
              st1 Hsw) as (st2 & H2 & Ht2 & Hl2 & Hk2).
  exists st2. split; [|split; [|split]].
  - unfold Gui.update_core, bind. by rewrite H1.
  - apply (core_ok_lengths st); [by rewrite Ht2|by rewrite Hl2, Ho1|done].
  - intros name t Ht.
    rewrite (lookup_task_objs st1 st2 _ name Ht2). by apply Hk1.
  - intros name o Ho. apply Hk2.
    by rewrite (lookup_option_objs st st1 _ name Ho1).
Qed.

(** X9. On a well-formed core and with no key twice among the check boxes
    or among the switches, [FedorableMainWindow.build_command] ends normally
    and returns: ["pkexec"], the script path, the flag of every task whose
    check box is not active (of a task without a check box: that is
    disabled), in dictionary order, and the flag of every option whose
    switch is active (without a switch: that is enabled), in dictionary
    order. The core's tasks and options are left with these values, and a
    control whose key the core does not have changes nothing. *)
Theorem gui_command (w : Gui.MainWindow) (st : store)
    (ts : list FedorableTask) (os : list FedorableOption) :
  core_ok st (Gui.fedorable w) →
  NoDup (dict_keys (Gui.task_checkboxes w)) →
  NoDup (dict_keys (Gui.option_switches w)) →
  deref_tasks st (tasks (Gui.fedorable w)) = Some ts →
  deref_options st (options (Gui.fedorable w)) = Some os →
  ∃ st',
    Gui.build_command w st =
      (Normal
         (Some (["pkexec"; script_path (Gui.fedorable w)]
                ++ map (λ kt : string * FedorableTask, task_flag kt.2)
                     (List.filter
                        (λ kt, negb (GuiUi.control_choice (Gui.task_checkboxes w)
                                       kt.1 (task_enabled kt.2)))
                        (zip (dict_keys (tasks (Gui.fedorable w))) ts))
                ++ map (λ ko : string * FedorableOption, option_flag ko.2)
                     (List.filter
                        (λ ko, GuiUi.control_choice (Gui.option_switches w)
                                 ko.1 (option_enabled ko.2))
                        (zip (dict_keys (options (Gui.fedorable w))) os)))),
       st') ∧
    (∀ name t, lookup_task st (Gui.fedorable w) name = Some t →
       lookup_task st' (Gui.fedorable w) name =
         Some (task_set_enabled
                 (GuiUi.control_choice (Gui.task_checkboxes w) name
                    (task_enabled t)) t)) ∧
    (∀ name o, lookup_option st (Gui.fedorable w) name = Some o →
       lookup_option st' (Gui.fedorable w) name =
         Some (option_set_enabled
                 (GuiUi.control_choice (Gui.option_switches w) name
                    (option_enabled o)) o)).
Proof.
  intros Hok Hcb Hsw Ht Ho. pose proof Hok as [(Hkt & _) (Hko & _)].
  destruct (update_core_lookups w st Hok Hcb Hsw) as (st' & Hu & _ & Hlt & Hlo).
  exists st'. split; [|split; [exact Hlt|exact Hlo]].
  pose proof (deref_pointwise
                (λ name t, task_set_enabled
                             (GuiUi.control_choice (Gui.task_checkboxes w) name
                                (task_enabled t)) t)
                (task_objs st) (task_objs st') _ ts Hkt Ht Hlt) as Ht'.
  pose proof (deref_pointwise
                (λ name o, option_set_enabled
                             (GuiUi.control_choice (Gui.option_switches w) name
                                (option_enabled o)) o)
                (option_objs st) (option_objs st') _ os Hko Ho Hlo) as Ho'.
  unfold Gui.build_command, bind. rewrite Hu. do 2 f_equal.
  unfold build_command.
  rewrite (append_disabled_tasks_spec st' _ _ _ Ht'). simpl.
  rewrite (append_enabled_options_spec st' _ _ _ Ho').
  rewrite !filter_map_comm, !map_map. reflexivity.
Qed.

(** ** A new window *)

Lemma str_or_same (p : string) : str_or (Some p) p = p.
Proof. unfold str_or. by destruct (String.eqb_spec p ""). Qed.

Lemma init_core_ok (default_script_path : string) (reg : registry)
    (path : option string) (st : store) (tmpl : list FedorableTask)
    (otmpl : list FedorableOption) :
  NoDup (dict_keys (TASKS reg)) →
  NoDup (dict_keys (OPTIONS reg)) →
  deref_tasks st (TASKS reg) = Some tmpl →
  deref_options st (OPTIONS reg) = Some otmpl →
  core_ok (init_store st tmpl otmpl) (init_core default_script_path reg path st).
Proof.
  intros Hkt Hko Ht Ho.
  pose proof (deref_length _ _ _ Ht) as Hlt.
  pose proof (deref_length _ _ _ Ho) as Hlo.
  split; apply fresh_dict_ok; try done; simpl;
    rewrite length_app, length_fmap; lia.
Qed.

(** Objects that read the same by name and are framed are the same. *)
Lemma updated_fixed {A : Type} (same : A → A → Prop) (d : dict loc)
    (xs xs' : list A) :
  NoDup (dict_keys d) →
  updated same (dict_values d) xs xs' →
  (∀ name x, (l ← dict_get d name; xs !! l) = Some x →
             (l ← dict_get d name; xs' !! l) = Some x) →
  xs' = xs.
Proof.
  intros Hnd [Hlen Hup] Hfix. apply list_eq. intros l.
  destruct (xs !! l) as [x|] eqn:Hx.
  - destruct (Hup l x Hx) as (x' & Hx' & _ & Hout). rewrite Hx'. f_equal.
    destruct (decide (l ∈ dict_values d)) as [Hin|Hnin].
    + apply list_elem_of_In, in_map_iff in Hin as ([k l'] & Hl' & Hin).
      simpl in Hl'. subst l'.
      pose proof (In_dict_get d k l Hnd Hin) as Hg.
      specialize (Hfix k x). rewrite Hg in Hfix. simpl in Hfix.
      specialize (Hfix Hx). congruence.
    + apply Hout. by rewrite <- list_elem_of_In.
  - apply lookup_ge_None. rewrite Hlen. by apply lookup_ge_None.
Qed.

Lemma zip_dict_get {A B : Type} (f : A → B) (xs : list A) (name : string) :
  ∀ (d : dict loc) (ys : list A) (x : A),
    deref xs d = Some ys →
    (l ← dict_get d name; xs !! l) = Some x →
    dict_get (zip (dict_keys d) (f <$> ys)) name = Some (f x).
Proof.
  induction d as [|[k l] d IH]; intros ys x Hd Hx; [done|].
  rewrite deref_cons in Hd.
  destruct (xs !! l) as [y|] eqn:Hl; [simpl in Hd|done].
  destruct (deref xs d) as [ys'|] eqn:Hd'; [|done].
  injection Hd as <-. simpl in Hx |- *.
  destruct (String.eqb k name).
  - simpl in Hx. congruence.
  - by apply IH.
Qed.

Lemma dict_keys_zip {V : Type} (keys : list string) : ∀ vs : list V,
  length keys = length vs → dict_keys (zip keys vs) = keys.
Proof.
  induction keys as [|k keys IH]; intros [|v vs] Hlen; try done.
  simpl. f_equal. apply IH. simpl in Hlen. lia.
Qed.

Lemma actives_setup (keys : list string) : ∀ vs : list (string * bool),
  GuiUi.actives (map (λ it : string * (string * bool),
                        (it.1, GuiUi.mkControl it.2.1 it.2.2)) (zip keys vs))
    = zip keys (snd <$> vs).
Proof.
  induction keys as [|k keys IH]; intros [|v vs]; try done.
  simpl. f_equal. apply IH.
Qed.

(** [_setup_tasks_ui] and [_setup_options_ui] on a core with distinct keys. *)
Lemma setup_tasks_ui_ok (st : store) (self : FedorableCore)
    (ts : list FedorableTask) :
  NoDup (dict_keys (tasks self)) →
  deref_tasks st (tasks self) = Some ts →
  ∃ cbs grid,
    GuiUi._setup_tasks_ui st self = Some (cbs, grid) ∧
    GuiUi.actives cbs = zip (dict_keys (tasks self)) (task_enabled <$> ts) ∧
    length grid = length ts.
Proof.
  intros Hnd Ht.
  assert (Hlen : length (dict_keys (tasks self)) = length ts).
  { unfold dict_keys. rewrite length_map. by eapply deref_length. }
  unfold GuiUi._setup_tasks_ui, GuiUi.task_items. rewrite Ht. simpl.
  rewrite setup_loop_spec;
    [|lia|rewrite dict_keys_zip by (by rewrite length_fmap); exact Hnd].
  eexists _, _. split; [reflexivity|]. simpl. split.
  - rewrite actives_setup. f_equal. rewrite <- list_fmap_compose.
    by apply list_fmap_ext.
  - rewrite length_imap, length_zip, length_fmap. lia.
Qed.

Lemma setup_options_ui_ok (st : store) (self : FedorableCore)
    (os : list FedorableOption) :
  NoDup (dict_keys (options self)) →
  deref_options st (options self) = Some os →
  ∃ sws grid,
    GuiUi._setup_options_ui st self = Some (sws, grid) ∧
    GuiUi.actives sws = zip (dict_keys (options self)) (option_enabled <$> os) ∧
    length grid = length os.
Proof.
  intros Hnd Ho.
  assert (Hlen : length (dict_keys (options self)) = length os).
  { unfold dict_keys. rewrite length_map. by eapply deref_length. }
  unfold GuiUi._setup_options_ui, GuiUi.option_items. rewrite Ho. simpl.
  rewrite setup_loop_spec;
    [|lia|rewrite dict_keys_zip by (by rewrite length_fmap); exact Hnd].
  eexists _, _. split; [reflexivity|]. simpl. split.
  - rewrite actives_setup. f_equal. rewrite <- list_fmap_compose.
    by apply list_fmap_ext.
  - rewrite length_imap, length_zip, length_fmap. lia.
Qed.

(** A window whose controls show what the core holds writes nothing new. *)
Lemma update_core_in_sync (w : Gui.MainWindow) (st : store)
    (ts : list FedorableTask) (os : list FedorableOption) :
  core_ok st (Gui.fedorable w) →
  deref_tasks st (tasks (Gui.fedorable w)) = Some ts →
  deref_options st (options (Gui.fedorable w)) = Some os →
  Gui.task_checkboxes w
    = zip (dict_keys (tasks (Gui.fedorable w))) (task_enabled <$> ts) →
  Gui.option_switches w
    = zip (dict_keys (options (Gui.fedorable w))) (option_enabled <$> os) →
  Gui.update_core w st = (Normal (), st).
Proof.
  intros Hok Ht Ho Hcb Hsw. pose proof Hok as [(Hkt & _) (Hko & _)].
  assert (Hlt : length (dict_keys (tasks (Gui.fedorable w))) = length ts).
  { unfold dict_keys. rewrite length_map. by eapply deref_length. }
  assert (Hlo : length (dict_keys (options (Gui.fedorable w))) = length os).
  { unfold dict_keys. rewrite length_map. by eapply deref_length. }
  destruct (update_core_lookups w st Hok) as (st' & Hu & _ & Hkt' & Hko').
  { rewrite Hcb, dict_keys_zip by (by rewrite length_fmap). exact Hkt. }
  { rewrite Hsw, dict_keys_zip by (by rewrite length_fmap). exact Hko. }
  rewrite Hu. f_equal.
  pose proof (framed_update_core w st) as [Hft Hfo]. rewrite Hu in Hft, Hfo.
  simpl in Hft, Hfo.
  assert (Et : task_objs st' = task_objs st).
  { apply (updated_fixed _ _ _ _ Hkt Hft). intros name t Hl.
    change (lookup_task st' (Gui.fedorable w) name = Some t).
    rewrite (Hkt' name t Hl). unfold GuiUi.control_choice.
    rewrite Hcb, (zip_dict_get task_enabled _ name _ ts t Ht Hl). simpl.
    by rewrite task_set_enabled_same. }
  assert (Eo : option_objs st' = option_objs st).
  { apply (updated_fixed _ _ _ _ Hko Hfo). intros name o Hl.
    change (lookup_option st' (Gui.fedorable w) name = Some o).
    rewrite (Hko' name o Hl). unfold GuiUi.control_choice.
    rewrite Hsw, (zip_dict_get option_enabled _ name _ os o Ho Hl). simpl.
    by rewrite option_set_enabled_same. }
  destruct st, st'. simpl in Et, Eo. by subst.
Qed.

(** X10. [FedorableMainWindow.__init__] on a registry with distinct keys
    whose entries exist gives a window with no process, a core on the given
    script path, one check box per task and one switch per option, in the
    registry's order and each showing the registry entry's [enabled], and as
    many grid cells as controls. [build_command] on this window, before any
    control is touched, changes no object and returns ["pkexec"], the script
    path, ["--no-<name>"] for each registry task that is not enabled and
    ["--<name>"] for each registry option that is, names with underscores as
    hyphens. *)
Theorem fresh_window (FEDORABLE_SCRIPT_PATH : string) (reg : registry)
    (st : store) (tmpl : list FedorableTask) (otmpl : list FedorableOption) :
  NoDup (dict_keys (TASKS reg)) →
  NoDup (dict_keys (OPTIONS reg)) →
  deref_tasks st (TASKS reg) = Some tmpl →
  deref_options st (OPTIONS reg) = Some otmpl →
  ∃ w tasks_grid options_grid st1,
    GuiUi.MainWindow_init FEDORABLE_SCRIPT_PATH reg st
      = Some (w, tasks_grid, options_grid, st1) ∧
    Gui.process w = false ∧
    script_path (Gui.fedorable w) = FEDORABLE_SCRIPT_PATH ∧
    Gui.task_checkboxes w = zip (dict_keys (TASKS reg)) (task_enabled <$> tmpl) ∧
    Gui.option_switches w
      = zip (dict_keys (OPTIONS reg)) (option_enabled <$> otmpl) ∧
    length tasks_grid = length tmpl ∧
    length options_grid = length otmpl ∧
    Gui.build_command w st1 =
      (Normal
         (Some (["pkexec"; FEDORABLE_SCRIPT_PATH]
                ++ map (λ t, "--no-" +:+
                               str_replace_char "_"%char "-"%char (task_name t))
                     (List.filter (λ t, negb (task_enabled t)) tmpl)
                ++ map (λ o, "--" +:+
                               str_replace_char "_"%char "-"%char (option_name o))
                     (List.filter option_enabled otmpl))),
       st1).
Proof.
  intros Hkt Hko Ht Ho.
  set (path := FEDORABLE_SCRIPT_PATH).
  set (c := init_core path reg (Some path) st).
  set (st1 := init_store st tmpl otmpl).
  pose proof (FedorableCore_init_ok path reg (Some path) st tmpl otmpl Ht Ho)
    as Hinit.
  pose proof (init_core_ok path reg (Some path) st tmpl otmpl Hkt Hko Ht Ho)
    as Hok.
  pose proof (init_tasks_view path reg (Some path) st tmpl otmpl Ht) as Hvt.
  pose proof (init_options_view path reg (Some path) st tmpl otmpl Ho) as Hvo.
  fold c st1 in Hinit, Hok, Hvt, Hvo.
  assert (Ekt : dict_keys (tasks c) = dict_keys (TASKS reg)).
  { apply zip_keys. unfold dict_keys. by rewrite length_map, length_seq. }
  assert (Eko : dict_keys (options c) = dict_keys (OPTIONS reg)).
  { apply zip_keys. unfold dict_keys. by rewrite length_map, length_seq. }
  destruct (setup_tasks_ui_ok st1 c _ (proj1 (proj1 Hok)) Hvt)
    as (cbs & tg & Hst & Hat & Hlt).
  destruct (setup_options_ui_ok st1 c _ (proj1 (proj2 Hok)) Hvo)
    as (sws & og & Hso & Hao & Hlo).
  exists (Gui.mkMainWindow false c (GuiUi.actives cbs) (GuiUi.actives sws)),
    tg, og, st1.
  split; [unfold GuiUi.MainWindow_init; rewrite Hinit; simpl;
          rewrite Hst; simpl; by rewrite Hso|].
  split; [done|]. split; [apply str_or_same|].
  split; [rewrite Hat, Ekt, <- list_fmap_compose; by apply (f_equal (zip _))|].
  split; [rewrite Hao, Eko, <- list_fmap_compose; by apply (f_equal (zip _))|].
  split; [by rewrite Hlt, length_fmap|]. split; [by rewrite Hlo, length_fmap|].
  unfold Gui.build_command, bind.
  rewrite (update_core_in_sync
             (Gui.mkMainWindow false c (GuiUi.actives cbs) (GuiUi.actives sws))
             st1 _ _ Hok Hvt Hvo Hat Hao).
  do 2 f_equal. unfold build_command. cbn [Gui.fedorable].
  assert (Ep : script_path c = path) by apply str_or_same.
  rewrite Ep, (append_disabled_tasks_spec st1 _ _ _ Hvt). simpl.
  rewrite (append_enabled_options_spec st1 _ _ _ Hvo).
  rewrite !(filter_map_comm _ _ _), !map_map. reflexivity.
Qed.

Lemma grid_placement_witness :
  ∃ controls grid,
    GuiUi.setup_loop three_items [] [] 0 0 = (controls, grid) ∧
    dict_keys controls = ["update"; "clean_dnf"; "trim"] ∧
    grid !! 2 = Some (GuiUi.mkControl "Trim" false, (0, 1)).
Proof.
  assert (Hnd : NoDup (dict_keys three_items)) by decide_it.
  destruct (grid_placement three_items Hnd)
    as (controls & grid & Hs & Hk & _ & Hi & _).
  exists controls, grid. split; [exact Hs|]. split; [exact Hk|].
  exact (proj2 (Hi 2 "trim" "Trim" false eq_refl)).
Defined.

Lemma gui_command_witness :
  ∃ st',
    Gui.build_command small_window small_store =
      (Normal (Some ["pkexec"; "/usr/bin/fedorable.sh"; "--no-update";
                     "--dry-run"]), st').
Proof.
  assert (H1 : NoDup (dict_keys (Gui.task_checkboxes small_window)))
    by decide_it.
  assert (H2 : NoDup (dict_keys (Gui.option_switches small_window)))
    by decide_it.
  destruct (gui_command small_window small_store _ _ small_core_ok H1 H2
              eq_refl eq_refl) as (st' & Hb & _).
  exists st'. exact Hb.
Defined.

Lemma fresh_window_witness :
  ∃ w tasks_grid options_grid st1,
    GuiUi.MainWindow_init example_path shipped_registry class_store
      = Some (w, tasks_grid, options_grid, st1) ∧
    length tasks_grid = 11 ∧
    Gui.build_command w st1 = (Normal (Some ["pkexec"; example_path]), st1).
Proof.
  assert (H1 : NoDup (dict_keys (TASKS shipped_registry))) by decide_it.
  assert (H2 : NoDup (dict_keys (OPTIONS shipped_registry))) by decide_it.
  destruct (fresh_window example_path shipped_registry class_store _ _ H1 H2
              eq_refl eq_refl)
    as (w & tg & og & st1 & Hi & _ & _ & _ & _ & Hl & _ & Hb).
  exists w, tg, og, st1. split; [exact Hi|]. split; [exact Hl|]. exact Hb.
Defined.

(** ** The command-line programs *)












(** ** The window while it runs the script *)

Lemma all_set (v : bool) (d : dict bool) :
  Forall (λ kv : string * bool, kv.2 = v) ((λ kv, (kv.1, v)) <$> d).
Proof. apply Forall_fmap, Forall_forall. by intros. Qed.

Lemma active_Some {A : Type} (x : A) : bool_decide (is_Some (Some x)) = true.
Proof. by apply bool_decide_eq_true_2. Qed.

Lemma active_None {A : Type} : bool_decide (is_Some (@None A)) = false.
Proof. apply bool_decide_eq_false_2. by intros [? ?]. Qed.

Lemma build_command_frame (w : Gui.MainWindow) (st st' : store)
    (r : outcome (option (list string))) :
  Gui.build_command w st = (r, st') → frame (Gui.fedorable w) st st'.
Proof.
  intros Hb. pose proof (framed_update_core w st) as Hf.
  unfold Gui.build_command, bind in Hb.
  destruct (Gui.update_core w st) as [[[]|e] st1]; simpl in Hf;
    by injection Hb as _ <-.
Qed.

Lemma controls_are_set (v : bool) (w : GuiWin.Window) :
  GuiWin.controls_are v (GuiWin.set_controls_sensitive v w).
Proof.
  unfold GuiWin.controls_are. simpl.
  split; [done|]. split; [done|]. split; apply all_set.
Qed.

(** One event keeps the invariant, presents no dialog, keeps the core object
    and the controls' keys, and stays within the frame of the core. *)
Lemma handle_step (rt : Runtime) (quote : string → string) (e : GuiWin.event)
    (w w' : GuiWin.Window) (st st' : store) :
  window_inv w →
  GuiWin.handle rt quote e (w, st) = Some (w', st') →
  window_inv w' ∧
  GuiWin.dialogs w' = GuiWin.dialogs w ∧
  GuiWin.fedorable w' = GuiWin.fedorable w ∧
  GuiWin.task_checkboxes w' = GuiWin.task_checkboxes w ∧
  GuiWin.option_switches w' = GuiWin.option_switches w ∧
  frame (GuiWin.fedorable w) st st'.
Proof.
  intros Hinv H. destruct e; simpl in H.
  - unfold GuiWin.on_run_clicked in H.
    destruct (bool_decide (is_Some (GuiWin.process w))) eqn:Hp.
    { simpl in H. injection H as <- <-.
      split; [exact Hinv|]. split; [done|].
      split; [done|]. split; [done|]. split; [done|apply frame_refl]. }
    destruct (negb (is_script_executable (rt_os rt) (GuiWin.fedorable w))).
    { simpl in H. injection H as <- <-.
      split; [|split; [done|split; [done|split; [done|split;
                 [done|apply frame_refl]]]]].
      split; [exact (proj1 Hinv)|]. simpl. intros Hu.
      by destruct (GuiWin.uncaught w). }
    destruct (Gui.build_command (GuiWin.main_window w) st)
      as [[[command|]|?] st1] eqn:Hb; try done.
    apply build_command_frame in Hb.
    destruct (spawn (rt_os rt) command) as [ch|]; simpl in H;
      injection H as <- <-;
      (split; [|split; [done|split; [done|split; [done|split;
                  [done|exact Hb]]]]]).
    + split.
      * exists false. split; [|done].
        exact (controls_are_set false _).
      * intros _. simpl. rewrite ?active_Some. simpl.
        exact (controls_are_set false _).
    + split.
      * exists false. split; [|done].
        exact (controls_are_set false _).
      * simpl. intros Hu. by destruct (GuiWin.uncaught w).
  - injection H as <- <-.
    split; [exact Hinv|]. split; [done|].
    split; [done|]. split; [done|]. split; [done|apply frame_refl].
  - unfold GuiWin._on_process_communication_finished in H.
    destruct (GuiWin.process w) as [ch|]; [simpl in H|done].
    injection H as <- <-.
    split; [|split; [|split; [|split; [|split; [|apply frame_refl]]]]].
    + split.
      * exists true. split; [|by intros [? ?]].
        exact (controls_are_set true _).
      * intros _. simpl. rewrite ?active_None. simpl.
        exact (controls_are_set true _).
    + by destruct (child_returncode ch =? 0)%Z,
        (String.eqb (child_stdout ch) ""), (String.eqb (child_stderr ch) "").
    + by destruct (child_returncode ch =? 0)%Z,
        (String.eqb (child_stdout ch) ""), (String.eqb (child_stderr ch) "").
    + by destruct (child_returncode ch =? 0)%Z,
        (String.eqb (child_stdout ch) ""), (String.eqb (child_stderr ch) "").
    + by destruct (child_returncode ch =? 0)%Z,
        (String.eqb (child_stdout ch) ""), (String.eqb (child_stderr ch) "").
  - unfold GuiWin._on_process_communication_failed in H.
    destruct (GuiWin.process w) as [ch|]; [simpl in H|done].
    injection H as <- <-.
    split; [|split; [done|split; [done|split; [done|split;
               [done|apply frame_refl]]]]].
    split.
    + exists true. split; [|by intros [? ?]].
      exact (controls_are_set true _).
    + intros _. simpl. rewrite ?active_None. simpl.
      exact (controls_are_set true _).
Qed.

Lemma handle_all_steps (rt : Runtime) (quote : string → string)
    (es : list GuiWin.event) : ∀ (w w' : GuiWin.Window) (st st' : store),
  window_inv w →
  GuiWin.handle_all rt quote es (w, st) = Some (w', st') →
  window_inv w' ∧
  GuiWin.dialogs w' = GuiWin.dialogs w ∧
  GuiWin.fedorable w' = GuiWin.fedorable w ∧
  GuiWin.task_checkboxes w' = GuiWin.task_checkboxes w ∧
  GuiWin.option_switches w' = GuiWin.option_switches w ∧
  frame (GuiWin.fedorable w) st st'.
Proof.
  induction es as [|e es IH]; intros w w' st st' Hinv H.
  { injection H as <- <-. split; [exact Hinv|]. split; [done|].
    split; [done|]. split; [done|]. split; [done|apply frame_refl]. }
  cbn [GuiWin.handle_all] in H.
  destruct (GuiWin.handle rt quote e (w, st)) as [[w1 st1]|] eqn:He;
    [simpl in H|done].
  destruct (handle_step rt quote e w w1 st st1 Hinv He)
    as (Hinv1 & Hd1 & Hf1 & Ht1 & Ho1 & Hfr1).
  destruct (IH w1 w' st1 st' Hinv1 H) as (Hinv' & Hd' & Hf' & Ht' & Ho' & Hfr').
  split; [exact Hinv'|]. split; [congruence|]. split; [congruence|].
  split; [congruence|].
  split; [congruence|]. rewrite Hf1 in Hfr'. by eapply frame_trans.
Qed.

(** X13. After any sequence of clicks on the two buttons and ends of
    communication, with the child's output or with an error, starting from
    the window that [__init__] leaves: the run button, the clear button,
    every check box and every switch are all sensitive or all insensitive,
    and insensitive while a process is active; as long as no exception has
    left a handler, they are sensitive when no process is active; no dialog
    has been presented; the window still has the same core object and the
    same controls; and in the store nothing was constructed and nothing but
    the [enabled] attribute of the tasks and options of the window's core
    has changed. *)
Theorem controls_follow_process (rt : Runtime) (quote : string → string)
    (main : Gui.MainWindow) (es : list GuiWin.event) (st st' : store)
    (w' : GuiWin.Window) :
  GuiWin.handle_all rt quote es (GuiWin.new_window main, st) = Some (w', st') →
  GuiWin.controls_agree w' ∧
  (GuiWin.uncaught w' = [] →
   GuiWin.controls_are (negb (bool_decide (is_Some (GuiWin.process w')))) w') ∧
  GuiWin.dialogs w' = [] ∧
  GuiWin.fedorable w' = Gui.fedorable main ∧
  GuiWin.task_checkboxes w' = Gui.task_checkboxes main ∧
  GuiWin.option_switches w' = Gui.option_switches main ∧
  frame (Gui.fedorable main) st st'.
Proof.
  intros H.
  assert (Hnew : GuiWin.controls_are true (GuiWin.new_window main)).
  { unfold GuiWin.controls_are. simpl.
    split; [done|]. split; [done|]. split; apply all_set. }
  destruct (handle_all_steps rt quote es (GuiWin.new_window main) w' st st')
    as ((Ha & Hu) & Hd & Hrest); [|exact H|].
  { split; [exists true; split; [exact Hnew|by intros [? ?]]|].
    intros _. simpl. rewrite ?active_None. exact Hnew. }
  split; [exact Ha|]. split; [exact Hu|]. split; [exact Hd|exact Hrest].
Qed.

(** ** A run in the window *)

Lemma append_assoc_r (a b c : string) : (a +:+ b) +:+ c = a +:+ (b +:+ c).
Proof.
  induction a as [|x a IH]; [done|].
  change (String x ((a +:+ b) +:+ c) = String x (a +:+ (b +:+ c))).
  by rewrite IH.
Qed.

Lemma joined_snoc (chunks : list string) (s : string) :
  joined (chunks ++ [s]) = joined chunks +:+ s.
Proof.
  induction chunks as [|c chunks IH]; simpl.
  - apply append_empty_r.
  - by rewrite IH, append_assoc_r.
Qed.






(** X15. From a window with no process and an executable script, a click on
    the run button whose launch fails prints the error's message and then
    raises [AttributeError] out of [on_run_clicked], from the call of
    [set_extra_info] in [show_error_dialog]: no dialog is presented and
    [_finalize_run] is not reached. The window is left with no process and
    with the run button, the clear button, every check box and every switch
    insensitive; the output view shows the line of the command and an empty
    line, with no line of failure, and the status label still says
    ["Starting maintenance..."]. The core was updated from the controls all
    the same. *)
Theorem failed_launch (rt : Runtime) (quote : string → string)
    (w : GuiWin.Window) (st st' : store) (command : list string) :
  GuiWin.process w = None →
  is_script_executable (rt_os rt) (GuiWin.fedorable w) = true →
  Gui.build_command (GuiWin.main_window w) st = (Normal (Some command), st') →
  spawn (rt_os rt) command = None →
  ∃ w',
    GuiWin.on_run_clicked rt quote w st = Some (GuiWin.AttributeError w', st') ∧
    GuiWin.process w' = None ∧
    GuiWin.controls_are false w' ∧
    GuiWin.dialogs w' = GuiWin.dialogs w ∧
    GuiWin.printed w' =
      GuiWin.printed w ++ ["Failed to start process: " +:+ strerror rt command] ∧
    GuiWin.shown w' =
      "Running command: " +:+ String.concat " " (map quote command)
      +:+ String LF (String LF EmptyString) ∧
    GuiWin.status_label w' = "Starting maintenance..." ∧
    GuiWin.handle rt quote GuiWin.RunClicked (w, st) =
      Some (GuiWin.main_loop (GuiWin.AttributeError w'), st').
Proof.
  intros Hp Hx Hb Hs.
  cbn [GuiWin.handle fst snd]. unfold GuiWin.on_run_clicked.
  rewrite Hp, active_None, Hx. cbn [negb]. rewrite Hb, Hs.
  eexists. split; [reflexivity|].
  split; [exact Hp|]. split; [|split; [reflexivity|]].
  { unfold GuiWin.controls_are. simpl.
    split; [done|]. split; [done|]. split; apply all_set. }
  split; [reflexivity|]. split; [|split; [reflexivity|reflexivity]].
  change (GuiWin.shown _)
    with (joined ([] ++ ["Running command: "
                         +:+ String.concat " " (map quote command)
                         +:+ String LF (String LF EmptyString)])).
  rewrite joined_snoc. reflexivity.
Qed.

Lemma MainWindow_init_inv (path : string) (reg : registry) (st st1 : store)
    (main : Gui.MainWindow) (tg og : list (GuiUi.Control * (nat * nat))) :
  GuiUi.MainWindow_init path reg st = Some (main, tg, og, st1) →
  Gui.process main = false ∧ script_path (Gui.fedorable main) = path.
Proof.
  unfold GuiUi.MainWindow_init, FedorableCore_init. intros H.
  destruct (copy_tasks (TASKS reg) st) as [[ts st2]|]; [simpl in H|done].
  destruct (copy_options (OPTIONS reg) st2) as [[os st3]|]; [simpl in H|done].
  destruct (GuiUi._setup_tasks_ui _ _) as [[cbs g]|]; [simpl in H|done].
  destruct (GuiUi._setup_options_ui _ _) as [[sws g']|]; [simpl in H|done].
  injection H as <- _ _ _. split; [done|]. apply str_or_same.
Qed.

(** X16. For the window that [FedorableMainWindow.__init__] made,
    [_check_script_availability] returns, having done nothing, when
    [is_script_executable] of the window's core holds. Otherwise it raises
    [AttributeError], from the call of [set_extra_info] in
    [show_error_dialog], before any dialog is presented, and the window is as
    it was; and then a click on the run button does the same: it raises
    [AttributeError] with no dialog, no launch, and no change of the core,
    of the status, of the output or of the controls. *)
Theorem startup_check (rt : Runtime) (quote : string → string) (path : string)
    (reg : registry) (st st1 : store) (main : Gui.MainWindow)
    (tg og : list (GuiUi.Control * (nat * nat))) :
  GuiUi.MainWindow_init path reg st = Some (main, tg, og, st1) →
  let w := GuiWin.new_window main in
  GuiWin._check_script_availability (rt_os rt) path w =
    (if is_script_executable (rt_os rt) (GuiWin.fedorable w)
     then GuiWin.Returns w else GuiWin.AttributeError w) ∧
  (is_script_executable (rt_os rt) (GuiWin.fedorable w) = false →
   GuiWin.on_run_clicked rt quote w st1 = Some (GuiWin.AttributeError w, st1)).
Proof.
  intros [Hp Hpath]%MainWindow_init_inv w.
  unfold is_script_executable.
  change (GuiWin.fedorable w) with (Gui.fedorable main). rewrite Hpath.
  unfold GuiWin._check_script_availability, GuiWin.show_error_dialog.
  split.
  - destruct (path_exists (rt_os rt) path);
      [destruct (access_X_OK (rt_os rt) path)|]; reflexivity.
  - intros Hx. unfold GuiWin.on_run_clicked, GuiWin.show_error_dialog.
    change (GuiWin.process w) with (@None Child). rewrite active_None.
    unfold is_script_executable.
    change (GuiWin.fedorable w) with (Gui.fedorable main).
    rewrite Hpath, Hx. reflexivity.
Qed.

Lemma controls_follow_process_witness :
  (∃ w' st',
     GuiWin.handle_all example_rt (λ s, s)
       [GuiWin.RunClicked; GuiWin.ClearClicked] (small_new_window, small_store)
       = Some (w', st') ∧
     GuiWin.run_button w' = false ∧ is_Some (GuiWin.process w')) ∧
  (∃ w' st',
     GuiWin.handle_all failing_rt (λ s, s)
       [GuiWin.RunClicked; GuiWin.ClearClicked] (small_new_window, small_store)
       = Some (w', st') ∧
     GuiWin.controls_agree w' ∧ GuiWin.dialogs w' = [] ∧
     GuiWin.run_button w' = false ∧ GuiWin.process w' = None).
Proof.
  split.
  - destruct (GuiWin.handle_all example_rt (λ s, s)
                [GuiWin.RunClicked; GuiWin.ClearClicked]
                (small_new_window, small_store)) as [[w' st']|] eqn:E;
      [|by vm_compute in E].
    exists w', st'. split; [reflexivity|].
    destruct (controls_follow_process example_rt (λ s, s) small_window _ _ _ _ E)
      as (_ & Hu & _).
    assert (Hp : is_Some (GuiWin.process w')).
    { vm_compute in E. injection E as <- _. by eexists. }
    assert (Hn : GuiWin.uncaught w' = []).
    { vm_compute in E. injection E as <- _. reflexivity. }
    destruct (Hu Hn) as (Hr & _).
    split; [|exact Hp]. rewrite Hr. by rewrite bool_decide_eq_true_2.
  - destruct (GuiWin.handle_all failing_rt (λ s, s)
                [GuiWin.RunClicked; GuiWin.ClearClicked]
                (small_new_window, small_store)) as [[w' st']|] eqn:E;
      [|by vm_compute in E].
    exists w', st'. split; [reflexivity|].
    destruct (controls_follow_process failing_rt (λ s, s) small_window _ _ _ _ E)
      as (Ha & _ & Hd & _).
    split; [exact Ha|]. split; [exact Hd|].
    vm_compute in E. injection E as <- _. split; reflexivity.
Defined.


Lemma failed_launch_witness :
  ∃ w' st',
    GuiWin.on_run_clicked failing_rt (λ s, s) small_new_window small_store
      = Some (GuiWin.AttributeError w', st') ∧
    GuiWin.process w' = None ∧ GuiWin.run_button w' = false ∧
    GuiWin.dialogs w' = [] ∧
    GuiWin.status_label w' = "Starting maintenance...".
Proof.
  destruct (failed_launch failing_rt (λ s, s) small_new_window small_store
              _ _ eq_refl eq_refl eq_refl eq_refl)
    as (w' & H & Hp & (Hr & _) & Hd & _ & _ & Hs & _).
  eexists w', _. split; [exact H|]. split; [exact Hp|]. split; [exact Hr|].
  split; [exact Hd|exact Hs].
Defined.

Lemma startup_check_witness :
  ∃ main tg og st1,
    GuiUi.MainWindow_init example_path shipped_registry class_store
      = Some (main, tg, og, st1) ∧
    GuiWin._check_script_availability bare_os example_path
      (GuiWin.new_window main) = GuiWin.AttributeError (GuiWin.new_window main) ∧
    GuiWin._check_script_availability example_os example_path
      (GuiWin.new_window main) = GuiWin.Returns (GuiWin.new_window main).
Proof.
  destruct (GuiUi.MainWindow_init example_path shipped_registry class_store)
    as [[[[main tg] og] st1]|] eqn:E; [|by vm_compute in E].
  exists main, tg, og, st1. split; [reflexivity|].
  destruct (startup_check bare_rt (λ s, s) example_path shipped_registry
              class_store st1 main tg og E) as (H1 & _).
  destruct (startup_check example_rt (λ s, s) example_path shipped_registry
              class_store st1 main tg og E) as (H2 & _).
  split; [exact H1|exact H2].
Defined.

(** ** From a switch to the script *)

Lemma zip_In_fmap {A B : Type} (f : A → B) (xs : list A) (key : string) :
  ∀ (d : dict loc) (ys : list A) (l : loc) (x : A),
    deref xs d = Some ys →
    In (key, l) d → xs !! l = Some x →
    In (key, f x) (zip (dict_keys d) (f <$> ys)).
Proof.
  induction d as [|[k l0] d IH]; intros ys l x Hd Hin Hx; [done|].
  rewrite deref_cons in Hd.
  destruct (xs !! l0) as [y|] eqn:Hl; [simpl in Hd|done].
  destruct (deref xs d) as [ys'|] eqn:Hd'; [|done].
  injection Hd as <-. simpl.
  destruct Hin as [[= -> ->]|Hin].
  - left. congruence.
  - right. by eapply IH.
Qed.

(** X17. For a registry with distinct keys whose entries carry their key as
    name: after [setup_fedorable_core], the command of [run_fedorable]
    contains the option string of every [store_false] argument that
    [parse_arguments] registered for a task and whose destination holds
    [False], and the option string of every argument registered for an option
    whose destination holds [True]. So [--no-<task>] and [--<option>] given
    to the front end are handed to the script under the same spelling. *)
Theorem switch_reaches_script (default_script_path : string) (reg : registry)
    (args : Cli.Namespace) (st : store) (tmpl : list FedorableTask)
    (otmpl : list FedorableOption) :
  NoDup (dict_keys (TASKS reg)) →
  NoDup (dict_keys (OPTIONS reg)) →
  deref_tasks st (TASKS reg) = Some tmpl →
  deref_options st (OPTIONS reg) = Some otmpl →
  ∃ fedorable st1 command,
    Cli.setup_fedorable_core default_script_path reg args st
      = Some (Normal fedorable, st1) ∧
    build_command st1 fedorable (negb (Cli.ns_no_pkexec args)) = Some command ∧
    (∀ key t switch dest,
       registry_task st reg key = Some t → task_name t = key →
       In (switch, (dest, false)) (task_arguments key) →
       dict_get (Cli.ns_attrs args) dest = Some (Some false) →
       In switch command) ∧
    (∀ key o switch dest,
       registry_option st reg key = Some o → option_name o = key →
       (switch, (dest, true)) = option_argument key →
       dict_get (Cli.ns_attrs args) dest = Some (Some true) →
       In switch command).
Proof.
  intros Hkt Hko Ht Ho.
  set (path := Some (Cli.ns_script_path args)).
  set (c := init_core default_script_path reg path st).
  set (st0 := init_store st tmpl otmpl).
  pose proof (init_core_ok default_script_path reg path st tmpl otmpl
                Hkt Hko Ht Ho) as Hok.
  pose proof (init_tasks_view default_script_path reg path st tmpl otmpl Ht)
    as Hvt.
  pose proof (init_options_view default_script_path reg path st tmpl otmpl Ho)
    as Hvo.
  fold c st0 in Hok, Hvt, Hvo.
  destruct (configure_then_build args c st0 _ _ (negb (Cli.ns_no_pkexec args))
              Hok Hvt Hvo) as (st1 & Hc & Hb).
  assert (Ekt : dict_keys (tasks c) = dict_keys (TASKS reg)).
  { apply zip_keys. unfold dict_keys. by rewrite length_map, length_seq. }
  assert (Eko : dict_keys (options c) = dict_keys (OPTIONS reg)).
  { apply zip_keys. unfold dict_keys. by rewrite length_map, length_seq. }
  eexists c, st1, _. split; [|split; [exact Hb|split]].
  - unfold Cli.setup_fedorable_core.
    rewrite (FedorableCore_init_ok _ _ _ _ _ _ Ht Ho). simpl.
    fold path c st0. unfold bind. by rewrite Hc.
  - intros key t switch dest Hr Hn Hsw Hd.
    destruct Hsw as [[=]|[[= <- <-]|[]]].
    apply in_or_app. right. apply in_or_app. right. apply in_or_app. left.
    apply in_map_iff. exists (key, task_copy t). split.
    { simpl. by rewrite Hn. }
    apply filter_In. split.
    + rewrite Ekt. unfold registry_task in Hr.
      destruct (dict_get (TASKS reg) key) as [l|] eqn:Hg; [simpl in Hr|done].
      apply (zip_In_fmap task_copy (task_objs st) key _ tmpl l t Ht);
        [by apply dict_get_In|exact Hr].
    + unfold cli_task_choice. simpl. by rewrite Hd.
  - intros key o switch dest Hr Hn [= -> ->] Hd.
    apply in_or_app. right. apply in_or_app. right. apply in_or_app. right.
    apply in_map_iff. exists (key, option_copy o). split.
    { simpl. by rewrite Hn. }
    apply filter_In. split.
    + rewrite Eko. unfold registry_option in Hr.
      destruct (dict_get (OPTIONS reg) key) as [l|] eqn:Hg; [simpl in Hr|done].
      apply (zip_In_fmap option_copy (option_objs st) key _ otmpl l o Ho);
        [by apply dict_get_In|exact Hr].
    + unfold cli_option_choice. simpl. by rewrite Hd.
Qed.

Lemma switch_reaches_script_witness :
  ∃ fedorable st1 command,
    Cli.setup_fedorable_core example_path shipped_registry switch_args
      class_store = Some (Normal fedorable, st1) ∧
    build_command st1 fedorable false = Some command ∧
    In "--no-update" command ∧ In "--dry-run" command.
Proof.
  assert (H1 : NoDup (dict_keys (TASKS shipped_registry))) by decide_it.
  assert (H2 : NoDup (dict_keys (OPTIONS shipped_registry))) by decide_it.
  destruct (switch_reaches_script example_path shipped_registry switch_args
              class_store _ _ H1 H2 eq_refl eq_refl)
    as (c & st1 & command & Hs & Hb & Ht & Ho).
  exists c, st1, command. split; [exact Hs|]. split; [exact Hb|]. split.
  - apply (Ht "update" _ "--no-update" "task_update" eq_refl eq_refl);
      [right; by left|reflexivity].
  - apply (Ho "dry_run" _ "--dry-run" "option_dry_run" eq_refl eq_refl);
      reflexivity.
Defined.
